(** * The example notebooks of tensorflow_constrained_optimization

    A shallow embedding of the two example notebooks (the recall-constrained
    problem on simulated data, and the fairness problem on the Adult data
    set) together with the properties their specification states.

    Conventions of the embedding.

    - Array entries, labels, predictions and rates are exact rationals
      ([Qc], canonical fractions, so that equality is Leibniz equality).
      Rounding and signed zeros are not part of the model; the special
      values that numpy and TensorFlow produce when dividing by zero are
      part of it ([float], [np_divide]).
    - Python integers are [Z] or, for counts and lengths, [nat].
    - A Python call either returns or raises: [outcome], an error monad
      whose errors are the names of the exception classes.
    - numpy arrays and single-column frames are lists; the broadcasting of
      element-wise operations is written out ([broadcast]). *)

From Stdlib Require Import QArith Qcanon ZArith Lia Lqa.
From stdpp Require Import base numbers list strings gmap.

Open Scope Qc_scope.

(** ** Numbers *)

Module Numeric.

(** The Python expression [float(n)] for a count [n]. *)
Definition of_nat (n : nat) : Qc := Q2Qc (inject_Z (Z.of_nat n)).

(** A decimal literal. *)
Definition dec (q : Q) : Qc := Q2Qc q.

(** [x.astype(np.float32)] and [tf.to_float] on a boolean. *)
Definition to_float (b : bool) : Qc := if b then 1 else 0.

(** [np.maximum] and [tf.minimum] on two numbers. *)
Definition maximum (x y : Qc) : Qc := if decide (x ≤ y) then y else x.
Definition minimum (x y : Qc) : Qc := if decide (x ≤ y) then x else y.

(** The result of a numpy or TensorFlow floating-point operation: a number
    or one of the IEEE special values. *)
Inductive float : Type :=
  | Finite (q : Qc)
  | NaN
  | PosInf
  | NegInf.

(** Floating-point division as numpy and TensorFlow perform it: a zero
    divisor yields a special value (numpy also emits a RuntimeWarning), it
    does not raise. *)
Definition np_divide (x y : Qc) : float :=
  if decide (y = 0) then
    if decide (x = 0) then NaN
    else if decide (0 < x) then PosInf else NegInf
  else Finite (x / y).

(** Floating-point subtraction on results. *)
Definition float_sub (x y : float) : float :=
  match x, y with
  | Finite a, Finite b => Finite (a - b)
  | NaN, _ | _, NaN => NaN
  | PosInf, PosInf | NegInf, NegInf => NaN
  | PosInf, _ => PosInf
  | NegInf, _ => NegInf
  | Finite _, PosInf => NegInf
  | Finite _, NegInf => PosInf
  end.

(** [np.sum] and [tf.reduce_sum] of a one-dimensional array. *)
Definition np_sum (xs : list Qc) : Qc := foldr Qcplus 0 xs.

(** [np.mean]: the sum divided by the number of entries (NaN when empty). *)
Definition np_mean (xs : list Qc) : float :=
  np_divide (np_sum xs) (of_nat (length xs)).

(** The number of [True] entries of a boolean array, as [.sum()] or the
    builtin [sum] count them. *)
Definition count_true {A} (p : A → bool) (xs : list A) : nat :=
  length (filter (λ x, p x = true) xs).

End Numeric.

(** ** Calls that can raise *)

Module Py.

Inductive outcome (A : Type) : Type :=
  | Return (a : A)
  | Raise (exn : string).
Arguments Return {A} a.
Arguments Raise {A} exn.

Definition bind {A B} (m : outcome A) (k : A → outcome B) : outcome B :=
  match m with
  | Return a => k a
  | Raise e => Raise e
  end.

#[export] Instance outcome_ret : MRet outcome := @Return.
#[export] Instance outcome_bind : MBind outcome := λ A B k m, bind m k.

(** [raises m] holds when the call ends with an exception, of any class. *)
Definition raises {A} (m : outcome A) : Prop :=
  match m with
  | Return _ => False
  | Raise _ => True
  end.

(** True division of two Python floats, [float(x) / float(y)]. *)
Definition py_div (x y : Qc) : outcome Qc :=
  if decide (y = 0) then Raise "ZeroDivisionError" else Return (x / y).

(** An element-wise binary operation on two one-dimensional arrays (or two
    one-column frames), with numpy's broadcasting: equal lengths combine
    entry by entry, a single entry is stretched, anything else is refused. *)
Definition broadcast {A B C} (f : A → B → C) (xs : list A) (ys : list B)
    : outcome (list C) :=
  if decide (length xs = length ys) then Return (zip_with f xs ys)
  else
    match xs, ys with
    | [x], _ => Return (map (f x) ys)
    | _, [y] => Return (map (λ x, f x y) xs)
    | _, _ => Raise "ValueError"
    end.

End Py.

Export Numeric Py.

(** ** The recall-constrained problem on simulated data *)

Module RecallNotebook.

(** Constants of the data-generation cell. *)
Definition num_examples : Z := 1000.
Definition num_mislabeled_examples : Z := 200.
Definition dimension : Z := 10.
Definition recall_lower_bound : Qc := dec 0.9.



(** [tf.losses.hinge_loss(labels, logits)] of TensorFlow: the mean of
    [max(0, 1 - (2*labels - 1) * logits)], zero when there are no entries;
    the shapes have to agree. *)
Definition hinge_loss (labels logits : list Qc) : outcome float :=
  if decide (length labels = length logits) then
    let losses :=
      zip_with (λ l p, maximum 0 (1 - (2 * l - 1) * p)) labels logits in
    match losses with
    | [] => Return (Finite 0)
    | _ => Return (np_mean losses)
    end
  else Raise "ValueError".

Record ExampleProblem := {
  _labels : list Qc;
  _predictions : list Qc;
  _recall_lower_bound : Qc
}.

(** [self._positive_count], set by the constructor. *)
Definition _positive_count (self : ExampleProblem) : Qc :=
  np_sum (_labels self).

Definition ExampleProblem_objective (self : ExampleProblem)
    : outcome (list float) :=
  loss ← hinge_loss (_labels self) (_predictions self);
  mret [loss].

Definition ExampleProblem_constraints (self : ExampleProblem)
    : outcome (list float) :=
  true_positives ←
    broadcast (λ l p, l * to_float (bool_decide (0 < p)))
      (_labels self) (_predictions self);
  let true_positive_count := np_sum true_positives in
  let recall := np_divide true_positive_count (_positive_count self) in
  mret [float_sub (Finite (_recall_lower_bound self)) recall].

Definition ExampleProblem_proxy_constraints (self : ExampleProblem)
    : outcome (list float) :=
  true_positives ←
    broadcast (λ l p, l * minimum 1 p) (_labels self) (_predictions self);
  let true_positive_count := np_sum true_positives in
  let recall := np_divide true_positive_count (_positive_count self) in
  mret [float_sub (Finite (_recall_lower_bound self)) recall].


(** The two metrics of the evaluation cell. *)
Definition average_hinge_loss (labels predictions : list Qc)
    : outcome float :=
  let signed_labels := map (λ l, l * 2 - 1) labels in
  margins ← broadcast Qcmult signed_labels predictions;
  mret (np_mean (map (λ m, maximum 0 (1 - m)) margins)).

Definition recall (labels predictions : list Qc) : outcome float :=
  let positive_count := np_sum labels in
  true_positives ←
    broadcast (λ l p, l * to_float (bool_decide (0 < p))) labels predictions;
  let true_positive_count := np_sum true_positives in
  mret (np_divide true_positive_count positive_count).

End RecallNotebook.

(** ** The fairness problem on the Adult data set *)

Module FairnessNotebook.

Inductive protected_column : Type :=
  | gender_Female
  | gender_Male
  | race_White
  | race_Black.

Definition PROTECTED_COLUMNS : list protected_column :=
  [gender_Female; gender_Male; race_White; race_Black].

(** A row of the data frame once the predictions column has been added:
    the columns the metrics read. *)
Record row := {
  predictions : Qc;
  label : Qc;
  protected : protected_column → Qc
}.

Definition DataFrame := list row.

(** *** Metrics *)

Definition error_rate (predictions labels : list Qc) : outcome Qc :=
  let signed_labels :=
    map (λ l, to_float (bool_decide (0 < l)) - to_float (bool_decide (l ≤ 0)))
      labels in
  products ← broadcast Qcmult signed_labels predictions;
  let numerator := count_true (λ x, bool_decide (x ≤ 0)) products in
  let denominator := length predictions in
  py_div (of_nat numerator) (of_nat denominator).

Definition positive_prediction_rate (predictions subset : list Qc)
    : outcome Qc :=
  products ←
    broadcast Qcmult
      (map (λ p, to_float (bool_decide (0 < p))) predictions)
      (map (λ s, to_float (bool_decide (0 < s))) subset);
  let numerator := np_sum products in
  let denominator := count_true (λ s, bool_decide (0 < s)) subset in
  py_div numerator (of_nat denominator).

Definition tpr (df : DataFrame) : outcome Qc :=
  let fp :=
    count_true
      (λ r, bool_decide (0 ≤ predictions r) && bool_decide (dec 0.5 < label r))
      df in
  let ln := count_true (λ r, bool_decide (dec 0.5 < label r)) df in
  py_div (of_nat fp) (of_nat ln).

(** [df[df[protected_attribute] > 0.5]] *)
Definition group (protected_attribute : protected_column) (df : DataFrame)
    : DataFrame :=
  filter (λ r, dec 0.5 < protected r protected_attribute) df.

Definition _get_error_rate_and_constraints (df : DataFrame) (tpr_max_diff : Qc)
    : outcome (Qc * list Qc) :=
  error_rate_local ← error_rate (map predictions df) (map label df);
  overall_tpr ← tpr df;
  violations ←
    mapM (λ protected_attribute,
            group_tpr ← tpr (group protected_attribute df);
            mret ((overall_tpr - tpr_max_diff) - group_tpr))
         PROTECTED_COLUMNS;
  mret (error_rate_local, violations).

(** [np.dot] of two vectors and [np.matmul] of a vector with a matrix
    given by its rows; mismatched shapes are refused. (With no rows at all
    numpy's product is the scalar zero, rendered here as the empty vector.) *)
Definition np_dot (u v : list Qc) : outcome Qc :=
  if decide (length u = length v) then Return (np_sum (zip_with Qcmult u v))
  else Raise "ValueError".

Fixpoint vec_matmul (u : list Qc) (rows : list (list Qc)) : list Qc :=
  match u, rows with
  | x :: u', r :: rows' =>
      match rows' with
      | [] => map (Qcmult x) r
      | _ => zip_with Qcplus (map (Qcmult x) r) (vec_matmul u' rows')
      end
  | _, _ => []
  end.

Definition np_matmul (u : list Qc) (rows : list (list Qc))
    : outcome (list Qc) :=
  if decide (length u = length rows) then
    match rows with
    | [] => Return []
    | r :: _ =>
        if decide (Forall (λ r', length r' = length r) rows)
        then Return (vec_matmul u rows)
        else Raise "ValueError"
    end
  else Raise "ValueError".

Definition _get_exp_error_rate_constraints
    (cand_dist error_rates_vector : list Qc)
    (constraints_matrix : list (list Qc)) : outcome (Qc * list Qc) :=
  expected_error_rate ← np_dot cand_dist error_rates_vector;
  expected_constraints ← np_matmul cand_dist constraints_matrix;
  mret (expected_error_rate, expected_constraints).

(** The T-stochastic cell: [np.mean(violations, axis=0)] for a matrix of
    at least one row, all rows of one length ([column_sums] adds the rows
    up); [np.mean(errors)] is [np_mean]. *)
Fixpoint column_sums (rows : list (list Qc)) : list Qc :=
  match rows with
  | [] => []
  | [r] => r
  | r :: rows' => zip_with Qcplus r (column_sums rows')
  end.

Definition np_mean_axis0 (rows : list (list Qc)) : list Qc :=
  map (λ s, s / of_nat (length rows)) (column_sums rows).

(** The builtin [max] of a list of numbers. *)
Definition py_max (xs : list Qc) : outcome Qc :=
  match xs with
  | [] => Raise "ValueError"
  | x :: xs' => Return (foldl maximum x xs')
  end.

(** *** The minibatch loop of [training_generator] *)

(** [range(a, b)] as a list. *)
Definition range (a b : Z) : list Z :=
  map (λ i, (a + Z.of_nat i)%Z) (seq 0 (Z.to_nat (b - a))).

(** The variables the inner [while] loop reads and writes. *)
Record batch_state := {
  minibatch_indices : list Z;
  minibatch_start_index : Z
}.

(** [len(minibatch_indices)] *)
Definition len (st : batch_state) : Z :=
  Z.of_nat (length (minibatch_indices st)).

(** One pass through the body of the [while] loop. *)
Definition while_body (num_rows minibatch_size : Z) (st : batch_state)
    : batch_state :=
  let minibatch_end_index :=
    (minibatch_start_index st + minibatch_size - len st)%Z in
  if decide (minibatch_end_index >= num_rows)%Z then
    {| minibatch_indices :=
         minibatch_indices st ++ range (minibatch_start_index st) num_rows;
       minibatch_start_index := 0 |}
  else
    {| minibatch_indices :=
         minibatch_indices st
           ++ range (minibatch_start_index st) minibatch_end_index;
       minibatch_start_index := minibatch_end_index |}.

(** The [while] loop, run for at most [fuel] passes: [None] when the
    condition still holds after that many. *)
Fixpoint while_loop (fuel : nat) (num_rows minibatch_size : Z)
    (st : batch_state) : option batch_state :=
  if decide (len st < minibatch_size)%Z then
    match fuel with
    | O => None
    | S fuel' =>
        while_loop fuel' num_rows minibatch_size
          (while_body num_rows minibatch_size st)
    end
  else Some st.

(** One iteration of the inner [for] loop up to the call of the training
    step: the list starts empty, the start index is the one the previous
    iteration left. *)
Definition collect_minibatch (fuel : nat) (num_rows minibatch_size : Z)
    (start : Z) : option batch_state :=
  while_loop fuel num_rows minibatch_size
    {| minibatch_indices := []; minibatch_start_index := start |}.

(** The clamp at the top of [training_generator]. *)
Definition clamp (minibatch_size num_rows : Z) : Z :=
  Z.min minibatch_size num_rows.

(** The two nested [for] loops of [training_generator], flattened to their
    [iterations] passes: the lists of positions fed to the training step,
    the start index being carried from one pass to the next. The training
    step itself and the predictions yielded after each outer pass belong
    to the TensorFlow session and are not modelled. *)
Fixpoint training_batches (fuel : nat) (num_rows minibatch_size : Z)
    (iterations : nat) (start : Z) : option (list (list Z)) :=
  match iterations with
  | O => Some []
  | S iterations' =>
      match collect_minibatch fuel num_rows minibatch_size start with
      | None => None
      | Some st =>
          match training_batches fuel num_rows minibatch_size iterations'
                  (minibatch_start_index st) with
          | None => None
          | Some rest => Some (minibatch_indices st :: rest)
          end
      end
  end.

End FairnessNotebook.

(** ** Candidate selection *)

Module Candidates.

Import FairnessNotebook.

(** The two functions of this section are called by the fairness notebook
    and defined in the library module candidates.py, which is not among
    the sources: every definition here follows the specification. *)

(** Modelled from the spec: a snapshot's worst-case constraint violation,
    the largest entry of its violations, and zero when every constraint is
    satisfied, so that such snapshots tie. candidates.py is missing. *)
Definition worst_violation (violations : list Qc) : Qc :=
  foldr maximum 0 violations.

(** Modelled from the spec: the rank of a value among the values of all
    snapshots, ascending, that is the number of snapshots that are strictly
    better; equal values tie. candidates.py is missing. *)
Definition rank (values : list Qc) (x : Qc) : nat :=
  count_true (λ v, bool_decide (v < x)) values.

(** Modelled from the spec: the rank of a snapshot by error.
    candidates.py is missing. *)
Definition error_rank (errors : list Qc) (error : Qc) : nat :=
  rank errors error.

(** Modelled from the spec: the rank of a snapshot by worst-case
    violation. candidates.py is missing. *)
Definition violation_rank (violations : list (list Qc)) (row : list Qc)
    : nat :=
  rank (map worst_violation violations) (worst_violation row).

(** Modelled from the spec: [max(error_rank, violation_rank)].
    candidates.py is missing. *)
Definition combined_rank (errors : list Qc) (violations : list (list Qc))
    (error : Qc) (row : list Qc) : nat :=
  Nat.max (error_rank errors error) (violation_rank violations row).

(** Modelled from the spec: [precedes a b] when the snapshot scored [a] is
    preferred to the one scored [b], a score being the combined rank and,
    to break ties, the error. candidates.py is missing. *)
Definition precedes (a b : nat * Qc) : bool :=
  bool_decide (a.1 < b.1)%nat
  || (bool_decide (a.1 = b.1) && bool_decide (a.2 < b.2)).

(** Modelled from the spec: the scan for the index to return, [best_index]
    being the preferred one among the snapshots before index [i].
    candidates.py is missing. *)
Fixpoint argmin_from (i : nat) (best_index : nat) (best : nat * Qc)
    (scores : list (nat * Qc)) : nat :=
  match scores with
  | [] => best_index
  | s :: scores' =>
      if precedes s best then argmin_from (S i) i s scores'
      else argmin_from (S i) best_index best scores'
  end.

(** Modelled from the spec: the scores of the snapshots, in order.
    candidates.py is missing. *)
Definition scores (errors : list Qc) (violations : list (list Qc))
    : list (nat * Qc) :=
  zip_with (λ error row, (combined_rank errors violations error row, error))
    errors violations.

(** Modelled from the spec: [find_best_candidate_index] of the library
    module candidates.py, which is not among the sources. Snapshots are
    ranked by error and by worst-case violation, each gets the larger of
    its two ranks, and the index with the least combined rank is returned,
    the lowest error deciding between equal ranks (and the first such
    snapshot between equal errors). Nothing is returned for an empty
    sequence or for a violations matrix with another number of rows. *)
Definition find_best_candidate_index (errors : list Qc)
    (violations : list (list Qc)) : option nat :=
  if decide (length errors = length violations) then
    match scores errors violations with
    | [] => None
    | s :: rest => Some (argmin_from 1 0 s rest)
    end
  else None.

(** Modelled from the spec: [p] is a probability vector over [n]
    snapshots, nonnegative and summing to one. candidates.py is missing. *)
Definition is_distribution (n : nat) (p : list Qc) : Prop :=
  length p = n ∧ Forall (λ x, 0 ≤ x) p ∧ np_sum p = 1.

(** Modelled from the spec: [p] is feasible in expectation, that is its
    expected violations, as the notebook's [_get_exp_error_rate_constraints]
    computes them, are all at most zero. candidates.py is missing. *)
Definition feasible_in_expectation (errors : list Qc)
    (violations : list (list Qc)) (p : list Qc) : Prop :=
  ∃ e vs, _get_exp_error_rate_constraints p errors violations = Return (e, vs)
          ∧ Forall (λ v, v ≤ 0) vs.

(** Modelled from the spec: the expected error of [p], the linear
    combination [_get_exp_error_rate_constraints] computes.
    candidates.py is missing. *)
Definition expected_error (errors : list Qc) (p : list Qc) : Qc :=
  np_sum (zip_with Qcmult p errors).

(** Modelled from the spec: the result of [find_best_candidate_distribution]
    of the library module candidates.py, which is not among the sources.
    The spec describes the result, not the procedure: a distribution over
    the snapshots that is feasible in expectation and minimizes the
    expected error among those. *)
Definition best_candidate_distribution (errors : list Qc)
    (violations : list (list Qc)) (p : list Qc) : Prop :=
  is_distribution (length errors) p
  ∧ feasible_in_expectation errors violations p
  ∧ ∀ q, is_distribution (length errors) q →
         feasible_in_expectation errors violations q →
         expected_error errors p ≤ expected_error errors q.

End Candidates.

(** ** The outputs recorded in the notebooks *)

Module RecordedRun.

(** The recall printed after constrained and after unconstrained training
    on the simulated data. *)
Definition constrained_recall : Qc := dec 0.899791.
Definition unconstrained_recall : Qc := dec 0.801670.

(** The distribution over the 40 epochs printed by the fairness notebook:
    weight on the epochs 11 and 21 only. *)
Definition cand_dist : list Qc :=
  replicate 11 0 ++ [dec 0.27921444] ++ replicate 9 0
  ++ [dec 0.72078556] ++ replicate 18 0.

(** The training error and the largest training violation printed for the
    average of all epochs and for that distribution. *)
Definition t_stochastic_error : Qc := dec 0.14204109210405086.
Definition t_stochastic_violation : Qc := dec 0.00040501346694489656.
Definition m_stochastic_error : Qc := dec 0.14129184999836308.
Definition m_stochastic_violation : Qc := dec 1.470178145890344e-16.

End RecordedRun.

(** ** Vocabulary of the statements *)

Module Statements.

Import RecallNotebook FairnessNotebook Candidates.

(** The snapshots of the specification's example of index selection. *)
Definition example_errors : list Qc := [dec 0.1; dec 0.2; dec 0.05].
Definition example_violations : list (list Qc) :=
  [[dec 0.0]; [dec (-0.01)]; [dec 0.2]].

(** [score_le a b]: a snapshot scored [a] (combined rank, error) is at
    least as good as one scored [b]. *)
Definition score_le (a b : nat * Qc) : Prop :=
  (a.1 < b.1)%nat ∨ (a.1 = b.1 ∧ a.2 ≤ b.2).

(** The uniform distribution over [n] snapshots. *)
Definition uniform (n : nat) : list Qc := replicate n (1 / of_nat n).

(** Two snapshots and one constraint: the first has no error and violates
    the constraint, the second errs and satisfies it with room to spare.
    [tradeoff_best] mixes them so that the constraint holds with equality
    in expectation. *)
Definition tradeoff_errors : list Qc := [0; 1].
Definition tradeoff_violations : list (list Qc) := [[1]; [dec (-0.5)]].
Definition tradeoff_best : list Qc := [dec (1 # 3); dec (2 # 3)].

(** Two snapshots and one constraint, both feasible: the first has no error
    and meets the constraint with equality, the second errs and has room
    to spare. *)
Definition slack_errors : list Qc := [0; 1].
Definition slack_violations : list (list Qc) := [[0]; [-1]].
Definition slack_best : list Qc := [1; 0].

(** Three snapshots that are alike, with one constraint, which all of
    them meet. *)
Definition tied_errors : list Qc := [0; 0; 0].
Definition tied_violations : list (list Qc) := [[0]; [0]; [0]].

(** The number of nonzero entries of a probability vector. *)
Definition nonzeros (p : list Qc) : nat :=
  count_true (λ x, negb (bool_decide (x = 0))) p.

(** Rows of a data frame: a prediction, a label, and membership of the four
    protected groups in the order of [PROTECTED_COLUMNS]. *)
Definition make_row (p l female male white black : Qc) : row := {|
  predictions := p;
  label := l;
  protected := λ a,
    match a with
    | gender_Female => female
    | gender_Male => male
    | race_White => white
    | race_Black => black
    end
|}.

(** Two positively-labelled rows, one predicted positive and in every
    group, one predicted negative and in the first group only. *)
Definition two_rows : DataFrame :=
  [make_row 1 1 1 1 1 1; make_row (-1) 1 1 0 0 0].

(** A positively-labelled row with a prediction of exactly zero, and three
    rows with other predictions. *)
Definition boundary_row : row := make_row 0 1 1 1 1 1.
Definition other_rows : DataFrame :=
  [make_row 1 1 0 0 0 0; make_row (-1) 1 0 0 0 0; make_row (-1) 0 0 0 0 0].

(** A hand-written problem over three examples. *)
Definition three_examples : ExampleProblem := {|
  _labels := [1; 0; 1];
  _predictions := [dec 0.5; 1; -1];
  _recall_lower_bound := recall_lower_bound
|}.

(** The consecutive positions, [minibatch_size] of them, from [start] on,
    wrapping to position 0 after the last of the [num_rows] rows. *)
Definition wrapped (num_rows minibatch_size start : Z) : list Z :=
  map (λ k, ((start + Z.of_nat k) `mod` num_rows)%Z)
      (seq 0 (Z.to_nat minibatch_size)).

End Statements.

Import Statements.

(** ** The simulated data and the linear model *)

Module RecallData.

Import RecallNotebook FairnessNotebook.

(** [np.matmul(features, w)] and [tf.tensordot(features, w, axes=(1, 0))]
    for a matrix given by its rows: one score per example; a row of
    another length than [w] is refused. *)
Definition matvec (features : list (list Qc)) (w : list Qc)
    : outcome (list Qc) :=
  mapM (λ x, np_dot x w) features.

(** The labels of the ground-truth model, before noise. *)
Definition ground_truth_threshold : Qc := 0.

Definition ground_truth_labels (features : list (list Qc))
    (ground_truth_weights : list Qc) : outcome (list Qc) :=
  scores ← matvec features ground_truth_weights;
  mret (map (λ s, to_float (bool_decide (ground_truth_threshold < s)))
          scores).

(** The position an index of a numpy array of [n] entries stands for:
    negative indices count from the end. *)
Definition np_position (n : nat) (i : Z) : outcome nat :=
  if decide (0 ≤ i < Z.of_nat n)%Z then Return (Z.to_nat i)
  else if decide (- Z.of_nat n ≤ i < 0)%Z
       then Return (Z.to_nat (Z.of_nat n + i))
       else Raise "IndexError".

(** [xs[positions]] read, and [xs[positions] = values] written entry by
    entry. *)
Definition np_take (xs : list Qc) (positions : list nat) : list Qc :=
  map (λ p, default 0 (xs !! p)) positions.

Definition np_put (xs : list Qc) (positions : list nat) (values : list Qc)
    : list Qc :=
  foldl (λ acc pv, <[pv.1 := pv.2]> acc) xs (zip positions values).

(** [labels[mislabeled_indices] = 1 - labels[mislabeled_indices]]: the
    right-hand side is read from the labels as they are, then written. *)
Definition add_label_noise (labels : list Qc) (mislabeled_indices : list Z)
    : outcome (list Qc) :=
  positions ← mapM (np_position (length labels)) mislabeled_indices;
  let flipped := map (λ l, 1 - l) (np_take labels positions) in
  mret (np_put labels positions flipped).

(** The model parameters as they are created. *)
Definition initial_weights : list Qc := replicate (Z.to_nat dimension) 0.
Definition initial_threshold : Qc := 0.

(** The predictions of the linear model, [matmul(features, weights) -
    threshold], as the graph and the evaluation cells compute them. *)
Definition trained_predictions (features : list (list Qc))
    (trained_weights : list Qc) (trained_threshold : Qc)
    : outcome (list Qc) :=
  scores ← matvec features trained_weights;
  mret (map (λ s, s - trained_threshold) scores).

End RecallData.

(** ** Aligning the columns of the two data frames *)

Module Preprocessing.

(** A data frame as [fix_columns] sees it: the length of its index and its
    columns in order, each a label with its values. *)
Record frame := {
  index_size : nat;
  columns : list (string * list Z)
}.

(** [df.columns] *)
Definition labels_of (df : frame) : list string := map fst (columns df).

(** [df[c] = v]: an existing column is overwritten in place, a new one is
    appended. *)
Definition assign_constant (df : frame) (c : string) (v : Z) : frame :=
  let column := replicate (index_size df) v in
  if decide (c ∈ labels_of df) then
    {| index_size := index_size df;
       columns := map (λ nc, if decide (nc.1 = c) then (c, column) else nc)
                      (columns df) |}
  else
    {| index_size := index_size df;
       columns := columns df ++ [(c, column)] |}.

(** [df[cs]]: for each label of [cs] in turn, every column that carries
    it; a label that no column carries is a KeyError. *)
Definition columns_labelled (df : frame) (c : string)
    : outcome (list (string * list Z)) :=
  match filter (λ nc, nc.1 = c) (columns df) with
  | [] => Raise "KeyError"
  | found => Return found
  end.

Definition select (df : frame) (cs : list string) : outcome frame :=
  selected ← mapM (columns_labelled df) cs;
  mret {| index_size := index_size df; columns := concat selected |}.

(** A [for] loop whose body can raise. *)
Fixpoint for_each {A S} (body : S → A → outcome S) (xs : list A) (s : S)
    : outcome S :=
  match xs with
  | [] => Return s
  | x :: xs' => s' ← body s x; for_each body xs' s'
  end.

Section FixColumns.

(** The order in which Python iterates over a set of labels is not
    specified. *)
Variable iterate : gset string → list string.

(** The variables of [fix_columns] after its first loop: the test frame,
    and [train_df_missing_cols], bound only once the loop body has run. *)
Definition first_loop (input_train_df input_test_df : frame)
    : frame * option (gset string) :=
  let test_df_missing_cols : gset string :=
    list_to_set (labels_of input_train_df)
    ∖ list_to_set (labels_of input_test_df) in
  foldl (λ st c,
           let input_test_df := assign_constant st.1 c 0 in
           (input_test_df,
            Some (list_to_set (labels_of input_test_df)
                  ∖ list_to_set (labels_of input_train_df))))
        (input_test_df, None)
        (iterate test_df_missing_cols).

Definition fix_columns (input_train_df input_test_df : frame)
    : outcome (frame * frame) :=
  let '(input_test_df, bound) := first_loop input_train_df input_test_df in
  match bound with
  | None => Raise "UnboundLocalError"
  | Some train_df_missing_cols =>
      input_train_df ←
        for_each (λ input_train_df c,
                    select (assign_constant input_train_df c 0)
                           (labels_of input_test_df))
                 (iterate train_df_missing_cols) input_train_df;
      mret (input_train_df, input_test_df)
  end.

End FixColumns.

End Preprocessing.

(** ** Feeding the minibatches and recording the epochs *)

Module Training.

Import FairnessNotebook.

(** [xs[i]] for a Python list, and [df.iloc[...]] for one position:
    negative indices count from the end, others are an IndexError. *)
Definition py_index {A} (xs : list A) (i : Z) : outcome A :=
  let n := Z.of_nat (length xs) in
  let position :=
    if decide (0 ≤ i)%Z then Some (Z.to_nat i)
    else if decide (- n ≤ i)%Z then Some (Z.to_nat (n + i))
    else None in
  match position ≫= (λ p, xs !! p) with
  | Some x => Return x
  | None => Raise "IndexError"
  end.

(** [train_df.iloc[[permutation[ii] for ii in minibatch_indices]]] *)
Definition minibatch_rows {A} (train_df : list A) (permutation : list Z)
    (minibatch_indices : list Z) : outcome (list A) :=
  positions ← mapM (py_index permutation) minibatch_indices;
  mapM (py_index train_df) positions.

(** [df['predictions'] = values]: the column is replaced; values of
    another length than the frame are refused. *)
Definition set_predictions (df : DataFrame) (values : list Qc)
    : outcome DataFrame :=
  if decide (length values = length df) then
    Return (zip_with (λ r p, {| predictions := p;
                                label := label r;
                                protected := protected r |})
              df values)
  else Raise "ValueError".

(** What [training_helper] accumulates. *)
Record history := {
  train_error_rate_vector : list Qc;
  train_constraints_matrix : list (list Qc);
  test_error_rate_vector : list Qc;
  test_constraints_matrix : list (list Qc)
}.

(** The body of the loop of [training_helper] for one pair of predictions
    the generator yields; the frames are updated in place. *)
Definition record_epoch (tpr_max_diff : Qc)
    (st : DataFrame * DataFrame * history) (yielded : list Qc * list Qc)
    : outcome (DataFrame * DataFrame * history) :=
  let '(train_df, test_df, h) := st in
  train_df ← set_predictions train_df yielded.1;
  test_df ← set_predictions test_df yielded.2;
  train ← _get_error_rate_and_constraints train_df tpr_max_diff;
  test ← _get_error_rate_and_constraints test_df tpr_max_diff;
  mret (train_df, test_df,
        {| train_error_rate_vector := train_error_rate_vector h ++ [train.1];
           train_constraints_matrix :=
             train_constraints_matrix h ++ [train.2];
           test_error_rate_vector := test_error_rate_vector h ++ [test.1];
           test_constraints_matrix :=
             test_constraints_matrix h ++ [test.2] |}).

(** [training_helper], given what the generator yields, one pair of
    predictions after each outer pass. *)
Definition training_helper (yields : list (list Qc * list Qc))
    (train_df test_df : DataFrame) (tpr_max_diff : Qc) : outcome history :=
  st ← Preprocessing.for_each (record_epoch tpr_max_diff) yields
         (train_df, test_df,
          {| train_error_rate_vector := [];
             train_constraints_matrix := [];
             test_error_rate_vector := [];
             test_constraints_matrix := [] |});
  mret st.2.

(** The cells that print one iterate, the last ([index] is -1) or the
    best one: [errors[index]] and [max(violations[index])]. *)
Definition iterate_report (errors : list Qc) (violations : list (list Qc))
    (index : Z) : outcome (Qc * Qc) :=
  error ← py_index errors index;
  row ← py_index violations index;
  violation ← py_max row;
  mret (error, violation).

(** The m-stochastic cell, for one of the two frames. *)
Definition m_stochastic_report (cand_dist errors : list Qc)
    (violations : list (list Qc)) : outcome (Qc * Qc) :=
  expected ← _get_exp_error_rate_constraints cand_dist errors violations;
  violation ← py_max expected.2;
  mret (expected.1, violation).

End Training.

(** ** Vocabulary of the further statements *)

Module MoreStatements.

Import RecallNotebook FairnessNotebook.

(** The protected group [a] of the frame has a positively-labelled row. *)
Definition has_positive_member (a : protected_column) (df : DataFrame)
    : Prop :=
  ∃ r, r ∈ df ∧ dec 0.5 < label r ∧ dec 0.5 < protected r a.

(** The distribution that puts all the weight on snapshot [i] of [n]. *)
Definition one_hot (n i : nat) : list Qc := <[i := 1]> (replicate n 0).


(** Column [j] of a matrix given by its rows. *)
Definition column (j : nat) (rows : list (list Qc)) : list Qc :=
  map (λ r, default 0 (r !! j)) rows.

(** What one epoch contributes to the history when its predictions are
    written into the frames as they were handed to [training_helper]. *)
Definition epoch_metrics (train_df test_df : DataFrame) (tpr_max_diff : Qc)
    (yielded : list Qc * list Qc)
    : outcome ((Qc * list Qc) * (Qc * list Qc)) :=
  train_df ← Training.set_predictions train_df yielded.1;
  test_df ← Training.set_predictions test_df yielded.2;
  train ← _get_error_rate_and_constraints train_df tpr_max_diff;
  test ← _get_error_rate_and_constraints test_df tpr_max_diff;
  mret (train, test).

(** The history made of what the epochs contribute. *)
Definition history_of (rs : list ((Qc * list Qc) * (Qc * list Qc)))
    : Training.history := {|
  Training.train_error_rate_vector := map (λ r, r.1.1) rs;
  Training.train_constraints_matrix := map (λ r, r.1.2) rs;
  Training.test_error_rate_vector := map (λ r, r.2.1) rs;
  Training.test_constraints_matrix := map (λ r, r.2.2) rs
|}.

(** A frame once a column of zeros has been assigned for each of the
    labels [cs] in turn. *)
Definition filled (df : Preprocessing.frame) (cs : list string)
    : Preprocessing.frame :=
  foldl (λ df c, Preprocessing.assign_constant df c 0) df cs.

(** A frame of [n] rows with the given column labels, every entry one. *)
Definition frame_of (n : nat) (labels : list string) : Preprocessing.frame :=
  {| Preprocessing.index_size := n;
     Preprocessing.columns := map (λ c, (c, replicate n 1%Z)) labels |}.

(** Three positively-labelled rows, one woman and two men. *)
Definition gender_rows : DataFrame :=
  [make_row 1 1 1 0 1 0; make_row (-1) 1 0 1 1 0; make_row 1 1 0 1 0 1].

End MoreStatements.

Import MoreStatements.

(** * Properties *)

(** ** Numbers and calls *)

Lemma Qc_eq_Qeq (x y : Qc) : x = y ↔ (this x == this y)%Q.
Proof. split; [by intros -> | apply Qc_is_canon]. Qed.

Lemma of_nat_0 : of_nat 0 = 0.
Proof. by apply Qc_is_canon. Qed.

Lemma of_nat_le (a b : nat) : (a ≤ b)%nat → of_nat a ≤ of_nat b.
Proof.
  intros H. unfold of_nat, Qcle, Q2Qc. cbn [this].
  rewrite !Qred_correct, <- Zle_Qle. lia.
Qed.

Lemma of_nat_lt (a b : nat) : (a < b)%nat → of_nat a < of_nat b.
Proof.
  intros H. unfold of_nat, Qclt, Q2Qc. cbn [this].
  rewrite !Qred_correct, <- Zlt_Qlt. lia.
Qed.

Lemma of_nat_mult (a b : nat) : of_nat (a * b) = of_nat a * of_nat b.
Proof.
  apply Qc_is_canon. unfold of_nat, Qcmult, Q2Qc. cbn [this].
  rewrite !Qred_correct, Nat2Z.inj_mul, inject_Z_mult. reflexivity.
Qed.

Lemma of_nat_pos (n : nat) : (0 < n)%nat → 0 < of_nat n.
Proof. intros H. rewrite <- of_nat_0. by apply of_nat_lt. Qed.

Lemma of_nat_S_ne_0 (n : nat) : of_nat (S n) ≠ 0.
Proof.
  intros H. apply (Qclt_not_eq 0 (of_nat (S n))); [|done].
  apply of_nat_pos. lia.
Qed.

Lemma of_nat_eq_0 (n : nat) : of_nat n = 0 → n = 0%nat.
Proof. destruct n; [done|]. intros H. by apply of_nat_S_ne_0 in H. Qed.

(** Comparing two fractions with positive denominators. *)
Lemma Qcdiv_le_cross (a b c d : Qc) :
  0 < b → 0 < d → a * d ≤ c * b → a / b ≤ c / d.
Proof.
  intros Hb Hd H.
  apply Qcmult_lt_0_le_reg_r with (b * d).
  { rewrite <- (Qcmult_0_l d). by apply Qcmult_lt_compat_r. }
  replace (a / b * (b * d)) with (a * d).
  - replace (c / d * (b * d)) with (c * b); [done|].
    field. by apply not_eq_sym, Qclt_not_eq.
  - field. by apply not_eq_sym, Qclt_not_eq.
Qed.




(** Closed equations between numbers are settled by evaluation. *)
Lemma Return_by_evaluation (m : outcome Qc) (c : Qc) :
  match m with Return x => Qeq_bool x c | Raise _ => false end = true →
  m = Return c.
Proof.
  destruct m as [x|]; [|done]. intros H. f_equal.
  by apply Qc_is_canon, Qeq_bool_iff.
Qed.

Lemma list_by_evaluation (xs ys : list Qc) :
  Forall2 (λ x y : Qc, Qeq_bool x y = true) xs ys → xs = ys.
Proof.
  induction 1 as [|x y xs ys Hxy _ IH]; [done|]. f_equal; [|done].
  by apply Qc_is_canon, Qeq_bool_iff.
Qed.


Ltac qc_refl := apply Qc_is_canon; vm_compute; reflexivity.
Ltac pair_by_evaluation :=
  apply (f_equal Return), pair_equal_spec;
  split; [qc_refl | apply list_by_evaluation; by repeat constructor].
Ltac by_evaluation := apply Return_by_evaluation; vm_compute; reflexivity.

Lemma py_div_nonzero (x y : Qc) : y ≠ 0 → py_div x y = Return (x / y).
Proof. intros H. unfold py_div. by rewrite decide_False. Qed.

Lemma py_div_zero (x : Qc) : py_div x 0 = Raise "ZeroDivisionError".
Proof. unfold py_div. by rewrite decide_True. Qed.

Lemma broadcast_same_length {A B C} (f : A → B → C) xs ys :
  length xs = length ys → broadcast f xs ys = Return (zip_with f xs ys).
Proof. intros H. unfold broadcast. by rewrite decide_True. Qed.

Lemma count_true_cons {A} (p : A → bool) x xs :
  count_true p (x :: xs)
  = ((if p x then 1 else 0) + count_true p xs)%nat.
Proof.
  unfold count_true. rewrite filter_cons.
  destruct (p x);
    by (rewrite decide_True by done) || (rewrite decide_False by done).
Qed.

Lemma count_true_le_length {A} (p : A → bool) xs :
  (count_true p xs ≤ length xs)%nat.
Proof. unfold count_true. apply length_filter. Qed.

Lemma count_true_none {A} (p : A → bool) xs :
  Forall (λ x, p x = false) xs → count_true p xs = 0%nat.
Proof.
  induction 1 as [|x xs Hx _ IH]; [done|].
  rewrite count_true_cons, Hx, IH. done.
Qed.

Lemma np_sum_zeros (xs : list Qc) : Forall (λ x, x = 0) xs → np_sum xs = 0.
Proof.
  induction 1 as [|x xs -> _ IH]; [done|].
  cbn [np_sum foldr]. fold (np_sum xs). by rewrite IH, Qcplus_0_l.
Qed.

(** ** Best-index selection *)

Section BestIndex.

Import Candidates.

Lemma precedes_true a b :
  precedes a b = true ↔ (a.1 < b.1)%nat ∨ (a.1 = b.1 ∧ a.2 < b.2).
Proof.
  unfold precedes.
  rewrite orb_true_iff, andb_true_iff, !bool_decide_eq_true. tauto.
Qed.

Lemma precedes_score_le a b : precedes a b = true → score_le a b.
Proof.
  rewrite precedes_true. unfold score_le.
  intros [H|[H1 H2]]; [by left | right].
  split; [done | by apply Qclt_le_weak].
Qed.

Lemma not_precedes_score_le a b : precedes a b = false → score_le b a.
Proof.
  intros H. apply not_true_iff_false in H. rewrite precedes_true in H.
  unfold score_le.
  destruct (lt_eq_lt_dec a.1 b.1) as [[Hlt|Heq]|Hgt].
  - exfalso. apply H. by left.
  - right. split; [done|]. apply Qcnot_lt_le. intros Hlt. apply H. by right.
  - by left.
Qed.

Lemma score_le_trans a b c : score_le a b → score_le b c → score_le a c.
Proof.
  unfold score_le. intros [H1|[H1 H1']] [H2|[H2 H2']].
  - left. lia.
  - left. lia.
  - left. lia.
  - right. split; [lia|]. by apply Qcle_trans with b.2.
Qed.

(** The scan keeps a least score among those seen so far. *)
Lemma argmin_from_least (rest seen : list (nat * Qc)) best_index best :
  seen !! best_index = Some best →
  (∀ s, s ∈ seen → score_le best s) →
  ∃ least,
    (seen ++ rest) !! argmin_from (length seen) best_index best rest
    = Some least
    ∧ ∀ s, s ∈ seen ++ rest → score_le least s.
Proof.
  revert seen best_index best.
  induction rest as [|s rest IH]; intros seen best_index best Hbest Hleast.
  - exists best. rewrite app_nil_r. by split.
  - cbn [argmin_from].
    replace (seen ++ s :: rest) with ((seen ++ [s]) ++ rest)
      by (by rewrite <- app_assoc).
    replace (S (length seen)) with (length (seen ++ [s]))
      by (rewrite length_app; simpl; lia).
    destruct (precedes s best) eqn:Hs.
    + apply IH.
      * rewrite lookup_app_r by lia. by rewrite Nat.sub_diag.
      * intros x Hx. apply elem_of_app in Hx as [Hx|Hx].
        -- apply score_le_trans with best; [|by apply Hleast].
           by apply precedes_score_le.
        -- apply list_elem_of_singleton in Hx as ->. right. split; [done|].
           apply Qcle_refl.
    + apply IH.
      * rewrite lookup_app_l; [done|]. by apply lookup_lt_Some in Hbest.
      * intros x Hx. apply elem_of_app in Hx as [Hx|Hx].
        -- by apply Hleast.
        -- apply list_elem_of_singleton in Hx as ->.
           by apply not_precedes_score_le.
Qed.

Lemma scores_lookup errors violations j e row :
  errors !! j = Some e → violations !! j = Some row →
  scores errors violations !! j
  = Some (combined_rank errors violations e row, e).
Proof.
  intros He Hrow. unfold scores. rewrite lookup_zip_with, He. simpl.
  by rewrite Hrow.
Qed.

Lemma scores_lookup_inv errors violations j s :
  scores errors violations !! j = Some s →
  ∃ e row, errors !! j = Some e ∧ violations !! j = Some row
           ∧ s = (combined_rank errors violations e row, e).
Proof.
  unfold scores. rewrite lookup_zip_with.
  destruct (errors !! j) as [e|]; [|done]. simpl.
  destruct (violations !! j) as [row|]; [|done]. simpl.
  intros [= <-]. by exists e, row.
Qed.

Lemma find_best_candidate_index_least errors violations :
  errors ≠ [] → length errors = length violations →
  ∃ i e row,
    find_best_candidate_index errors violations = Some i
    ∧ errors !! i = Some e ∧ violations !! i = Some row
    ∧ ∀ j e' row',
        errors !! j = Some e' → violations !! j = Some row' →
        (combined_rank errors violations e row
         ≤ combined_rank errors violations e' row')%nat
        ∧ (combined_rank errors violations e row
           = combined_rank errors violations e' row' → e ≤ e').
Proof.
  intros Hne Hlen. unfold find_best_candidate_index.
  rewrite decide_True by done.
  destruct (scores errors violations) as [|s rest] eqn:Hscores.
  { destruct errors as [|e errors]; [done|].
    destruct violations as [|row violations]; [done|]. done. }
  destruct (argmin_from_least rest [s] 0 s) as (least & Hlookup & Hleast).
  { done. }
  { intros x Hx. apply list_elem_of_singleton in Hx as ->. right.
    split; [done | apply Qcle_refl]. }
  cbn [length app] in Hlookup, Hleast. rewrite <- Hscores in Hlookup, Hleast.
  destruct (scores_lookup_inv _ _ _ _ Hlookup) as (e & row & He & Hrow & ->).
  exists (argmin_from 1 0 s rest), e, row.
  split; [done|]. split; [done|]. split; [done|].
  intros j e' row' He' Hrow'.
  assert (score_le (combined_rank errors violations e row, e)
                   (combined_rank errors violations e' row', e')) as Hle.
  { apply Hleast. apply list_elem_of_lookup. exists j.
    by apply scores_lookup. }
  destruct Hle as [Hlt|[Heq Hle]]; simpl in *; split; try lia; try done.
Qed.

(** Ranks ascend with the value ranked. *)
Lemma rank_mono (values : list Qc) (x y : Qc) :
  x ≤ y → (rank values x ≤ rank values y)%nat.
Proof.
  intros Hxy. unfold rank. induction values as [|v values IH]; [done|].
  rewrite !count_true_cons.
  destruct (bool_decide (v < x)) eqn:Hv; [|lia].
  apply bool_decide_eq_true in Hv.
  rewrite bool_decide_eq_true_2 by (by apply Qclt_le_trans with x). lia.
Qed.

(** A snapshot that satisfies every constraint has the best violation
    rank. *)
Lemma worst_violation_nonneg row : 0 ≤ worst_violation row.
Proof.
  induction row as [|v row IH]; [apply Qcle_refl|].
  cbn [worst_violation foldr]. fold (worst_violation row).
  unfold maximum. destruct (decide (v ≤ worst_violation row)) as [|Hgt]; [done|].
  apply Qclt_le_weak, Qcle_lt_trans with (worst_violation row); [done|].
  by apply Qcnot_le_lt.
Qed.

Lemma worst_violation_feasible row :
  Forall (λ v, v ≤ 0) row → worst_violation row = 0.
Proof.
  induction 1 as [|v row Hv _ IH]; [done|].
  cbn [worst_violation foldr]. fold (worst_violation row). rewrite IH.
  unfold maximum. by rewrite decide_True.
Qed.

Lemma feasible_violation_rank violations row :
  Forall (λ v, v ≤ 0) row → violation_rank violations row = 0%nat.
Proof.
  intros Hrow. unfold violation_rank, rank.
  rewrite (worst_violation_feasible row Hrow).
  apply count_true_none, Forall_forall. intros x Hx.
  apply list_elem_of_In, in_map_iff in Hx as (r & <- & _).
  apply bool_decide_eq_false, Qcle_not_lt, worst_violation_nonneg.
Qed.

End BestIndex.

(** C1, as the specification states it, fails on its own example: the
    snapshot of index 0 is feasible and has combined rank 1, the snapshots
    of index 1 and 2 have combined rank 2, and index 0 is returned, not
    index 1. *)
Lemma find_best_candidate_index_example_is_not_1 :
  map fst (Candidates.scores example_errors example_violations)
  = [1; 2; 2]%nat
  ∧ Candidates.find_best_candidate_index example_errors example_violations
    = Some 0%nat
  ∧ Candidates.find_best_candidate_index example_errors example_violations
    ≠ Some 1%nat.
Proof. vm_compute. by repeat split. Qed.

(** C1 (amended). For every non-empty sequence of snapshots, given as an
    errors vector and a violations matrix with as many rows,
    [find_best_candidate_index] returns the index of a snapshot whose
    combined rank, the larger of its error rank and its violation rank, is
    least, and whose error is least among the snapshots of that combined
    rank; the ranks ascend with the error and with the worst-case
    violation, and snapshots whose constraints are all at most zero tie for
    the best violation rank. For the errors [0.1, 0.2, 0.05] and the violations
    [[0.0], [-0.01], [0.2]] the index returned is 0. *)
Theorem find_best_candidate_index_correct :
  (∀ errors violations,
     errors ≠ [] → length errors = length violations →
     ∃ i e row,
       Candidates.find_best_candidate_index errors violations = Some i
       ∧ errors !! i = Some e ∧ violations !! i = Some row
       ∧ ∀ j e' row',
           errors !! j = Some e' → violations !! j = Some row' →
           (Candidates.combined_rank errors violations e row
            ≤ Candidates.combined_rank errors violations e' row')%nat
           ∧ (Candidates.combined_rank errors violations e row
              = Candidates.combined_rank errors violations e' row' →
              e ≤ e'))
  ∧ (∀ errors e e',
       e ≤ e' →
       (Candidates.error_rank errors e ≤ Candidates.error_rank errors e')%nat)
  ∧ (∀ violations row row',
       Candidates.worst_violation row ≤ Candidates.worst_violation row' →
       (Candidates.violation_rank violations row
        ≤ Candidates.violation_rank violations row')%nat)
  ∧ (∀ violations row,
       Forall (λ v, v ≤ 0) row →
       Candidates.violation_rank violations row = 0%nat)
  ∧ Candidates.find_best_candidate_index example_errors example_violations
    = Some 0%nat.
Proof.
  split; [exact find_best_candidate_index_least|].
  split; [intros errors e e'; apply rank_mono|].
  split; [intros violations row row'; apply rank_mono|].
  split; [exact feasible_violation_rank|].
  by vm_compute.
Qed.

Lemma find_best_candidate_index_correct_witness :
  ∃ i,
    Candidates.find_best_candidate_index
      [dec 0.3; dec 0.1] [[dec 0.5; 0]; [0; dec (-0.2)]] = Some i
    ∧ i = 1%nat.
Proof.
  destruct (proj1 find_best_candidate_index_correct
              [dec 0.3; dec 0.1] [[dec 0.5; 0]; [0; dec (-0.2)]])
    as (i & e & row & Hi & _).
  - discriminate.
  - reflexivity.
  - exists i. split; [exact Hi|].
    vm_compute in Hi. by injection Hi as <-.
Defined.

(** ** Rates over an empty slice *)

Section EmptySlice.

Import RecallNotebook FairnessNotebook.

Lemma recall_no_positive labels predictions :
  length labels = length predictions →
  Forall (λ l, l = 0) labels →
  recall labels predictions = Return NaN.
Proof.
  intros Hlen Hzero. unfold recall.
  rewrite broadcast_same_length by done.
  change (Return (np_divide
            (np_sum (zip_with (λ l p, l * to_float (bool_decide (0 < p)))
                       labels predictions))
            (np_sum labels)) = Return NaN).
  f_equal. rewrite (np_sum_zeros labels) by done.
  rewrite np_sum_zeros.
  - unfold np_divide. by rewrite !decide_True.
  - clear Hlen. revert predictions.
    induction Hzero as [|l labels -> _ IH]; intros [|p predictions];
      try constructor.
    + apply Qcmult_0_l.
    + apply IH.
Qed.

Lemma positive_prediction_rate_empty_subset predictions subset :
  length predictions = length subset →
  Forall (λ s, ¬ 0 < s) subset →
  positive_prediction_rate predictions subset = Raise "ZeroDivisionError".
Proof.
  intros Hlen Hnone. unfold positive_prediction_rate.
  rewrite broadcast_same_length by (by rewrite !length_map).
  rewrite count_true_none.
  - rewrite of_nat_0. apply py_div_zero.
  - eapply Forall_impl; [exact Hnone|]. intros s Hs.
    by apply bool_decide_eq_false.
Qed.

Lemma tpr_no_positive df :
  Forall (λ r, ¬ dec 0.5 < label r) df →
  tpr df = Raise "ZeroDivisionError".
Proof.
  intros Hnone. unfold tpr.
  rewrite (count_true_none (λ r, bool_decide (dec 0.5 < label r))).
  - rewrite of_nat_0. apply py_div_zero.
  - eapply Forall_impl; [exact Hnone|]. intros r Hr.
    by apply bool_decide_eq_false.
Qed.

End EmptySlice.

(** C2, as the specification states it, fails for the recall of the
    simulated-data notebook: on two examples, none of them labelled
    positive, the call returns a value, NaN, and raises nothing. *)
Lemma recall_of_no_positives_returns :
  RecallNotebook.recall [0; 0] [1; -1] = Return NaN
  ∧ ¬ raises (RecallNotebook.recall [0; 0] [1; -1])
  ∧ RecallNotebook.recall [0; 0] [1; -1] ≠ Raise "DomainError".
Proof. vm_compute. by repeat split. Qed.

(** C2 (amended). In the fairness notebook a rate whose denominator slice
    matches no example does not return: [positive_prediction_rate] over a
    subset without members, [tpr] over rows without positive label and
    [error_rate] over no rows end in Python's ZeroDivisionError (there is
    no DomainError). The [recall] of the simulated-data notebook divides
    as numpy does: without a positively-labelled example it returns NaN. *)
Theorem empty_slice_rates :
  (∀ predictions subset,
     length predictions = length subset →
     Forall (λ s, ¬ 0 < s) subset →
     FairnessNotebook.positive_prediction_rate predictions subset
     = Raise "ZeroDivisionError")
  ∧ (∀ df,
       Forall (λ r, ¬ dec 0.5 < FairnessNotebook.label r) df →
       FairnessNotebook.tpr df = Raise "ZeroDivisionError")
  ∧ FairnessNotebook.error_rate [] [] = Raise "ZeroDivisionError"
  ∧ (∀ labels predictions,
       length labels = length predictions →
       Forall (λ l, l = 0) labels →
       RecallNotebook.recall labels predictions = Return NaN).
Proof.
  split; [exact positive_prediction_rate_empty_subset|].
  split; [exact tpr_no_positive|].
  split; [by vm_compute|].
  exact recall_no_positive.
Qed.

Lemma empty_slice_rates_witness :
  FairnessNotebook.positive_prediction_rate [1; -1] [0; 0]
  = Raise "ZeroDivisionError"
  ∧ FairnessNotebook.tpr [make_row 1 0 1 1 1 1] = Raise "ZeroDivisionError"
  ∧ RecallNotebook.recall [0; 0; 0] [1; -1; 0] = Return NaN.
Proof.
  destruct empty_slice_rates as (Hrate & Htpr & _ & Hrecall).
  split; [|split].
  - apply Hrate; [reflexivity|].
    repeat constructor; by vm_compute.
  - apply Htpr. repeat constructor. by vm_compute.
  - apply Hrecall; [reflexivity|]. by repeat constructor.
Defined.

(** ** The recorded run *)

(** On the one run the notebooks record, the printed distribution has two
    nonzero weights for four constraints and sums to one, its error and
    its largest violation are below those of the average of all epochs,
    and the constrained recall is within 0.02 of the bound and above the
    unconstrained one. *)
Lemma recorded_outputs :
  length RecordedRun.cand_dist = 40%nat
  ∧ nonzeros RecordedRun.cand_dist = 2%nat
  ∧ length FairnessNotebook.PROTECTED_COLUMNS = 4%nat
  ∧ np_sum RecordedRun.cand_dist = 1
  ∧ RecordedRun.m_stochastic_error ≤ RecordedRun.t_stochastic_error
  ∧ RecordedRun.m_stochastic_violation ≤ RecordedRun.t_stochastic_violation
  ∧ RecallNotebook.recall_lower_bound - dec 0.02
    ≤ RecordedRun.constrained_recall
  ∧ RecordedRun.constrained_recall
    ≤ RecallNotebook.recall_lower_bound + dec 0.02
  ∧ RecordedRun.unconstrained_recall < RecordedRun.constrained_recall.
Proof.
  split; [done|]. split; [by vm_compute|]. split; [done|].
  split; [qc_refl|]. repeat split; by vm_compute.
Qed.

(** ** The simulated data *)

(** The data-generation cell flips the labels of 200 of its 1000 examples,
    one in five. *)
Lemma label_noise_is_one_in_five :
  (RecallNotebook.num_mislabeled_examples * 5
   = RecallNotebook.num_examples)%Z.
Proof. reflexivity. Qed.

(** ** The sign of a constraint [rate >= bound] *)

Section ConstraintSign.

Import RecallNotebook FairnessNotebook.

(** The constraint tensor of the hand-written problem is the bound minus
    the recall that the metric of the evaluation cell computes. *)
Lemma ExampleProblem_constraints_recall (self : ExampleProblem) :
  ExampleProblem_constraints self
  = (r ← recall (_labels self) (_predictions self);
     mret [float_sub (Finite (_recall_lower_bound self)) r]).
Proof.
  unfold ExampleProblem_constraints, recall, _positive_count.
  by destruct (broadcast _ (_labels self) (_predictions self)).
Qed.

Lemma get_error_rate_and_constraints_values
    (df : DataFrame) (tpr_max_diff e t : Qc) (g : protected_column → Qc) :
  error_rate (map predictions df) (map label df) = Return e →
  tpr df = Return t →
  (∀ a, tpr (group a df) = Return (g a)) →
  _get_error_rate_and_constraints df tpr_max_diff
  = Return (e, map (λ a, (t - tpr_max_diff) - g a) PROTECTED_COLUMNS).
Proof.
  intros He Ht Hg. unfold _get_error_rate_and_constraints.
  rewrite He, Ht. cbn [mbind outcome_bind bind].
  unfold PROTECTED_COLUMNS. cbn [mapM].
  rewrite !Hg. reflexivity.
Qed.

End ConstraintSign.

(** C3. A constraint [rate >= bound] is exposed as the bound minus the
    rate. [ExampleProblem.constraints] is [recall_lower_bound - recall], the
    recall being the one the notebook's metric computes from the same
    labels and predictions (and it fails exactly when that metric fails);
    whenever the rates of the fairness notebook are defined, the
    violations [_get_error_rate_and_constraints] returns are, column by
    column of the protected groups, [(overall_tpr - tpr_max_diff) -
    tpr(group)], next to the error rate. A value at most zero means that
    the rate reaches the bound. *)
Theorem constraint_is_bound_minus_rate :
  (∀ self : RecallNotebook.ExampleProblem,
     RecallNotebook.ExampleProblem_constraints self
     = (r ← RecallNotebook.recall (RecallNotebook._labels self)
              (RecallNotebook._predictions self);
        mret [float_sub (Finite (RecallNotebook._recall_lower_bound self))
                r]))
  ∧ (∀ bound rate : Qc,
       float_sub (Finite bound) (Finite rate) = Finite (bound - rate)
       ∧ (bound - rate ≤ 0 ↔ bound ≤ rate))
  ∧ (∀ (df : FairnessNotebook.DataFrame) (tpr_max_diff e t : Qc)
       (g : FairnessNotebook.protected_column → Qc),
       FairnessNotebook.error_rate
         (map FairnessNotebook.predictions df)
         (map FairnessNotebook.label df) = Return e →
       FairnessNotebook.tpr df = Return t →
       (∀ a, FairnessNotebook.tpr (FairnessNotebook.group a df)
             = Return (g a)) →
       FairnessNotebook._get_error_rate_and_constraints df tpr_max_diff
       = Return (e, map (λ a, (t - tpr_max_diff) - g a)
                      FairnessNotebook.PROTECTED_COLUMNS)).
Proof.
  split; [exact ExampleProblem_constraints_recall|].
  split; [|exact get_error_rate_and_constraints_values].
  intros bound rate. split; [done|].
  rewrite (Qcle_minus_iff bound rate).
  split; intros H.
  - apply Qcopp_le_compat in H.
    replace (- (bound - rate)) with (rate + - bound) in H by ring.
    by replace (- 0) with 0 in H by ring.
  - apply Qcopp_le_compat in H.
    replace (- (rate + - bound)) with (bound - rate) in H by ring.
    by replace (- 0) with 0 in H by ring.
Qed.

Lemma constraint_is_bound_minus_rate_witness :
  FairnessNotebook._get_error_rate_and_constraints two_rows (dec 0.05)
  = Return (dec 0.5, [dec (-0.05); dec (-0.55); dec (-0.55); dec (-0.55)]).
Proof.
  destruct constraint_is_bound_minus_rate as (_ & _ & Hfair).
  rewrite (Hfair two_rows (dec 0.05) (dec 0.5) (dec 0.5)
             (λ a, match a with
                   | FairnessNotebook.gender_Female => dec 0.5
                   | _ => 1
                   end)).
  - unfold FairnessNotebook.PROTECTED_COLUMNS. cbn [map].
    pair_by_evaluation.
  - by_evaluation.
  - by_evaluation.
  - intros []; by_evaluation.
Defined.

(** ** The best distribution and the uniform one *)

Section BestDistribution.

Import FairnessNotebook Candidates.

Ltac qc_to_q :=
  repeat match goal with
  | H : @eq Qc _ _ |- _ => apply Qc_eq_Qeq in H
  | |- @eq Qc _ _ => apply Qc_eq_Qeq
  end;
  unfold Qcle, Qclt, Qcdiv, Qcminus, Qcplus, Qcopp, Qcmult, Qcinv, Q2Qc in *;
  cbn [this] in *;
  rewrite ?Qred_correct in *.

Lemma of_nat_S (n : nat) : of_nat (S n) = 1 + of_nat n.
Proof.
  apply Qc_is_canon. unfold of_nat, Qcplus, Q2Qc. cbn [this].
  rewrite !Qred_correct, Nat2Z.inj_succ, <- Z.add_1_l, inject_Z_plus.
  reflexivity.
Qed.

Lemma np_sum_cons x xs : np_sum (x :: xs) = x + np_sum xs.
Proof. done. Qed.

Lemma np_sum_replicate (n : nat) (c : Qc) :
  np_sum (replicate n c) = of_nat n * c.
Proof.
  induction n as [|n IH]; simpl replicate.
  - rewrite of_nat_0. cbn [np_sum foldr]. ring.
  - rewrite np_sum_cons, IH, of_nat_S. ring.
Qed.

Lemma np_sum_scaled (c : Qc) (xs : list Qc) :
  np_sum (zip_with Qcmult (replicate (length xs) c) xs) = c * np_sum xs.
Proof.
  induction xs as [|x xs IH]; cbn [length replicate zip_with].
  - cbn [np_sum foldr]. ring.
  - rewrite !np_sum_cons, IH. ring.
Qed.

Lemma zip_with_plus_scaled (c : Qc) (r s : list Qc) :
  zip_with Qcplus (map (Qcmult c) r) (map (Qcmult c) s)
  = map (Qcmult c) (zip_with Qcplus r s).
Proof.
  revert s. induction r as [|x r IH]; intros [|y s]; cbn; try done.
  rewrite IH. f_equal. ring.
Qed.

Lemma vec_matmul_replicate (c : Qc) (rows : list (list Qc)) :
  vec_matmul (replicate (length rows) c) rows
  = map (Qcmult c) (column_sums rows).
Proof.
  induction rows as [|r rows IH]; [done|].
  cbn [length replicate vec_matmul column_sums].
  destruct rows as [|r' rows]; [done|].
  by rewrite IH, zip_with_plus_scaled.
Qed.

(** Under the uniform distribution the expectations are the means of the
    T-stochastic cell. *)
Lemma uniform_expectations errors violations p e vs :
  errors ≠ [] →
  _get_exp_error_rate_constraints p errors violations = Return (e, vs) →
  _get_exp_error_rate_constraints (uniform (length errors)) errors violations
  = Return (np_sum errors / of_nat (length errors),
            np_mean_axis0 violations).
Proof.
  intros Hne. unfold _get_exp_error_rate_constraints, np_dot, np_matmul.
  destruct (decide (length p = length errors)) as [Hp|]; [|done].
  cbn [mbind outcome_bind bind].
  destruct (decide (length p = length violations)) as [Hv|]; [|done].
  intros Hret.
  assert (length violations = length errors) as Hlen by congruence.
  unfold uniform. rewrite length_replicate.
  rewrite !decide_True by done. cbn [mbind outcome_bind bind].
  rewrite np_sum_scaled.
  assert (0 < length errors)%nat as Hpos by (destruct errors; [done|simpl; lia]).
  assert (of_nat (length errors) ≠ 0) as Hn
    by (by apply not_eq_sym, Qclt_not_eq, of_nat_pos).
  destruct violations as [|r rows] eqn:Hrows.
  { simpl in Hlen. lia. }
  destruct (decide (Forall (λ r', length r' = length r) (r :: rows)));
    [|done].
  cbn [mbind outcome_bind bind mret outcome_ret]. rewrite <- Hrows in *.
  rewrite <- Hlen in Hn |- *. rewrite vec_matmul_replicate.
  unfold np_mean_axis0. do 2 f_equal.
  - by field.
  - apply map_ext. intros s. by field.
Qed.

Lemma uniform_is_distribution (n : nat) :
  (0 < n)%nat → is_distribution n (uniform n).
Proof.
  intros Hn. unfold is_distribution, uniform.
  assert (0 < of_nat n) as Hpos by (by apply of_nat_pos).
  split; [apply length_replicate|]. split.
  - apply Forall_replicate.
    apply Qcmult_lt_0_le_reg_r with (of_nat n); [done|].
    replace (1 / of_nat n * of_nat n) with 1
      by (field; by apply not_eq_sym, Qclt_not_eq).
    rewrite Qcmult_0_l. by apply Qclt_le_weak.
  - rewrite np_sum_replicate. field. by apply not_eq_sym, Qclt_not_eq.
Qed.

Lemma get_exp_expected_error p errors violations e vs :
  _get_exp_error_rate_constraints p errors violations = Return (e, vs) →
  e = expected_error errors p.
Proof.
  unfold _get_exp_error_rate_constraints, np_dot, expected_error.
  destruct (decide (length p = length errors)); [|done].
  cbn [mbind outcome_bind bind].
  destruct (np_matmul p violations); [|done].
  by intros [= <- _].
Qed.

Lemma py_max_elem (xs : list Qc) (w : Qc) :
  py_max xs = Return w → w ∈ xs.
Proof.
  destruct xs as [|x xs]; [done|]. cbn [py_max]. intros [= <-].
  revert x. induction xs as [|y xs IH]; intros x; cbn [foldl].
  - apply list_elem_of_here.
  - specialize (IH (maximum x y)).
    apply elem_of_cons in IH as [->|IH].
    + unfold maximum. destruct (decide (x ≤ y)).
      * apply list_elem_of_further, list_elem_of_here.
      * apply list_elem_of_here.
    + by do 2 apply list_elem_of_further.
Qed.

Lemma best_distribution_and_uniform errors violations p e vs :
  best_candidate_distribution errors violations p →
  _get_exp_error_rate_constraints p errors violations = Return (e, vs) →
  Forall (λ v, v ≤ 0) vs
  ∧ (Forall (λ v, v ≤ 0) (np_mean_axis0 violations) →
     ∀ mean_error, np_mean errors = Finite mean_error → e ≤ mean_error)
  ∧ (∀ worst worst_mean,
       py_max vs = Return worst →
       py_max (np_mean_axis0 violations) = Return worst_mean →
       0 ≤ worst_mean → worst ≤ worst_mean).
Proof.
  intros (Hdist & Hfeas & Hbest) Hexp.
  assert (Forall (λ v, v ≤ 0) vs) as Hvs.
  { destruct Hfeas as (e0 & vs0 & Hexp0 & Hvs0).
    rewrite Hexp in Hexp0. by injection Hexp0 as _ ->. }
  assert (errors ≠ []) as Hne.
  { intros ->. destruct Hdist as (Hlen & _ & Hsum).
    apply nil_length_inv in Hlen as ->. by cbn in Hsum. }
  split; [done|]. split.
  - intros Hmeans mean_error Hmean.
    pose proof (uniform_expectations _ _ _ _ _ Hne Hexp) as Huni.
    assert (0 < length errors)%nat as Hpos
      by (destruct errors; [done|simpl; lia]).
    rewrite (get_exp_expected_error _ _ _ _ _ Hexp).
    etrans.
    { apply (Hbest (uniform (length errors))).
      - by apply uniform_is_distribution.
      - eexists _, _. split; [exact Huni | done]. }
    rewrite <- (get_exp_expected_error _ _ _ _ _ Huni).
    unfold np_mean, np_divide in Hmean.
    rewrite decide_False in Hmean
      by (by apply not_eq_sym, Qclt_not_eq, of_nat_pos).
    injection Hmean as <-. apply Qcle_refl.
  - intros worst worst_mean Hworst _ Hnonneg.
    apply Qcle_trans with 0; [|done].
    apply py_max_elem in Hworst.
    by apply (proj1 (Forall_forall _ _) Hvs).
Qed.

Lemma get_exp_two_by_one (a b e1 e2 v1 v2 : Qc) :
  _get_exp_error_rate_constraints [a; b] [e1; e2] [[v1]; [v2]]
  = Return (a * e1 + (b * e2 + 0), [a * v1 + b * v2]).
Proof.
  unfold _get_exp_error_rate_constraints, np_dot, np_matmul.
  rewrite !decide_True by (done || by repeat constructor).
  reflexivity.
Qed.

Lemma distribution_of_two (p : list Qc) :
  is_distribution 2 p →
  ∃ a b, p = [a; b] ∧ 0 ≤ a ∧ 0 ≤ b ∧ a + (b + 0) = 1.
Proof.
  intros (Hlen & Hpos & Hsum).
  destruct p as [|a [|b [|c p]]]; try done.
  exists a, b. split; [done|].
  apply Forall_cons in Hpos as [Ha Hpos].
  by apply Forall_cons in Hpos as [Hb _].
Qed.

Lemma feasible_two_by_one (a b e1 e2 v1 v2 : Qc) :
  feasible_in_expectation [e1; e2] [[v1]; [v2]] [a; b] ↔ a * v1 + b * v2 ≤ 0.
Proof.
  unfold feasible_in_expectation. rewrite get_exp_two_by_one. split.
  - intros (e & vs & [= <- <-] & Hvs). by apply Forall_cons in Hvs as [? _].
  - intros H. eexists _, _. split; [done|]. by repeat constructor.
Qed.

Lemma tradeoff_best_is_best :
  best_candidate_distribution tradeoff_errors tradeoff_violations
    tradeoff_best.
Proof.
  split; [|split].
  - split; [done|]. split; [|qc_refl]. repeat constructor; by vm_compute.
  - apply feasible_two_by_one. by vm_compute.
  - intros q Hq Hfeas.
    apply distribution_of_two in Hq as (a & b & -> & Ha & Hb & Hsum).
    apply feasible_two_by_one in Hfeas.
    unfold expected_error, tradeoff_errors, tradeoff_best.
    cbn [zip_with np_sum foldr]. unfold dec in *. qc_to_q. lra.
Qed.

Lemma tradeoff_best_unique p :
  best_candidate_distribution tradeoff_errors tradeoff_violations p →
  p = tradeoff_best.
Proof.
  intros (Hdist & Hfeas & Hbest).
  specialize (Hbest tradeoff_best).
  destruct tradeoff_best_is_best as (Hd & Hf & _).
  specialize (Hbest Hd Hf). clear Hd Hf.
  apply distribution_of_two in Hdist as (a & b & -> & Ha & Hb & Hsum).
  apply feasible_two_by_one in Hfeas.
  unfold expected_error, tradeoff_errors, tradeoff_best in *.
  cbn [zip_with np_sum foldr] in Hbest. unfold dec in *.
  f_equal; [|f_equal]; qc_to_q; lra.
Qed.

Lemma slack_best_is_best :
  best_candidate_distribution slack_errors slack_violations slack_best.
Proof.
  split; [|split].
  - split; [done|]. split; [|qc_refl]. repeat constructor; by vm_compute.
  - apply feasible_two_by_one. by vm_compute.
  - intros q Hq Hfeas.
    apply distribution_of_two in Hq as (a & b & -> & Ha & Hb & Hsum).
    unfold expected_error, slack_errors, slack_best.
    cbn [zip_with np_sum foldr]. qc_to_q. lra.
Qed.

Lemma slack_best_unique p :
  best_candidate_distribution slack_errors slack_violations p →
  p = slack_best.
Proof.
  intros (Hdist & Hfeas & Hbest).
  specialize (Hbest slack_best).
  destruct slack_best_is_best as (Hd & Hf & _).
  specialize (Hbest Hd Hf). clear Hd Hf.
  apply distribution_of_two in Hdist as (a & b & -> & Ha & Hb & Hsum).
  unfold expected_error, slack_errors, slack_best in *.
  cbn [zip_with np_sum foldr] in Hbest.
  f_equal; [|f_equal]; qc_to_q; lra.
Qed.

Lemma distribution_of_three (p : list Qc) :
  is_distribution 3 p → ∃ a b c, p = [a; b; c].
Proof.
  intros (Hlen & _ & _).
  destruct p as [|a [|b [|c [|d p]]]]; try done. by exists a, b, c.
Qed.

Lemma tied_best (p : list Qc) :
  is_distribution 3 p →
  best_candidate_distribution tied_errors tied_violations p.
Proof.
  intros Hp. split; [done|]. split.
  - destruct (distribution_of_three p Hp) as (a & b & c & ->).
    unfold feasible_in_expectation, tied_errors, tied_violations.
    unfold _get_exp_error_rate_constraints, np_dot, np_matmul.
    rewrite !decide_True by (done || by repeat constructor).
    eexists _, _. split; [reflexivity|].
    repeat constructor. rewrite !Qcmult_0_r, !Qcplus_0_r. apply Qcle_refl.
  - intros q Hq.
    destruct (distribution_of_three p Hp) as (a & b & c & ->).
    destruct (distribution_of_three q Hq) as (a' & b' & c' & ->).
    intros _. unfold expected_error, tied_errors.
    cbn [zip_with np_sum foldr]. rewrite !Qcmult_0_r. apply Qcle_refl.
Qed.

(** The description of the best distribution does not single one out when
    snapshots tie: with three snapshots alike and one constraint it fits
    the uniform distribution, of three nonzero entries, as well as a single
    snapshot. *)
Lemma best_distribution_not_unique :
  best_candidate_distribution tied_errors tied_violations (uniform 3)
  ∧ nonzeros (uniform 3) = 3%nat
  ∧ best_candidate_distribution tied_errors tied_violations [1; 0; 0]
  ∧ nonzeros [1; 0; 0] = 1%nat.
Proof.
  split; [|split; [by vm_compute|split; [|by vm_compute]]].
  - apply tied_best, uniform_is_distribution. lia.
  - apply tied_best. split; [done|]. split; [|qc_refl].
    repeat constructor; by vm_compute.
Qed.

Lemma tradeoff_expectations :
  _get_exp_error_rate_constraints
    tradeoff_best tradeoff_errors tradeoff_violations
  = Return (dec (2 # 3), [0]).
Proof.
  unfold tradeoff_best, tradeoff_errors, tradeoff_violations.
  rewrite get_exp_two_by_one. pair_by_evaluation.
Qed.

Lemma slack_expectations :
  _get_exp_error_rate_constraints slack_best slack_errors slack_violations
  = Return (0, [0]).
Proof.
  unfold slack_best, slack_errors, slack_violations.
  rewrite get_exp_two_by_one. pair_by_evaluation.
Qed.

Lemma np_mean_two (a b : Qc) : np_mean [a; b] = Finite ((a + (b + 0)) / 2).
Proof.
  unfold np_mean, np_divide. rewrite decide_False by (by vm_compute).
  cbn [np_sum foldr length].
  by replace (of_nat 2) with (1 + 1 : Qc) by qc_refl.
Qed.

End BestDistribution.

(** C5, as the specification states it, fails. With the first pair of
    snapshots every distribution that is feasible in expectation puts at
    least two thirds of its weight on the snapshot that errs: the best one
    has expected error 2/3, above the mean error 1/2 of the uniform
    distribution. With the second pair the best distribution is the first
    snapshot alone, whose expected violation 0 is above the mean
    violation -1/2. In both cases no other distribution fits the
    description of the result. *)
Lemma best_distribution_worse_than_uniform :
  (Candidates.best_candidate_distribution
     tradeoff_errors tradeoff_violations tradeoff_best
   ∧ (∀ p, Candidates.best_candidate_distribution
             tradeoff_errors tradeoff_violations p → p = tradeoff_best)
   ∧ FairnessNotebook._get_exp_error_rate_constraints
       tradeoff_best tradeoff_errors tradeoff_violations
     = Return (dec (2 # 3), [0])
   ∧ np_mean tradeoff_errors = Finite (dec 0.5)
   ∧ ¬ dec (2 # 3) ≤ dec 0.5)
  ∧ (Candidates.best_candidate_distribution
       slack_errors slack_violations slack_best
     ∧ (∀ p, Candidates.best_candidate_distribution
               slack_errors slack_violations p → p = slack_best)
     ∧ FairnessNotebook._get_exp_error_rate_constraints
         slack_best slack_errors slack_violations
       = Return (0, [0])
     ∧ FairnessNotebook.py_max [0] = Return 0
     ∧ FairnessNotebook.np_mean_axis0 slack_violations = [dec (-0.5)]
     ∧ FairnessNotebook.py_max [dec (-0.5)] = Return (dec (-0.5))
     ∧ ¬ 0 ≤ dec (-0.5)).
Proof.
  split.
  - split; [exact tradeoff_best_is_best|].
    split; [exact tradeoff_best_unique|].
    split; [exact tradeoff_expectations|].
    split; [|by vm_compute].
    unfold tradeoff_errors. rewrite np_mean_two. f_equal. qc_refl.
  - split; [exact slack_best_is_best|].
    split; [exact slack_best_unique|].
    split; [exact slack_expectations|].
    split; [done|].
    split; [|split; [done | by vm_compute]].
    apply list_by_evaluation. by repeat constructor.
Qed.

(** C5 (amended). A distribution over the snapshots that is feasible in
    expectation and minimizes the expected error among such distributions,
    the expectations being those [_get_exp_error_rate_constraints]
    computes, has every expected violation at most zero. Its expected
    error is at most the mean of the errors vector whenever the uniform
    distribution is itself feasible in expectation, that is whenever the
    column-wise means of the violations matrix are all at most zero; and
    the largest of its expected violations is at most the largest of the
    column-wise means whenever the latter is not negative. *)
Theorem best_distribution_dominates_feasible_uniform
    (errors : list Qc) (violations : list (list Qc)) (p : list Qc)
    (e : Qc) (vs : list Qc) :
  Candidates.best_candidate_distribution errors violations p →
  FairnessNotebook._get_exp_error_rate_constraints p errors violations
  = Return (e, vs) →
  Forall (λ v, v ≤ 0) vs
  ∧ (Forall (λ v, v ≤ 0) (FairnessNotebook.np_mean_axis0 violations) →
     ∀ mean_error, np_mean errors = Finite mean_error → e ≤ mean_error)
  ∧ (∀ worst worst_mean,
       FairnessNotebook.py_max vs = Return worst →
       FairnessNotebook.py_max (FairnessNotebook.np_mean_axis0 violations)
       = Return worst_mean →
       0 ≤ worst_mean → worst ≤ worst_mean).
Proof. exact (best_distribution_and_uniform errors violations p e vs). Qed.

Lemma best_distribution_dominates_feasible_uniform_witness :
  Forall (λ v : Qc, v ≤ 0) [0] ∧ 0 ≤ dec 0.5.
Proof.
  destruct (best_distribution_dominates_feasible_uniform
              slack_errors slack_violations slack_best 0 [0])
    as (Hvs & Herr & _).
  - exact slack_best_is_best.
  - exact slack_expectations.
  - split; [exact Hvs|]. apply Herr.
    + repeat constructor. by vm_compute.
    + unfold slack_errors. rewrite np_mean_two. f_equal. qc_refl.
Defined.

(** ** The two constraint vectors of a problem *)

Section ProblemVectors.

Import RecallNotebook.





End ProblemVectors.

(** ** A prediction of exactly zero *)

Section DecisionBoundary.

Import RecallNotebook FairnessNotebook.










End DecisionBoundary.

(** ** The minibatch loop terminates and wraps around *)

Section Minibatch.

Import FairnessNotebook.

Variables num_rows minibatch_size : Z.
Hypothesis rows_positive : (1 ≤ num_rows)%Z.
Hypothesis size_positive : (1 ≤ minibatch_size)%Z.
Hypothesis size_clamped : (minibatch_size ≤ num_rows)%Z.

Local Abbreviation wrapped := (wrapped num_rows minibatch_size).

Lemma length_range a b : length (range a b) = Z.to_nat (b - a).
Proof. unfold range. by rewrite length_map, length_seq. Qed.

Lemma range_mod a b :
  (0 ≤ a)%Z → (b ≤ num_rows)%Z →
  range a b = map (λ k, ((a + Z.of_nat k) `mod` num_rows)%Z)
                  (seq 0 (Z.to_nat (b - a))).
Proof.
  intros Ha Hb. unfold range. apply map_ext_in. intros k Hk.
  apply in_seq in Hk. rewrite Z.mod_small; lia.
Qed.

Lemma map_seq_from {A} (f : nat → A) (a n : nat) :
  map f (seq a n) = map (λ i, f (a + i)%nat) (seq 0 n).
Proof.
  rewrite <- (Nat.add_0_r a) at 1. generalize 0%nat as b.
  induction n as [|n IH]; intros b; [done|].
  cbn [seq map]. f_equal. rewrite <- IH. do 2 f_equal. lia.
Qed.

Lemma wrapped_split (start : Z) (k : nat) :
  (k ≤ Z.to_nat minibatch_size)%nat →
  wrapped start
  = map (λ i, ((start + Z.of_nat i) `mod` num_rows)%Z) (seq 0 k)
    ++ map (λ i, ((start + Z.of_nat k + Z.of_nat i) `mod` num_rows)%Z)
           (seq 0 (Z.to_nat minibatch_size - k)).
Proof.
  intros Hk. unfold Statements.wrapped.
  replace (Z.to_nat minibatch_size)
    with (k + (Z.to_nat minibatch_size - k))%nat at 1 by lia.
  rewrite seq_app, map_app. f_equal.
  rewrite (map_seq_from _ (0 + k)).
  apply map_ext. intros i. f_equal. lia.
Qed.

Lemma wrapped_valid start :
  Forall (λ i, (0 ≤ i < num_rows)%Z) (wrapped start).
Proof.
  unfold Statements.wrapped. apply Forall_forall. intros i Hi.
  apply list_elem_of_In, in_map_iff in Hi. destruct Hi as (k & <- & _).
  apply Z.mod_pos_bound. lia.
Qed.

Lemma length_wrapped start :
  length (wrapped start) = Z.to_nat minibatch_size.
Proof. unfold Statements.wrapped. by rewrite length_map, length_seq. Qed.

Lemma while_loop_done fuel st :
  ¬ (len st < minibatch_size)%Z →
  while_loop fuel num_rows minibatch_size st = Some st.
Proof. intros H. destruct fuel; simpl; by rewrite decide_False. Qed.

Lemma while_loop_step fuel st :
  (len st < minibatch_size)%Z →
  while_loop (S fuel) num_rows minibatch_size st
  = while_loop fuel num_rows minibatch_size
      (while_body num_rows minibatch_size st).
Proof. intros H. simpl. by rewrite decide_True. Qed.

Lemma while_body_wrap st :
  (minibatch_start_index st + minibatch_size - len st >= num_rows)%Z →
  while_body num_rows minibatch_size st
  = {| minibatch_indices :=
         minibatch_indices st ++ range (minibatch_start_index st) num_rows;
       minibatch_start_index := 0 |}.
Proof. intros H. unfold while_body. by rewrite decide_True. Qed.

Lemma while_body_fit st :
  ¬ (minibatch_start_index st + minibatch_size - len st >= num_rows)%Z →
  while_body num_rows minibatch_size st
  = {| minibatch_indices :=
         minibatch_indices st
           ++ range (minibatch_start_index st)
                (minibatch_start_index st + minibatch_size - len st);
       minibatch_start_index :=
         (minibatch_start_index st + minibatch_size - len st)%Z |}.
Proof. intros H. unfold while_body. by rewrite decide_False. Qed.

(** The loop returns after at most two passes. *)
Lemma collect_minibatch_spec (start : Z) (fuel : nat) :
  (0 ≤ start < num_rows)%Z → (2 ≤ fuel)%nat →
  collect_minibatch fuel num_rows minibatch_size start
  = Some {| minibatch_indices := wrapped start;
            minibatch_start_index :=
              ((start + minibatch_size) `mod` num_rows)%Z |}.
Proof.
  intros Hstart Hfuel.
  destruct fuel as [|[|fuel]]; [lia | lia |].
  unfold collect_minibatch.
  rewrite while_loop_step by (unfold len; simpl; lia).
  destruct (decide (start + minibatch_size >= num_rows)%Z) as [Hwrap|Hfit].
  - (* the end of the data is reached: the tail is taken, the index wraps *)
    rewrite while_body_wrap by (unfold len; simpl; lia).
    cbn [app minibatch_indices minibatch_start_index].
    destruct (decide (start + minibatch_size = num_rows)%Z) as [Heq|Hne].
    + rewrite while_loop_done
        by (unfold len; simpl; rewrite length_range; lia).
      f_equal. f_equal.
      * rewrite (wrapped_split start (Z.to_nat minibatch_size)) by lia.
        rewrite Nat.sub_diag. cbn [seq map]. rewrite app_nil_r.
        rewrite (range_mod start num_rows) by lia.
        do 2 f_equal. lia.
      * rewrite Heq, Z.mod_same; lia.
    + rewrite while_loop_step
        by (unfold len; simpl; rewrite length_range; lia).
      rewrite while_body_fit
        by (unfold len; simpl; rewrite length_range; lia).
      unfold len. cbn [minibatch_indices minibatch_start_index].
      rewrite length_range.
      rewrite while_loop_done
        by (unfold len; simpl; rewrite length_app, !length_range; lia).
      f_equal. f_equal.
      * rewrite (wrapped_split start (Z.to_nat (num_rows - start))) by lia.
        f_equal.
        -- apply range_mod; lia.
        -- rewrite (range_mod 0) by lia.
           replace (Z.to_nat
                      (0 + minibatch_size
                       - Z.of_nat (Z.to_nat (num_rows - start)) - 0))
             with (Z.to_nat minibatch_size - Z.to_nat (num_rows - start))%nat
             by lia.
           apply map_ext. intros k.
           replace (start + Z.of_nat (Z.to_nat (num_rows - start))
                    + Z.of_nat k)%Z
             with (0 + Z.of_nat k + 1 * num_rows)%Z by lia.
           by rewrite Z.mod_add by lia.
      * replace (0 + minibatch_size
                 - Z.of_nat (Z.to_nat (num_rows - start)))%Z
          with (start + minibatch_size - num_rows)%Z by lia.
        replace (start + minibatch_size)%Z
          with (start + minibatch_size - num_rows + 1 * num_rows)%Z at 2
          by lia.
        rewrite Z.mod_add, Z.mod_small; lia.
  - (* the minibatch fits before the end of the data *)
    rewrite while_body_fit by (unfold len; simpl; lia).
    unfold len. cbn [app length minibatch_indices minibatch_start_index].
    rewrite while_loop_done
      by (unfold len; simpl; rewrite length_range; lia).
    f_equal. f_equal.
    + rewrite (range_mod start) by lia.
      unfold Statements.wrapped. do 2 f_equal. lia.
    + rewrite Z.mod_small; lia.
Qed.

Lemma training_batches_spec (fuel iterations : nat) (start : Z) :
  (0 ≤ start < num_rows)%Z → (2 ≤ fuel)%nat →
  ∃ batches,
    training_batches fuel num_rows minibatch_size iterations start
    = Some batches
    ∧ length batches = iterations
    ∧ Forall (λ b, length b = Z.to_nat minibatch_size
                   ∧ Forall (λ i, (0 ≤ i < num_rows)%Z) b) batches.
Proof.
  intros Hstart Hfuel. revert start Hstart.
  induction iterations as [|n IH]; intros start Hstart.
  - exists []. by repeat split.
  - cbn [training_batches]. rewrite collect_minibatch_spec by done.
    cbn [minibatch_start_index minibatch_indices].
    destruct (IH ((start + minibatch_size) `mod` num_rows)%Z)
      as (rest & -> & Hlen & Hall).
    { apply Z.mod_pos_bound. lia. }
    exists (wrapped start :: rest). split; [done|]. split; [simpl; lia|].
    constructor; [|done].
    split; [apply length_wrapped | apply wrapped_valid].
Qed.

End Minibatch.

(** C10. Whatever the number of rows (at least one) and the requested
    minibatch size (at least one once clamped to the number of rows), the
    inner [while] loop of [training_generator] returns, after at most two
    passes, from every start index an earlier iteration can have left: the
    list it has built holds exactly [minibatch_size] positions, each of
    them valid, which are the consecutive positions from the start index
    on, wrapping to position 0 after the last row; the start index it
    leaves is valid again, so that every one of any number of iterations
    returns such a list. *)
Theorem training_generator_minibatch (num_rows requested : Z) :
  (1 ≤ num_rows)%Z →
  (1 ≤ FairnessNotebook.clamp requested num_rows)%Z →
  let minibatch_size := FairnessNotebook.clamp requested num_rows in
  (∀ start fuel,
     (0 ≤ start < num_rows)%Z → (2 ≤ fuel)%nat →
     ∃ st,
       FairnessNotebook.collect_minibatch fuel num_rows minibatch_size start
       = Some st
       ∧ length (FairnessNotebook.minibatch_indices st)
         = Z.to_nat minibatch_size
       ∧ Forall (λ i, (0 ≤ i < num_rows)%Z)
           (FairnessNotebook.minibatch_indices st)
       ∧ FairnessNotebook.minibatch_indices st
         = map (λ k, ((start + Z.of_nat k) `mod` num_rows)%Z)
             (seq 0 (Z.to_nat minibatch_size))
       ∧ FairnessNotebook.minibatch_start_index st
         = ((start + minibatch_size) `mod` num_rows)%Z
       ∧ (0 ≤ FairnessNotebook.minibatch_start_index st < num_rows)%Z)
  ∧ (∀ iterations fuel,
       (2 ≤ fuel)%nat →
       ∃ batches,
         FairnessNotebook.training_batches fuel num_rows minibatch_size
           iterations 0 = Some batches
         ∧ length batches = iterations
         ∧ Forall (λ b, length b = Z.to_nat minibatch_size
                        ∧ Forall (λ i, (0 ≤ i < num_rows)%Z) b) batches).
Proof.
  intros Hrows Hsize minibatch_size.
  assert (minibatch_size ≤ num_rows)%Z as Hclamp
    by (subst minibatch_size; unfold FairnessNotebook.clamp; lia).
  split.
  - intros start fuel Hstart Hfuel. eexists. split.
    { by apply collect_minibatch_spec. }
    cbn [FairnessNotebook.minibatch_indices
         FairnessNotebook.minibatch_start_index].
    split; [by apply length_wrapped|].
    split; [by apply wrapped_valid|].
    split; [done|]. split; [done|].
    apply Z.mod_pos_bound. lia.
  - intros iterations fuel Hfuel.
    apply training_batches_spec; [done .. | lia | done].
Qed.

Lemma training_generator_minibatch_witness :
  ∃ st,
    FairnessNotebook.collect_minibatch 2 10 (FairnessNotebook.clamp 4 10) 8
    = Some st
    ∧ FairnessNotebook.minibatch_indices st = [8; 9; 0; 1]%Z
    ∧ FairnessNotebook.minibatch_start_index st = 2%Z.
Proof.
  destruct (training_generator_minibatch 10 4) as [Hone _].
  - lia.
  - vm_compute. discriminate.
  - destruct (Hone 8%Z 2%nat) as (st & Hst & _ & _ & Hidx & Hnext & _).
    + lia.
    + lia.
    + exists st. split; [exact Hst|]. split.
      * rewrite Hidx. reflexivity.
      * rewrite Hnext. reflexivity.
Defined.

(** * Further properties of the notebooks *)

(** Inequalities between numbers, as inequalities between rationals. *)
Ltac to_rationals :=
  unfold Qcle, Qclt, Qcdiv, Qcminus, Qcplus, Qcopp, Qcmult, Q2Qc in *;
  cbn [this] in *;
  rewrite ?Qred_correct in *.

(** ** The metrics of the fairness notebook are rates *)

Section Rates.

Import FairnessNotebook.

Lemma fraction_in_unit (k n : nat) :
  (0 < n)%nat → (k ≤ n)%nat →
  0 ≤ of_nat k / of_nat n ∧ of_nat k / of_nat n ≤ 1.
Proof.
  intros Hn Hk.
  assert (0 < of_nat n) as Hpos by (by apply of_nat_pos).
  assert (of_nat n ≠ 0) as Hne by (by apply not_eq_sym, Qclt_not_eq).
  split.
  - replace 0 with (of_nat 0 / of_nat n)
      by (rewrite of_nat_0; apply Qcmult_0_l).
    apply Qcdiv_le_cross; [done .. |].
    rewrite <- !of_nat_mult. apply of_nat_le. lia.
  - replace 1 with (of_nat n / of_nat n) by (by field).
    apply Qcdiv_le_cross; [done .. |].
    rewrite <- !of_nat_mult. apply of_nat_le. nia.
Qed.

Lemma py_div_counts (k n : nat) :
  (k ≤ n)%nat →
  (n = 0%nat ∧ py_div (of_nat k) (of_nat n) = Raise "ZeroDivisionError")
  ∨ ((0 < n)%nat
     ∧ ∃ q, py_div (of_nat k) (of_nat n) = Return q ∧ 0 ≤ q ∧ q ≤ 1).
Proof.
  intros Hk. destruct n as [|n].
  - left. split; [done|]. rewrite of_nat_0. apply py_div_zero.
  - right. split; [lia|]. eexists. split.
    + apply py_div_nonzero, of_nat_S_ne_0.
    + apply fraction_in_unit; lia.
Qed.

Lemma count_true_exists {A} (p : A → bool) (xs : list A) :
  (0 < count_true p xs)%nat ↔ ∃ x, x ∈ xs ∧ p x = true.
Proof.
  induction xs as [|x xs IH].
  - split; [by cbn; lia | by intros (x & Hx%elem_of_nil & _)].
  - rewrite count_true_cons. split.
    + destruct (p x) eqn:Hpx.
      * intros _. exists x. split; [apply list_elem_of_here | done].
      * intros H. apply IH in H as (y & Hy & Hpy).
        exists y. split; [by apply list_elem_of_further | done].
    + intros (y & Hy & Hpy). apply elem_of_cons in Hy as [->|Hy].
      * rewrite Hpy. lia.
      * assert (0 < count_true p xs)%nat by (apply IH; eauto). lia.
Qed.

Lemma count_true_mono {A} (p q : A → bool) (xs : list A) :
  (∀ x, p x = true → q x = true) →
  (count_true p xs ≤ count_true q xs)%nat.
Proof.
  intros Hpq. induction xs as [|x xs IH]; [done|].
  rewrite !count_true_cons. destruct (p x) eqn:Hp.
  - rewrite (Hpq x Hp). lia.
  - destruct (q x); lia.
Qed.

Lemma count_true_map {A B} (f : A → B) (p : B → bool) (xs : list A) :
  count_true p (map f xs) = count_true (λ x, p (f x)) xs.
Proof.
  induction xs as [|x xs IH]; [done|].
  cbn [map]. by rewrite !count_true_cons, IH.
Qed.

(** The products [error_rate] counts, row by row. *)
Lemma zip_with_map_rows {A} (f g : A → Qc) (h : Qc → Qc → Qc) (xs : list A) :
  zip_with h (map f xs) (map g xs) = map (λ x, h (f x) (g x)) xs.
Proof. induction xs as [|x xs IH]; [done|]. cbn. by rewrite IH. Qed.

Lemma error_rate_counts (ps ls : list Qc) :
  length ps = length ls →
  ∃ k, (k ≤ length ps)%nat
       ∧ error_rate ps ls = py_div (of_nat k) (of_nat (length ps)).
Proof.
  intros Hlen. unfold error_rate.
  rewrite broadcast_same_length by (rewrite length_map; lia).
  cbn [mbind outcome_bind bind].
  eexists. split; [|reflexivity].
  etrans; [apply count_true_le_length|].
  rewrite length_zip_with, length_map. lia.
Qed.

Lemma tpr_counts (df : DataFrame) :
  tpr df
  = py_div
      (of_nat (count_true
                 (λ r, bool_decide (0 ≤ predictions r)
                       && bool_decide (dec 0.5 < label r)) df))
      (of_nat (count_true (λ r, bool_decide (dec 0.5 < label r)) df)).
Proof. done. Qed.

End Rates.

Lemma error_rate_cases (predictions labels : list Qc) :
  length predictions = length labels →
  (predictions = []
   ∧ FairnessNotebook.error_rate predictions labels
     = Raise "ZeroDivisionError")
  ∨ (predictions ≠ []
     ∧ ∃ e, FairnessNotebook.error_rate predictions labels = Return e
            ∧ 0 ≤ e ∧ e ≤ 1).
Proof.
  intros Hlen.
  destruct (error_rate_counts predictions labels Hlen) as (k & Hk & ->).
  destruct (py_div_counts k (length predictions) Hk) as [[Hn H]|[Hn H]].
  - left. split; [by apply nil_length_inv | done].
  - right. split; [|done]. intros ->. simpl in Hn. lia.
Qed.

(** X1. For predictions and labels of the same length, [error_rate] fails
    with ZeroDivisionError exactly when there are no examples, and
    otherwise returns a number between 0 and 1. *)
Theorem error_rate_is_a_rate (predictions labels : list Qc) :
  length predictions = length labels →
  (predictions = []
   ∧ FairnessNotebook.error_rate predictions labels
     = Raise "ZeroDivisionError")
  ∨ (predictions ≠ []
     ∧ ∃ e, FairnessNotebook.error_rate predictions labels = Return e
            ∧ 0 ≤ e ∧ e ≤ 1).
Proof. exact (error_rate_cases predictions labels). Qed.

Lemma error_rate_is_a_rate_witness :
  ∃ e, FairnessNotebook.error_rate [1; -1; 1] [1; 1; 0] = Return e
       ∧ 0 ≤ e ∧ e ≤ 1.
Proof.
  destruct (error_rate_is_a_rate [1; -1; 1] [1; 1; 0] eq_refl)
    as [[Hnil _]|[_ H]]; [discriminate | exact H].
Defined.

Lemma tpr_cases (df : FairnessNotebook.DataFrame) :
  ((∀ r, r ∈ df → ¬ dec 0.5 < FairnessNotebook.label r)
   ∧ FairnessNotebook.tpr df = Raise "ZeroDivisionError")
  ∨ ((∃ r, r ∈ df ∧ dec 0.5 < FairnessNotebook.label r)
     ∧ ∃ t, FairnessNotebook.tpr df = Return t ∧ 0 ≤ t ∧ t ≤ 1).
Proof.
  rewrite tpr_counts.
  set (tp := count_true _ df). set (pos := count_true _ df).
  assert (tp ≤ pos)%nat as Hle.
  { subst tp pos. apply count_true_mono. intros r.
    rewrite andb_true_iff. tauto. }
  destruct (py_div_counts tp pos Hle) as [[Hn H]|[Hn H]].
  - left. split; [|done]. intros r Hr Hpos.
    assert (0 < pos)%nat; [|lia].
    subst pos. apply count_true_exists. exists r.
    by rewrite bool_decide_eq_true.
  - right. split; [|done].
    subst pos. apply count_true_exists in Hn as (r & Hr & Hpos).
    exists r. by rewrite bool_decide_eq_true in Hpos.
Qed.

(** X2. [tpr] fails with ZeroDivisionError exactly when no row of the
    frame is labelled positive (label above 0.5), and otherwise returns a
    number between 0 and 1. *)
Theorem tpr_is_a_rate (df : FairnessNotebook.DataFrame) :
  ((∀ r, r ∈ df → ¬ dec 0.5 < FairnessNotebook.label r)
   ∧ FairnessNotebook.tpr df = Raise "ZeroDivisionError")
  ∨ ((∃ r, r ∈ df ∧ dec 0.5 < FairnessNotebook.label r)
     ∧ ∃ t, FairnessNotebook.tpr df = Return t ∧ 0 ≤ t ∧ t ≤ 1).
Proof. exact (tpr_cases df). Qed.

Section RatesCompared.

Import FairnessNotebook.



Lemma count_true_zip_fst {A B} (xs : list A) (ys : list B) (p : A → bool) :
  length xs = length ys →
  count_true (λ x : A * B, p x.1) (zip xs ys) = count_true p xs.
Proof.
  revert ys. induction xs as [|x xs IH]; intros [|y ys] Hlen; try done.
  cbn [zip zip_with]. rewrite !count_true_cons. cbn [fst].
  rewrite IH by (simpl in Hlen; lia). done.
Qed.






End RatesCompared.





(** ** The metrics of a frame: row order, failure, bounds *)

Section FrameMetrics.

Import FairnessNotebook.

Lemma count_true_Permutation {A} (p : A → bool) (xs ys : list A) :
  xs ≡ₚ ys → count_true p xs = count_true p ys.
Proof. intros H. unfold count_true. by rewrite H. Qed.

Lemma count_true_filter {A} (p : A → bool) (P : A → Prop)
    `{∀ x, Decision (P x)} (xs : list A) :
  count_true p (filter P xs) = count_true (λ x, p x && bool_decide (P x)) xs.
Proof.
  induction xs as [|x xs IH]; [done|].
  rewrite filter_cons, count_true_cons. destruct (decide (P x)) as [HP|HP].
  - rewrite count_true_cons, IH, bool_decide_eq_true_2 by done.
    by rewrite andb_true_r.
  - rewrite IH, bool_decide_eq_false_2 by done. by rewrite andb_false_r.
Qed.

(** [error_rate] on the two columns of a frame, row by row. *)
Lemma error_rate_rows (df : DataFrame) :
  error_rate (map predictions df) (map label df)
  = py_div
      (of_nat (count_true
                 (λ r, bool_decide
                         ((to_float (bool_decide (0 < label r))
                           - to_float (bool_decide (label r ≤ 0)))
                          * predictions r ≤ 0)) df))
      (of_nat (length df)).
Proof.
  unfold error_rate.
  rewrite broadcast_same_length by (by rewrite !length_map).
  cbn [mbind outcome_bind bind].
  rewrite map_map, zip_with_map_rows, count_true_map, length_map. done.
Qed.

Lemma get_error_rate_and_constraints_Permutation (df df' : DataFrame) d :
  df ≡ₚ df' →
  _get_error_rate_and_constraints df d
  = _get_error_rate_and_constraints df' d.
Proof.
  intros Hperm. unfold _get_error_rate_and_constraints.
  rewrite !error_rate_rows, !tpr_counts.
  rewrite !(count_true_Permutation _ df df' Hperm).
  rewrite (Permutation_length Hperm).
  assert (∀ a, tpr (group a df) = tpr (group a df')) as Hgroup.
  { intros a. rewrite !tpr_counts. unfold group.
    assert (filter (λ r, dec 0.5 < protected r a) df
            ≡ₚ filter (λ r, dec 0.5 < protected r a) df') as Hf
      by (by rewrite Hperm).
    by rewrite !(count_true_Permutation _ _ _ Hf). }
  unfold PROTECTED_COLUMNS. cbn [mapM]. by rewrite !Hgroup.
Qed.

End FrameMetrics.

Section FrameMetricsTotal.

Import FairnessNotebook.

Lemma mapM_Return_Forall {A B} (f : A → outcome B) (P : B → Prop)
    (xs : list A) :
  Forall (λ a, ∃ y, f a = Return y ∧ P y) xs →
  ∃ ys, mapM f xs = Return ys ∧ length ys = length xs ∧ Forall P ys.
Proof.
  induction 1 as [|a xs (y & Hy & HP) _ (ys & Hys & Hlen & HPs)].
  - by exists [].
  - exists (y :: ys). cbn [mapM]. rewrite Hy, Hys.
    split; [done|]. split; [simpl; lia | by constructor].
Qed.

Lemma mapM_Raise {A B} (f : A → outcome B) (e : string) (xs : list A) :
  Forall (λ a, (∃ y, f a = Return y) ∨ f a = Raise e) xs →
  Exists (λ a, f a = Raise e) xs →
  mapM f xs = Raise e.
Proof.
  induction 1 as [|a xs Ha _ IH]; intros Hex; [by inversion Hex|].
  cbn [mapM]. destruct Ha as [(y & Hy)| ->]; [|done].
  rewrite Hy. cbn [mbind outcome_bind bind].
  inversion Hex as [?? Hraise|?? Hrest]; subst; [congruence|].
  by rewrite (IH Hrest).
Qed.

Lemma Forall_or_Exists {A} (P : A → Prop) (xs : list A) :
  Forall (λ a, P a ∨ ¬ P a) xs → Forall P xs ∨ Exists (λ a, ¬ P a) xs.
Proof.
  induction 1 as [|a xs [Ha|Ha] _ [IH|IH]].
  - by left.
  - left. by constructor.
  - right. by apply Exists_cons_tl.
  - right. by apply Exists_cons_hd.
  - right. by apply Exists_cons_hd.
Qed.

Lemma tpr_group_cases (a : protected_column) (df : DataFrame) :
  (¬ has_positive_member a df
   ∧ tpr (group a df) = Raise "ZeroDivisionError")
  ∨ (has_positive_member a df
     ∧ ∃ t, tpr (group a df) = Return t ∧ 0 ≤ t ∧ t ≤ 1).
Proof.
  destruct (tpr_cases (group a df)) as [[Hnone H]|[(r & Hr & Hl) H]].
  - left. split; [|done]. intros (r & Hr & Hl & Ha).
    apply (Hnone r); [|done]. unfold group. by apply list_elem_of_filter.
  - right. split; [|done]. unfold group in Hr.
    apply list_elem_of_filter in Hr as [Ha Hr]. by exists r.
Qed.

Lemma violation_bounds (t g d : Qc) :
  0 ≤ t → t ≤ 1 → 0 ≤ g → g ≤ 1 →
  -1 - d ≤ t - d - g ∧ t - d - g ≤ 1 - d.
Proof.
  intros Ht0 Ht1 Hg0 Hg1.
  unfold Qcle, Qcminus, Qcplus, Qcopp, Q2Qc in *. cbn [this] in *.
  rewrite ?Qred_correct in *. split; lra.
Qed.

Lemma get_error_rate_and_constraints_cases (df : DataFrame) (d : Qc) :
  ((∃ a, a ∈ PROTECTED_COLUMNS ∧ ¬ has_positive_member a df)
   ∧ _get_error_rate_and_constraints df d = Raise "ZeroDivisionError")
  ∨ ((∀ a, a ∈ PROTECTED_COLUMNS → has_positive_member a df)
     ∧ ∃ e vs,
         _get_error_rate_and_constraints df d = Return (e, vs)
         ∧ length vs = length PROTECTED_COLUMNS
         ∧ 0 ≤ e ∧ e ≤ 1
         ∧ Forall (λ v, -1 - d ≤ v ∧ v ≤ 1 - d) vs).
Proof.
  unfold _get_error_rate_and_constraints.
  destruct (error_rate_cases (map predictions df) (map label df))
    as [[Hnil ->]|[Hne (e & -> & He0 & He1)]]; [by rewrite !length_map| |].
  { left. split; [|done]. exists gender_Female.
    split; [apply list_elem_of_here|].
    intros (r & Hr & _). destruct df; [|done]. by apply elem_of_nil in Hr. }
  cbn [mbind outcome_bind bind].
  destruct (tpr_cases df) as [[Hnone ->]|[_ (t & -> & Ht0 & Ht1)]].
  { left. split; [|done]. exists gender_Female.
    split; [apply list_elem_of_here|].
    intros (r & Hr & Hl & _). by apply (Hnone r). }
  cbn [mbind outcome_bind bind].
  destruct (Forall_or_Exists (λ a, has_positive_member a df)
              PROTECTED_COLUMNS) as [Hall|Hsome].
  { apply Forall_forall. intros a _.
    destruct (tpr_group_cases a df) as [[Hno _]|[Hyes _]]; tauto. }
  - right. split; [intros a Ha; by apply (proj1 (Forall_forall _ _) Hall)|].
    destruct (mapM_Return_Forall
                (λ a, group_tpr ← tpr (group a df);
                      mret (t - d - group_tpr))
                (λ v, -1 - d ≤ v ∧ v ≤ 1 - d) PROTECTED_COLUMNS)
      as (vs & -> & Hlen & Hvs).
    { eapply Forall_impl; [exact Hall|]. intros a Ha.
      destruct (tpr_group_cases a df) as [[Hno _]|[_ (g & -> & Hg0 & Hg1)]];
        [done|].
      eexists. split; [reflexivity|]. by apply violation_bounds. }
    by exists e, vs.
  - left. split.
    { apply Exists_exists in Hsome as (a & Ha & Hno). by exists a. }
    rewrite (mapM_Raise _ "ZeroDivisionError"); [done| |].
    + apply Forall_forall. intros a _.
      destruct (tpr_group_cases a df) as [[_ ->]|[_ (g & -> & _)]];
        [by right | left; by eexists].
    + eapply Exists_impl; [exact Hsome|]. intros a Hno. cbn beta in *.
      by destruct (tpr_group_cases a df) as [[_ ->]|[Hyes _]].
Qed.

End FrameMetricsTotal.

Section ComplementaryGroups.

Import FairnessNotebook.

Lemma count_true_split {A} (p qa qb : A → bool) (xs : list A) :
  (∀ x, x ∈ xs → p x = true → qa x = negb (qb x)) →
  count_true p xs
  = (count_true (λ x, p x && qa x) xs + count_true (λ x, p x && qb x) xs)%nat.
Proof.
  induction xs as [|x xs IH]; intros Hq; [done|].
  rewrite !count_true_cons, IH
    by (intros y Hy; by apply Hq, list_elem_of_further).
  destruct (p x) eqn:Hp; [|simpl; lia].
  rewrite (Hq x (list_elem_of_here _ _) Hp). destruct (qb x); simpl; lia.
Qed.

Lemma py_div_Return_counts (k n : nat) (q : Qc) :
  py_div (of_nat k) (of_nat n) = Return q →
  (0 < n)%nat ∧ q = of_nat k / of_nat n.
Proof.
  unfold py_div. destruct (decide (of_nat n = 0)) as [|Hn]; [done|].
  intros [= <-]. split; [|done].
  destruct n; [by rewrite of_nat_0 in Hn | lia].
Qed.

Lemma fraction_le (a b c d : nat) :
  (0 < b)%nat → (0 < d)%nat → (a * d ≤ c * b)%nat →
  of_nat a / of_nat b ≤ of_nat c / of_nat d.
Proof.
  intros Hb Hd H. apply Qcdiv_le_cross; [by apply of_nat_pos .. |].
  rewrite <- !of_nat_mult. by apply of_nat_le.
Qed.

(** The rate of the whole lies between the rates of two parts that split
    it. *)
Lemma tpr_between_groups (a b : protected_column) (df : DataFrame)
    (t ta tb : Qc) :
  (∀ r, r ∈ df → dec 0.5 < label r →
        (dec 0.5 < protected r a ↔ ¬ dec 0.5 < protected r b)) →
  tpr df = Return t →
  tpr (group a df) = Return ta →
  tpr (group b df) = Return tb →
  (ta ≤ t ∧ t ≤ tb) ∨ (tb ≤ t ∧ t ≤ ta).
Proof.
  intros Hsplit Ht Hta Htb.
  rewrite tpr_counts in Ht. rewrite tpr_counts in Hta.
  rewrite tpr_counts in Htb. unfold group in Hta, Htb.
  rewrite (count_true_filter (λ r, bool_decide (dec 0.5 < label r))
             (λ r, dec 0.5 < protected r a) df) in Hta.
  rewrite (count_true_filter
             (λ r, bool_decide (0 ≤ predictions r)
                   && bool_decide (dec 0.5 < label r))
             (λ r, dec 0.5 < protected r a) df) in Hta.
  rewrite (count_true_filter (λ r, bool_decide (dec 0.5 < label r))
             (λ r, dec 0.5 < protected r b) df) in Htb.
  rewrite (count_true_filter
             (λ r, bool_decide (0 ≤ predictions r)
                   && bool_decide (dec 0.5 < label r))
             (λ r, dec 0.5 < protected r b) df) in Htb.
  set (P := λ r, bool_decide (dec 0.5 < label r)) in *.
  set (T := λ r, bool_decide (0 ≤ predictions r)
                 && bool_decide (dec 0.5 < label r)) in *.
  set (A := λ r, bool_decide (dec 0.5 < protected r a)) in *.
  set (B := λ r, bool_decide (dec 0.5 < protected r b)) in *.
  assert (∀ r, r ∈ df → P r = true → A r = negb (B r)) as HAB.
  { intros r Hr HP. subst P A B. cbn beta in *.
    apply bool_decide_eq_true in HP.
    destruct (Hsplit r Hr HP) as [H1 H2].
    destruct (decide (dec 0.5 < protected r b)) as [Hb|Hb].
    - rewrite (bool_decide_eq_true_2 _ Hb). cbn.
      apply bool_decide_eq_false_2. tauto.
    - rewrite (bool_decide_eq_false_2 _ Hb). cbn.
      apply bool_decide_eq_true_2. tauto. }
  pose proof (count_true_split P A B df HAB) as Hpos.
  assert (count_true T df
          = (count_true (λ x, T x && A x) df
             + count_true (λ x, T x && B x) df)%nat) as Htp.
  { apply count_true_split. intros r Hr HT. apply HAB; [done|].
    subst T P. cbn beta in *. by apply andb_true_iff in HT as [_ HT]. }
  assert (count_true (λ x, T x && A x) df
          ≤ count_true (λ x, P x && A x) df)%nat as Hla.
  { apply count_true_mono. intros r. subst T P. cbn beta.
    rewrite !andb_true_iff. tauto. }
  assert (count_true (λ x, T x && B x) df
          ≤ count_true (λ x, P x && B x) df)%nat as Hlb.
  { apply count_true_mono. intros r. subst T P. cbn beta.
    rewrite !andb_true_iff. tauto. }
  change (count_true (λ x, bool_decide (0 ≤ predictions x)
                           && bool_decide (dec 0.5 < label x)
                           && bool_decide (dec 0.5 < protected x a)) df)
    with (count_true (λ x, T x && A x) df) in Hta.
  change (count_true (λ x, bool_decide (dec 0.5 < label x)
                           && bool_decide (dec 0.5 < protected x a)) df)
    with (count_true (λ x, P x && A x) df) in Hta.
  change (count_true (λ x, bool_decide (0 ≤ predictions x)
                           && bool_decide (dec 0.5 < label x)
                           && bool_decide (dec 0.5 < protected x b)) df)
    with (count_true (λ x, T x && B x) df) in Htb.
  change (count_true (λ x, bool_decide (dec 0.5 < label x)
                           && bool_decide (dec 0.5 < protected x b)) df)
    with (count_true (λ x, P x && B x) df) in Htb.
  rewrite Hpos, Htp in Ht.
  set (tpa := count_true (λ x, T x && A x) df) in *.
  set (tpb := count_true (λ x, T x && B x) df) in *.
  set (pa := count_true (λ x, P x && A x) df) in *.
  set (pb := count_true (λ x, P x && B x) df) in *.
  apply py_div_Return_counts in Ht as [Hn ->].
  apply py_div_Return_counts in Hta as [Hna ->].
  apply py_div_Return_counts in Htb as [Hnb ->].
  destruct (decide (tpa * pb ≤ tpb * pa)%nat) as [Hle|Hgt].
  - left. split; apply fraction_le; try done; nia.
  - right. split; apply fraction_le; try done; nia.
Qed.

Lemma violation_of_group (t d g : Qc) : 0 ≤ d → t ≤ g → t - d - g ≤ 0.
Proof.
  intros Hd H. unfold Qcle, Qcminus, Qcplus, Qcopp, Q2Qc in *.
  cbn [this] in *. rewrite ?Qred_correct in *. lra.
Qed.

End ComplementaryGroups.

(** X5. The error rate and the violations that
    [_get_error_rate_and_constraints] computes, or the exception it ends
    in, do not depend on the order of the rows of the frame. *)
Theorem metrics_ignore_row_order
    (df df' : FairnessNotebook.DataFrame) (tpr_max_diff : Qc) :
  df ≡ₚ df' →
  FairnessNotebook._get_error_rate_and_constraints df tpr_max_diff
  = FairnessNotebook._get_error_rate_and_constraints df' tpr_max_diff.
Proof. apply get_error_rate_and_constraints_Permutation. Qed.

Lemma metrics_ignore_row_order_witness :
  FairnessNotebook._get_error_rate_and_constraints
    (boundary_row :: other_rows) (dec 0.05)
  = FairnessNotebook._get_error_rate_and_constraints
      (other_rows ++ [boundary_row]) (dec 0.05).
Proof.
  apply metrics_ignore_row_order.
  apply Permutation_cons_append.
Defined.

(** X6. [_get_error_rate_and_constraints] returns exactly when every
    protected group of the frame has a positively-labelled row, and ends
    in ZeroDivisionError otherwise. When it returns, the error rate is
    between 0 and 1, there is one violation for each protected column, and
    every violation lies between [-1 - tpr_max_diff] and
    [1 - tpr_max_diff]. *)
Theorem frame_metrics_defined_or_division_by_zero
    (df : FairnessNotebook.DataFrame) (tpr_max_diff : Qc) :
  ((∃ a, a ∈ FairnessNotebook.PROTECTED_COLUMNS
         ∧ ¬ has_positive_member a df)
   ∧ FairnessNotebook._get_error_rate_and_constraints df tpr_max_diff
     = Raise "ZeroDivisionError")
  ∨ ((∀ a, a ∈ FairnessNotebook.PROTECTED_COLUMNS →
           has_positive_member a df)
     ∧ ∃ e vs,
         FairnessNotebook._get_error_rate_and_constraints df tpr_max_diff
         = Return (e, vs)
         ∧ length vs = length FairnessNotebook.PROTECTED_COLUMNS
         ∧ 0 ≤ e ∧ e ≤ 1
         ∧ Forall (λ v, -1 - tpr_max_diff ≤ v ∧ v ≤ 1 - tpr_max_diff) vs).
Proof. apply get_error_rate_and_constraints_cases. Qed.

(** X7. When the positively-labelled rows of a frame are split between two
    protected groups, each row in exactly one of them, the true positive
    rate of the frame lies between the rates of the two groups. So, for a
    [tpr_max_diff] that is not negative, the constraint of one of the two
    groups is satisfied: its violation
    [(overall_tpr - tpr_max_diff) - tpr(group)] is at most 0. *)
Theorem one_of_two_complementary_groups_is_satisfied
    (a b : FairnessNotebook.protected_column)
    (df : FairnessNotebook.DataFrame) (tpr_max_diff t ta tb : Qc) :
  0 ≤ tpr_max_diff →
  (∀ r, r ∈ df → dec 0.5 < FairnessNotebook.label r →
        (dec 0.5 < FairnessNotebook.protected r a
         ↔ ¬ dec 0.5 < FairnessNotebook.protected r b)) →
  FairnessNotebook.tpr df = Return t →
  FairnessNotebook.tpr (FairnessNotebook.group a df) = Return ta →
  FairnessNotebook.tpr (FairnessNotebook.group b df) = Return tb →
  ((ta ≤ t ∧ t ≤ tb) ∨ (tb ≤ t ∧ t ≤ ta))
  ∧ ((t - tpr_max_diff) - ta ≤ 0 ∨ (t - tpr_max_diff) - tb ≤ 0).
Proof.
  intros Hd Hsplit Ht Hta Htb.
  pose proof (tpr_between_groups a b df t ta tb Hsplit Ht Hta Htb) as H.
  split; [done|].
  destruct H as [[_ H]|[_ H]]; [right | left]; by apply violation_of_group.
Qed.

Lemma one_of_two_complementary_groups_is_satisfied_witness :
  (dec (1 # 2) ≤ dec (2 # 3) ∧ dec (2 # 3) ≤ 1)
  ∧ ((dec (2 # 3) - dec 0.05) - 1 ≤ 0
     ∨ (dec (2 # 3) - dec 0.05) - dec (1 # 2) ≤ 0).
Proof.
  destruct (one_of_two_complementary_groups_is_satisfied
              FairnessNotebook.gender_Female FairnessNotebook.gender_Male
              gender_rows (dec 0.05) (dec (2 # 3)) 1 (dec (1 # 2)))
    as [Hbetween Hone].
  - by vm_compute.
  - intros r Hr _.
    repeat (apply elem_of_cons in Hr as [->|Hr]);
      [| | |by apply elem_of_nil in Hr];
      split; intros H; vm_compute in H |- *; done.
  - by_evaluation.
  - by_evaluation.
  - by_evaluation.
  - split; [|exact Hone].
    destruct Hbetween as [[H _]|H]; [|exact H].
    exfalso. revert H. by vm_compute.
Defined.

(** ** The minibatches of a run of [training_generator] *)

Section Epoch.

Import FairnessNotebook Training.

Variables num_rows minibatch_size : Z.
Hypothesis rows_positive : (1 ≤ num_rows)%Z.
Hypothesis size_positive : (1 ≤ minibatch_size)%Z.
Hypothesis size_clamped : (minibatch_size ≤ num_rows)%Z.

(** The minibatches of consecutive iterations, put end to end, are the
    consecutive positions from the first start index on. *)
Lemma training_batches_concat (fuel iterations : nat) (start : Z) :
  (0 ≤ start < num_rows)%Z → (2 ≤ fuel)%nat →
  ∃ batches,
    training_batches fuel num_rows minibatch_size iterations start
    = Some batches
    ∧ concat batches
      = map (λ i, ((start + Z.of_nat i) `mod` num_rows)%Z)
          (seq 0 (iterations * Z.to_nat minibatch_size)).
Proof.
  intros Hstart Hfuel. revert start Hstart.
  induction iterations as [|n IH]; intros start Hstart.
  - by exists [].
  - cbn [training_batches]. rewrite collect_minibatch_spec by done.
    cbn [minibatch_start_index minibatch_indices].
    destruct (IH ((start + minibatch_size) `mod` num_rows)%Z)
      as (rest & -> & Hrest).
    { apply Z.mod_pos_bound. lia. }
    eexists. split; [done|]. cbn [concat]. rewrite Hrest.
    unfold wrapped.
    replace (S n * Z.to_nat minibatch_size)%nat
      with (Z.to_nat minibatch_size + n * Z.to_nat minibatch_size)%nat
      by lia.
    rewrite seq_app, map_app. f_equal.
    rewrite (map_seq_from _ (0 + Z.to_nat minibatch_size)).
    apply map_ext. intros i.
    rewrite Zplus_mod_idemp_l. f_equal. lia.
Qed.

End Epoch.

Section Shuffled.

Import FairnessNotebook Training.

Context {A : Type}.

Lemma py_index_valid {B} (xs : list B) (i : Z) :
  (0 ≤ i < Z.of_nat (length xs))%Z →
  ∃ x, py_index xs i = Return x ∧ xs !! Z.to_nat i = Some x.
Proof.
  intros Hi. unfold py_index. rewrite decide_True by lia. cbn.
  destruct (lookup_lt_is_Some_2 xs (Z.to_nat i)) as [x Hx]; [lia|].
  rewrite Hx. by exists x.
Qed.

Lemma mapM_Return_lookup {B C} (f : B → outcome C) (xs : list B)
    (ys : list C) :
  mapM f xs = Return ys ↔ Forall2 (λ x y, f x = Return y) xs ys.
Proof.
  revert ys. induction xs as [|x xs IH]; intros ys.
  - cbn [mapM]. split.
    + intros [= <-]. constructor.
    + intros H. by inversion H.
  - cbn [mapM]. split.
    + destruct (f x) as [y|] eqn:Hy; [|done].
      cbn [mbind outcome_bind bind].
      destruct (mapM f xs) as [ys'|] eqn:Hys; [|done].
      intros [= <-]. constructor; [done|]. by apply IH.
    + intros H. inversion H as [|?? ? ys' Hy Hrest]; subst.
      rewrite Hy. cbn [mbind outcome_bind bind].
      apply IH in Hrest. by rewrite Hrest.
Qed.

(** Reading a list at all its positions in order gives the list back. *)
Lemma py_index_all_positions {B} (xs : list B) :
  mapM (py_index xs) (range 0 (Z.of_nat (length xs))) = Return xs.
Proof.
  apply mapM_Return_lookup. unfold range.
  rewrite Z.sub_0_r, Nat2Z.id.
  apply Forall2_same_length_lookup. split.
  - by rewrite length_map, length_seq.
  - intros k i x Hi Hx.
    rewrite list_lookup_fmap in Hi.
    destruct (seq 0 (length xs) !! k) as [j|] eqn:Hj; [|done].
    apply lookup_seq in Hj as [-> Hk]. injection Hi as <-.
    destruct (py_index_valid xs (0 + Z.of_nat k)%Z) as (x' & -> & Hx');
      [lia|].
    rewrite Z.add_0_l, Nat2Z.id in Hx'. congruence.
Qed.

Lemma mapM_Permutation {B C} (f : B → outcome C) (xs xs' : list B)
    (ys : list C) :
  xs ≡ₚ xs' → mapM f xs = Return ys →
  ∃ ys', mapM f xs' = Return ys' ∧ ys ≡ₚ ys'.
Proof.
  intros Hperm. revert ys.
  induction Hperm as [|x xs xs' _ IH|x x' xs|xs xs' xs'' _ IH1 _ IH2];
    intros ys.
  - intros [= <-]. by exists [].
  - cbn [mapM]. destruct (f x) as [y|]; [|done].
    cbn [mbind outcome_bind bind].
    destruct (mapM f xs) as [zs|]; [|done]. intros [= <-].
    destruct (IH zs eq_refl) as (zs' & -> & Hzs).
    exists (y :: zs'). split; [done|]. by constructor.
  - cbn [mapM]. destruct (f x') as [y'|]; [|done].
    cbn [mbind outcome_bind bind].
    destruct (f x) as [y|]; [|done]. cbn [mbind outcome_bind bind].
    destruct (mapM f xs) as [zs|]; [|done]. intros [= <-].
    exists (y :: y' :: zs). split; [done|]. apply perm_swap.
  - intros Hys. destruct (IH1 ys Hys) as (ys' & Hys' & Hp1).
    destruct (IH2 ys' Hys') as (ys'' & Hys'' & Hp2).
    exists ys''. split; [done|]. by etrans.
Qed.

Lemma minibatch_rows_valid (train_df : list A) (permutation indices : list Z) :
  permutation ≡ₚ range 0 (Z.of_nat (length train_df)) →
  Forall (λ i, (0 ≤ i < Z.of_nat (length train_df))%Z) indices →
  ∃ rows,
    minibatch_rows train_df permutation indices = Return rows
    ∧ length rows = length indices
    ∧ Forall (λ r, r ∈ train_df) rows.
Proof.
  intros Hperm Hvalid. unfold minibatch_rows.
  assert (length permutation = length train_df) as Hlen.
  { rewrite Hperm. unfold range.
    rewrite length_map, length_seq. lia. }
  assert (Forall (λ p, (0 ≤ p < Z.of_nat (length train_df))%Z) permutation)
    as Hpos.
  { rewrite Hperm. unfold range. apply Forall_forall. intros p Hp.
    apply list_elem_of_In, in_map_iff in Hp as (k & <- & Hk).
    apply in_seq in Hk. lia. }
  destruct (mapM_Return_Forall (py_index permutation)
              (λ p, (0 ≤ p < Z.of_nat (length train_df))%Z) indices)
    as (positions & -> & Hlen' & Hpositions).
  { eapply Forall_impl; [exact Hvalid|]. intros i Hi. cbn beta in Hi |- *.
    destruct (py_index_valid permutation i) as (p & Hp & Hlook); [lia|].
    exists p. split; [done|].
    apply (proj1 (Forall_forall _ _) Hpos).
    by apply list_elem_of_lookup_2 in Hlook. }
  cbn [mbind outcome_bind bind].
  destruct (mapM_Return_Forall (py_index train_df)
              (λ r, r ∈ train_df) positions)
    as (rows & -> & Hlen'' & Hrows).
  { eapply Forall_impl; [exact Hpositions|]. intros p Hp. cbn beta in Hp |- *.
    destruct (py_index_valid train_df p) as (r & Hr & Hlook); [lia|].
    exists r. split; [done|]. by apply list_elem_of_lookup_2 in Hlook. }
  exists rows. split; [done|]. split; [congruence | done].
Qed.

Lemma minibatch_rows_full_pass (train_df : list A) (permutation : list Z) :
  permutation ≡ₚ range 0 (Z.of_nat (length train_df)) →
  ∃ rows,
    minibatch_rows train_df permutation
      (range 0 (Z.of_nat (length train_df))) = Return rows
    ∧ rows ≡ₚ train_df.
Proof.
  intros Hperm. unfold minibatch_rows.
  assert (length permutation = length train_df) as Hlen.
  { rewrite Hperm. unfold range.
    rewrite length_map, length_seq. lia. }
  assert (mapM (py_index permutation)
            (range 0 (Z.of_nat (length train_df))) = Return permutation)
    as -> by (rewrite <- Hlen; apply py_index_all_positions).
  cbn [mbind outcome_bind bind].
  destruct (mapM_Permutation (py_index train_df)
              (range 0 (Z.of_nat (length train_df))) permutation train_df)
    as (rows & Hrows & Hp).
  - done.
  - apply py_index_all_positions.
  - exists rows. split; [done|]. by symmetry.
Qed.

End Shuffled.

(** X8. The minibatches of any number of iterations, put end to end, are
    the consecutive positions 0, 1, 2, ... taken modulo the number of rows:
    no position is skipped or repeated from one minibatch to the next.
    When the iterations times the minibatch size make up the number of
    rows, the minibatches together are every position once, in order. *)
Theorem minibatches_are_consecutive_positions
    (num_rows requested : Z) (iterations fuel : nat) :
  (1 ≤ num_rows)%Z →
  (1 ≤ FairnessNotebook.clamp requested num_rows)%Z →
  (2 ≤ fuel)%nat →
  let minibatch_size := FairnessNotebook.clamp requested num_rows in
  ∃ batches,
    FairnessNotebook.training_batches fuel num_rows minibatch_size
      iterations 0 = Some batches
    ∧ concat batches
      = map (λ i, (Z.of_nat i `mod` num_rows)%Z)
          (seq 0 (iterations * Z.to_nat minibatch_size))
    ∧ ((Z.of_nat iterations * minibatch_size = num_rows)%Z →
       concat batches = FairnessNotebook.range 0 num_rows).
Proof.
  intros Hrows Hsize Hfuel minibatch_size.
  assert (minibatch_size ≤ num_rows)%Z as Hclamp
    by (subst minibatch_size; unfold FairnessNotebook.clamp; lia).
  destruct (training_batches_concat num_rows minibatch_size Hrows Hsize
              Hclamp fuel iterations 0) as (batches & Hrun & Hcat);
    [lia | done |].
  exists batches. split; [done|]. split; [done|].
  intros Hfull. rewrite Hcat.
  replace (iterations * Z.to_nat minibatch_size)%nat
    with (Z.to_nat num_rows) by lia.
  unfold FairnessNotebook.range. rewrite Z.sub_0_r.
  apply map_ext_in. intros i Hi. apply in_seq in Hi.
  rewrite Z.mod_small; lia.
Qed.

Lemma minibatches_are_consecutive_positions_witness :
  ∃ batches,
    FairnessNotebook.training_batches 2 6 (FairnessNotebook.clamp 2 6) 3 0
    = Some batches
    ∧ concat batches = [0; 1; 2; 3; 4; 5]%Z.
Proof.
  destruct (minibatches_are_consecutive_positions 6 2 3 2)
    as (batches & Hrun & _ & Hfull).
  - lia.
  - vm_compute. discriminate.
  - lia.
  - exists batches. split; [exact Hrun|]. by rewrite Hfull.
Defined.

(** X9. The rows fed to a training step are read through the shuffled
    permutation of the positions of the training frame. For any list of
    valid positions the lookup returns (it never ends in IndexError), with
    one row of the frame for each position; over one pass of all
    positions it returns every row of the frame exactly once. *)
Theorem shuffled_pass_feeds_every_row_once {A : Type}
    (train_df : list A) (permutation : list Z) :
  permutation
    ≡ₚ FairnessNotebook.range 0 (Z.of_nat (length train_df)) →
  (∀ minibatch_indices,
     Forall (λ i, (0 ≤ i < Z.of_nat (length train_df))%Z)
       minibatch_indices →
     ∃ rows,
       Training.minibatch_rows train_df permutation minibatch_indices
       = Return rows
       ∧ length rows = length minibatch_indices
       ∧ Forall (λ r, r ∈ train_df) rows)
  ∧ ∃ rows,
      Training.minibatch_rows train_df permutation
        (FairnessNotebook.range 0 (Z.of_nat (length train_df)))
      = Return rows
      ∧ rows ≡ₚ train_df.
Proof.
  intros Hperm. split.
  - intros indices. by apply minibatch_rows_valid.
  - by apply minibatch_rows_full_pass.
Qed.

Lemma shuffled_pass_feeds_every_row_once_witness :
  ∃ rows,
    Training.minibatch_rows ["a"; "b"; "c"]%string [2; 0; 1]%Z [0; 1; 2]%Z
    = Return rows
    ∧ rows ≡ₚ ["a"; "b"; "c"]%string.
Proof.
  destruct (shuffled_pass_feeds_every_row_once
              ["a"; "b"; "c"]%string [2; 0; 1]%Z) as [_ Hfull].
  - change (FairnessNotebook.range 0 (Z.of_nat 3)) with [0; 1; 2]%Z.
    apply (Permutation_cons_append [0; 1]%Z 2%Z).
  - exact Hfull.
Defined.

(** ** Expected metrics of a randomized classifier *)

Section Expectations.

Import FairnessNotebook Training.

Lemma list_from_lookups (r : list Qc) :
  r = map (λ j, default 0 (r !! j)) (seq 0 (length r)).
Proof.
  apply list_eq. intros j. rewrite list_lookup_fmap.
  destruct (r !! j) as [x|] eqn:Hx.
  - rewrite (lookup_seq_lt 0 (length r) j)
      by (by eapply lookup_lt_Some). cbn. by rewrite Hx.
  - rewrite lookup_seq_ge; [done|]. by apply lookup_ge_None.
Qed.

Lemma length_column (j : nat) (rows : list (list Qc)) :
  length (column j rows) = length rows.
Proof. unfold column. apply length_map. Qed.

(** [np.matmul] of a vector and a matrix, entry by entry: the dot product
    of the vector with each column. *)
Lemma vec_matmul_columns (m : nat) (rows : list (list Qc)) (u : list Qc) :
  Forall (λ r, length r = m) rows → length u = length rows → rows ≠ [] →
  vec_matmul u rows
  = map (λ j, np_sum (zip_with Qcmult u (column j rows))) (seq 0 m).
Proof.
  intros Hrows. revert u.
  induction Hrows as [|r rows Hr Hrows IH]; intros u Hlen Hne; [done|].
  destruct u as [|x u]; [done|]. injection Hlen as Hlen.
  cbn [vec_matmul]. destruct rows as [|r' rows].
  - destruct u; [|done]. rewrite (list_from_lookups r) at 1.
    rewrite Hr, map_map. apply map_ext. intros j.
    cbn. ring.
  - rewrite (IH u Hlen) by done.
    rewrite (list_from_lookups r) at 1. rewrite Hr, map_map.
    rewrite zip_with_map_rows. apply map_ext. intros j. done.
Qed.

Lemma np_matmul_columns (m : nat) (rows : list (list Qc)) (u : list Qc) :
  Forall (λ r, length r = m) rows → length u = length rows → rows ≠ [] →
  np_matmul u rows
  = Return (map (λ j, np_sum (zip_with Qcmult u (column j rows)))
              (seq 0 m)).
Proof.
  intros Hrows Hlen Hne. unfold np_matmul. rewrite decide_True by done.
  destruct rows as [|r rows]; [done|].
  rewrite decide_True.
  - by rewrite (vec_matmul_columns m).
  - inversion Hrows as [|?? Hr _]; subst.
    eapply Forall_impl; [exact Hrows|]. intros r' Hr'. cbn beta in *.
    congruence.
Qed.

(** The dot product with a point distribution reads one entry. *)
Lemma dot_one_hot (v : list Qc) (i : nat) (x : Qc) :
  v !! i = Some x →
  np_sum (zip_with Qcmult (one_hot (length v) i) v) = x.
Proof.
  unfold one_hot. revert i.
  induction v as [|y v IH]; intros i Hi; [done|].
  destruct i as [|i].
  - injection Hi as ->.
    change (np_sum (zip_with Qcmult (<[0%nat:=1]> (replicate (length (x :: v)) 0))
                      (x :: v)))
      with (1 * x + np_sum (zip_with Qcmult (replicate (length v) 0) v)).
    rewrite (np_sum_scaled 0 v). ring.
  - change (np_sum (zip_with Qcmult
                      (<[S i:=1]> (replicate (length (y :: v)) 0)) (y :: v)))
      with (0 * y
            + np_sum (zip_with Qcmult (<[i:=1]> (replicate (length v) 0)) v)).
    rewrite (IH i Hi). ring.
Qed.

Lemma length_one_hot (n i : nat) : length (one_hot n i) = n.
Proof. unfold one_hot. by rewrite length_insert, length_replicate. Qed.

Lemma get_exp_one_hot (errors : list Qc) (violations : list (list Qc))
    (m i : nat) (e : Qc) (row : list Qc) :
  length violations = length errors →
  Forall (λ r, length r = m) violations →
  errors !! i = Some e → violations !! i = Some row →
  _get_exp_error_rate_constraints (one_hot (length errors) i) errors
    violations
  = Return (e, row).
Proof.
  intros Hlen Hrows He Hrow. unfold _get_exp_error_rate_constraints, np_dot.
  rewrite decide_True by apply length_one_hot.
  cbn [mbind outcome_bind bind].
  rewrite (np_matmul_columns m);
    [|done|by rewrite length_one_hot|by intros ->].
  cbn [mbind outcome_bind bind mret outcome_ret].
  rewrite (dot_one_hot errors i e He). do 2 f_equal.
  rewrite (list_from_lookups row).
  rewrite (proj1 (Forall_forall _ _) Hrows row)
    by (by eapply list_elem_of_lookup_2).
  apply map_ext. intros j. rewrite <- Hlen.
  rewrite <- (length_column j violations).
  apply dot_one_hot. unfold column.
  by rewrite list_lookup_fmap, Hrow.
Qed.

(** A weighted sum with weights that are not negative stays below any
    bound on its terms, scaled by the total weight. *)
Lemma dot_le (p v : list Qc) (c : Qc) :
  length p = length v →
  Forall (λ x, 0 ≤ x) p → Forall (λ y, y ≤ c) v →
  np_sum (zip_with Qcmult p v) ≤ c * np_sum p.
Proof.
  intros Hlen Hp. revert v Hlen.
  induction Hp as [|x p Hx _ IH]; intros [|y v] Hlen Hv; try done.
  - cbn. to_rationals. lra.
  - injection Hlen as Hlen. inversion Hv as [|?? Hy Hv']; subst.
    specialize (IH v Hlen Hv'). cbn [zip_with].
    rewrite !np_sum_cons.
    assert (x * y ≤ c * x) as Hxy.
    { rewrite (Qcmult_comm c x). rewrite !(Qcmult_comm x).
      by apply Qcmult_le_compat_r. }
    to_rationals. lra.
Qed.

Lemma dot_ge (p v : list Qc) (c : Qc) :
  length p = length v →
  Forall (λ x, 0 ≤ x) p → Forall (λ y, c ≤ y) v →
  c * np_sum p ≤ np_sum (zip_with Qcmult p v).
Proof.
  intros Hlen Hp. revert v Hlen.
  induction Hp as [|x p Hx _ IH]; intros [|y v] Hlen Hv; try done.
  - cbn. to_rationals. lra.
  - injection Hlen as Hlen. inversion Hv as [|?? Hy Hv']; subst.
    specialize (IH v Hlen Hv'). cbn [zip_with].
    rewrite !np_sum_cons.
    assert (c * x ≤ x * y) as Hxy.
    { rewrite (Qcmult_comm c x). rewrite !(Qcmult_comm x).
      by apply Qcmult_le_compat_r. }
    to_rationals. lra.
Qed.

(** The expected metrics against bounds on the snapshots, scaled by the
    total weight. *)
Lemma get_exp_scaled_bounds (p errors : list Qc)
    (violations : list (list Qc)) (e : Qc) (vs : list Qc) :
  Forall (λ x, 0 ≤ x) p →
  _get_exp_error_rate_constraints p errors violations = Return (e, vs) →
  (∀ lo hi, Forall (λ x, lo ≤ x ∧ x ≤ hi) errors →
     lo * np_sum p ≤ e ∧ e ≤ hi * np_sum p)
  ∧ (∀ j v c, vs !! j = Some v →
       Forall (λ row, ∀ x, row !! j = Some x → x ≤ c) violations →
       v ≤ c * np_sum p)
  ∧ (∀ j v c, vs !! j = Some v →
       Forall (λ row, ∀ x, row !! j = Some x → c ≤ x) violations →
       c * np_sum p ≤ v).
Proof.
  intros Hpos. unfold _get_exp_error_rate_constraints, np_dot.
  destruct (decide (length p = length errors)) as [Hlen|]; [|done].
  cbn [mbind outcome_bind bind].
  destruct (np_matmul p violations) as [vs'|] eqn:Hmat; [|done].
  cbn [mbind outcome_bind bind mret outcome_ret]. intros [= <- <-].
  split.
  - intros lo hi Hbounds. split.
      apply dot_ge; [done .. |].
      eapply Forall_impl; [exact Hbounds|]. by intros x [? _].
      apply dot_le; [done .. |].
      eapply Forall_impl; [exact Hbounds|]. by intros x [_ ?].
  - assert (∀ j v, vs' !! j = Some v →
            ∃ r rows,
              violations = r :: rows
              ∧ Forall (λ r', length r' = length r) violations
              ∧ (j < length r)%nat
              ∧ length p = length (column j violations)
              ∧ v = np_sum (zip_with Qcmult p (column j violations)))
      as Hentry.
    { intros j v Hv. unfold np_matmul in Hmat.
      destruct (decide (length p = length violations)) as [Hlen'|]; [|done].
      destruct violations as [|r rows] eqn:Hviol.
      { injection Hmat as <-. by rewrite lookup_nil in Hv. }
      destruct (decide (Forall (λ r', length r' = length r) (r :: rows)))
        as [Hrows|]; [|done].
      injection Hmat as <-.
      rewrite (vec_matmul_columns (length r)) in Hv by done.
      rewrite list_lookup_fmap in Hv.
      destruct (seq 0 (length r) !! j) as [j'|] eqn:Hj; [|done].
      apply lookup_seq in Hj as [-> Hj]. injection Hv as <-.
      exists r, rows. split; [done|]. split; [done|]. split; [done|].
      split; [by rewrite length_column | done]. }
    assert (∀ j (P : Qc → Prop),
              (∃ r : list Qc,
                 Forall (λ r', length r' = length r) violations
                 ∧ (j < length r)%nat) →
              Forall (λ row, ∀ x, row !! j = Some x → P x) violations →
              Forall P (column j violations)) as Hcolumn.
    { intros j P (r & Hrows & Hj) Hcol. unfold column. apply Forall_fmap.
      apply Forall_forall. intros row Hrow. cbn.
      pose proof (proj1 (Forall_forall _ _) Hrows row Hrow) as Hlenrow.
      cbn beta in Hlenrow.
      destruct (lookup_lt_is_Some_2 row j) as [x Hx]; [lia|].
      rewrite Hx. cbn.
      by apply (proj1 (Forall_forall _ _) Hcol row Hrow). }
    split.
    + intros j v c Hv Hcol.
      destruct (Hentry j v Hv) as (r & rows & _ & Hrows & Hj & Hlenc & ->).
      apply dot_le; [done .. |].
      apply (Hcolumn j (λ x, x ≤ c)); [by exists r | done].
    + intros j v c Hv Hcol.
      destruct (Hentry j v Hv) as (r & rows & _ & Hrows & Hj & Hlenc & ->).
      apply dot_ge; [done .. |].
      apply (Hcolumn j (λ x, c ≤ x)); [by exists r | done].
Qed.


Lemma get_exp_signs (p errors : list Qc) (violations : list (list Qc))
    (e : Qc) (vs : list Qc) :
  Forall (λ x, 0 ≤ x) p →
  _get_exp_error_rate_constraints p errors violations = Return (e, vs) →
  (Forall (λ x, 0 ≤ x) errors → 0 ≤ e)
  ∧ (∀ j v, vs !! j = Some v →
       Forall (λ row, ∀ x, row !! j = Some x → x ≤ 0) violations →
       v ≤ 0)
  ∧ (∀ j v, vs !! j = Some v →
       Forall (λ row, ∀ x, row !! j = Some x → 0 ≤ x) violations →
       0 ≤ v).
Proof.
  intros Hpos Hexp.
  destruct (get_exp_scaled_bounds p errors violations e vs Hpos Hexp)
    as (Herr & Hupper & Hlower).
  split; [|split].
  - intros Herrors.
    destruct (Herr 0 (np_sum errors + 1)) as [H _].
    + clear -Herrors. induction Herrors as [|x xs Hx Hxs IH];
        constructor.
      * split; [done|]. rewrite np_sum_cons.
        assert (0 ≤ np_sum xs) as Hsum.
        { clear -Hxs. induction Hxs as [|y ys Hy _ IH]; [done|].
          rewrite np_sum_cons. to_rationals. lra. }
        to_rationals. lra.
      * eapply Forall_impl; [exact IH|]. intros y [Hy0 Hy1].
        split; [done|]. rewrite np_sum_cons. to_rationals. lra.
    + by rewrite Qcmult_0_l in H.
  - intros j v Hv Hcol. specialize (Hupper j v 0 Hv Hcol).
    by rewrite Qcmult_0_l in Hupper.
  - intros j v Hv Hcol. specialize (Hlower j v 0 Hv Hcol).
    by rewrite Qcmult_0_l in Hlower.
Qed.

End Expectations.

(** X10. A distribution that puts all its weight on one snapshot has the
    metrics of that snapshot: for a vector of errors and a matrix of
    violations with one row of equal length for each error,
    [_get_exp_error_rate_constraints] returns the error and the row of
    violations of snapshot [i], which are the numbers the cell for one
    iterate prints. *)
Theorem point_distribution_has_the_metrics_of_its_snapshot
    (errors : list Qc) (violations : list (list Qc)) (m i : nat)
    (e : Qc) (row : list Qc) :
  length violations = length errors →
  Forall (λ r, length r = m) violations →
  errors !! i = Some e → violations !! i = Some row →
  FairnessNotebook._get_exp_error_rate_constraints
    (one_hot (length errors) i) errors violations
  = Return (e, row)
  ∧ (row ≠ [] →
     ∃ worst,
       Training.iterate_report errors violations (Z.of_nat i)
       = Return (e, worst)
       ∧ Training.m_stochastic_report (one_hot (length errors) i) errors
           violations
         = Return (e, worst)).
Proof.
  intros Hlen Hrows He Hrow.
  pose proof (get_exp_one_hot errors violations m i e row Hlen Hrows
                He Hrow) as Hexp.
  split; [done|]. intros Hne.
  destruct row as [|x row]; [done|].
  exists (foldl maximum x row).
  unfold Training.iterate_report, Training.m_stochastic_report.
  rewrite Hexp. unfold Training.py_index.
  rewrite !decide_True by lia. cbn [mbind option_bind].
  rewrite Nat2Z.id, He, Hrow. done.
Qed.

Lemma point_distribution_has_the_metrics_of_its_snapshot_witness :
  FairnessNotebook._get_exp_error_rate_constraints
    (one_hot 3 1) example_errors example_violations
  = Return (dec 0.2, [dec (-0.01)]).
Proof.
  destruct (point_distribution_has_the_metrics_of_its_snapshot
              example_errors example_violations 1 1
              (dec 0.2) [dec (-0.01)]) as [Hexp _].
  - reflexivity.
  - by repeat constructor.
  - reflexivity.
  - reflexivity.
  - exact Hexp.
Defined.

(** X11. The expected metrics of a randomized classifier keep the sign
    that all its snapshots share: when no weight of [cand_dist] is
    negative and [_get_exp_error_rate_constraints] returns, the expected
    error is not negative if no snapshot's error is, and the expected
    violation of a constraint is at most 0 when every snapshot's violation
    of that constraint is, and at least 0 when every snapshot's is. A
    constraint that every snapshot satisfies is satisfied in
    expectation. *)
Theorem expected_metrics_keep_the_sign_of_the_snapshots
    (cand_dist errors : list Qc) (violations : list (list Qc))
    (e : Qc) (vs : list Qc) :
  Forall (λ x, 0 ≤ x) cand_dist →
  FairnessNotebook._get_exp_error_rate_constraints cand_dist errors
    violations = Return (e, vs) →
  (Forall (λ x, 0 ≤ x) errors → 0 ≤ e)
  ∧ (∀ j v, vs !! j = Some v →
       Forall (λ row, ∀ x, row !! j = Some x → x ≤ 0) violations →
       v ≤ 0)
  ∧ (∀ j v, vs !! j = Some v →
       Forall (λ row, ∀ x, row !! j = Some x → 0 ≤ x) violations →
       0 ≤ v).
Proof. apply get_exp_signs. Qed.

Lemma expected_metrics_keep_the_sign_of_the_snapshots_witness :
  0 ≤ dec (2 # 3) ∧ dec (-2 # 3) ≤ 0.
Proof.
  destruct (expected_metrics_keep_the_sign_of_the_snapshots
              tradeoff_best slack_errors slack_violations
              (dec (2 # 3)) [dec (-2 # 3)]) as (Herr & Hupper & _).
  - by repeat constructor.
  - pair_by_evaluation.
  - split.
    + apply Herr. by repeat constructor.
    + apply (Hupper 0%nat); [reflexivity|].
      repeat constructor; intros x [= <-]; by vm_compute.
Defined.

(** ** The history [training_helper] records *)

Section History.

Import FairnessNotebook Training.

Lemma set_predictions_Return (df df' : list row) (values : list Qc) :
  set_predictions df values = Return df' →
  length values = length df
  ∧ length df' = length df
  ∧ ∀ i r', df' !! i = Some r' →
      ∃ r p, df !! i = Some r ∧ values !! i = Some p
             ∧ predictions r' = p ∧ label r' = label r
             ∧ protected r' = protected r.
Proof.
  unfold set_predictions.
  destruct (decide (length values = length df)) as [Hlen|]; [|done].
  intros [= <-]. split; [done|]. split.
  { rewrite length_zip_with. lia. }
  intros i r' Hr'. apply lookup_zip_with_Some in Hr'.
  destruct Hr' as (r & p & -> & Hr & Hp). by exists r, p.
Qed.

(** Writing the predictions column replaces what was written before. *)
Lemma set_predictions_overwrites (df df1 : DataFrame) (a b : list Qc) :
  set_predictions df a = Return df1 →
  set_predictions df1 b = set_predictions df b.
Proof.
  unfold set_predictions.
  destruct (decide (length a = length df)) as [Hlen|]; [|done].
  intros [= <-]. rewrite length_zip_with.
  replace (length df `min` length a)%nat with (length df) by lia.
  destruct (decide (length b = length df)) as [Hb|]; [|done].
  f_equal. clear Hb. revert a b Hlen.
  induction df as [|r df IH]; intros [|x a] [|y b] Hlen; try done.
  cbn [zip_with]. f_equal. apply IH. simpl in Hlen. lia.
Qed.

Lemma set_predictions_positive_member (a : protected_column)
    (df df' : DataFrame) (values : list Qc) :
  set_predictions df values = Return df' →
  has_positive_member a df' ↔ has_positive_member a df.
Proof.
  intros Hset.
  destruct (set_predictions_Return df df' values Hset)
    as (Hlen & Hlen' & Hrows).
  split.
  - intros (r' & Hr' & Hl & Ha).
    apply list_elem_of_lookup in Hr' as [i Hi].
    destruct (Hrows i r' Hi) as (r & p & Hr & _ & _ & Hlabel & Hprot).
    exists r. split; [by eapply list_elem_of_lookup_2|].
    by rewrite <- Hlabel, <- Hprot.
  - intros (r & Hr & Hl & Ha).
    apply list_elem_of_lookup in Hr as [i Hi].
    destruct (lookup_lt_is_Some_2 df' i) as [r' Hr'].
    { rewrite Hlen'. by eapply lookup_lt_Some. }
    destruct (Hrows i r' Hr') as (r0 & p & Hr0 & _ & _ & Hlabel & Hprot).
    rewrite Hi in Hr0. injection Hr0 as <-.
    exists r'. split; [by eapply list_elem_of_lookup_2|].
    by rewrite Hlabel, Hprot.
Qed.

Lemma history_of_snoc (h : history) r rs :
  {| train_error_rate_vector :=
       (train_error_rate_vector h ++ [r.1.1]) ++ map (λ r, r.1.1) rs;
     train_constraints_matrix :=
       (train_constraints_matrix h ++ [r.1.2]) ++ map (λ r, r.1.2) rs;
     test_error_rate_vector :=
       (test_error_rate_vector h ++ [r.2.1]) ++ map (λ r, r.2.1) rs;
     test_constraints_matrix :=
       (test_constraints_matrix h ++ [r.2.2]) ++ map (λ r, r.2.2) rs |}
  = {| train_error_rate_vector :=
         train_error_rate_vector h ++ map (λ r, r.1.1) (r :: rs);
       train_constraints_matrix :=
         train_constraints_matrix h ++ map (λ r, r.1.2) (r :: rs);
       test_error_rate_vector :=
         test_error_rate_vector h ++ map (λ r, r.2.1) (r :: rs);
       test_constraints_matrix :=
         test_constraints_matrix h ++ map (λ r, r.2.2) (r :: rs) |}.
Proof. cbn [map]. by rewrite <- !app_assoc. Qed.

Lemma record_epoch_unfold (d : Qc) (tdf sdf : DataFrame) (h : history) y :
  record_epoch d (tdf, sdf, h) y
  = (train_df ← set_predictions tdf y.1;
     test_df ← set_predictions sdf y.2;
     train ← _get_error_rate_and_constraints train_df d;
     test ← _get_error_rate_and_constraints test_df d;
     mret (train_df, test_df,
           {| train_error_rate_vector :=
                train_error_rate_vector h ++ [train.1];
              train_constraints_matrix :=
                train_constraints_matrix h ++ [train.2];
              test_error_rate_vector := test_error_rate_vector h ++ [test.1];
              test_constraints_matrix :=
                test_constraints_matrix h ++ [test.2] |})).
Proof. done. Qed.

Lemma epoch_metrics_unfold (train_df test_df : DataFrame) (d : Qc) y :
  epoch_metrics train_df test_df d y
  = (train_df ← set_predictions train_df y.1;
     test_df ← set_predictions test_df y.2;
     train ← _get_error_rate_and_constraints train_df d;
     test ← _get_error_rate_and_constraints test_df d;
     mret (train, test)).
Proof. done. Qed.

(** The loop of [training_helper] from any point on: the frames hold the
    predictions of the epoch before, which the next epoch replaces. *)
Lemma record_epochs (d : Qc) (train_df test_df : DataFrame)
    (yields : list (list Qc * list Qc)) :
  ∀ (tdf sdf : DataFrame) (h : history),
    (∀ b, set_predictions tdf b = set_predictions train_df b) →
    (∀ b, set_predictions sdf b = set_predictions test_df b) →
    (st ← Preprocessing.for_each (record_epoch d) yields (tdf, sdf, h);
     mret st.2)
    = (rs ← mapM (epoch_metrics train_df test_df d) yields;
       mret {| train_error_rate_vector :=
                 train_error_rate_vector h ++ map (λ r, r.1.1) rs;
               train_constraints_matrix :=
                 train_constraints_matrix h ++ map (λ r, r.1.2) rs;
               test_error_rate_vector :=
                 test_error_rate_vector h ++ map (λ r, r.2.1) rs;
               test_constraints_matrix :=
                 test_constraints_matrix h ++ map (λ r, r.2.2) rs |}).
Proof.
  induction yields as [|y yields IH]; intros tdf sdf h Htdf Hsdf.
  - cbn. destruct h. cbn. by rewrite !app_nil_r.
  - cbn [Preprocessing.for_each mapM].
    rewrite record_epoch_unfold, epoch_metrics_unfold.
    rewrite Htdf.
    destruct (set_predictions train_df y.1) as [tdf'|] eqn:Ht; [|done].
    cbn [mbind outcome_bind bind]. rewrite Hsdf.
    destruct (set_predictions test_df y.2) as [sdf'|] eqn:Hs; [|done].
    cbn [mbind outcome_bind bind].
    destruct (_get_error_rate_and_constraints tdf' d) as [train|]; [|done].
    cbn [mbind outcome_bind bind].
    destruct (_get_error_rate_and_constraints sdf' d) as [test|]; [|done].
    cbn [mbind outcome_bind bind mret outcome_ret].
    rewrite IH.
    + destruct (mapM (epoch_metrics train_df test_df d) yields) as [rs|];
        [|done].
      cbn [mbind outcome_bind bind mret outcome_ret].
      cbn [train_error_rate_vector train_constraints_matrix
           test_error_rate_vector test_constraints_matrix].
      f_equal. apply (history_of_snoc h (train, test) rs).
    + intros b. by apply (set_predictions_overwrites train_df _ y.1).
    + intros b. by apply (set_predictions_overwrites test_df _ y.2).
Qed.

Lemma training_helper_epochs (yields : list (list Qc * list Qc))
    (train_df test_df : DataFrame) (d : Qc) :
  training_helper yields train_df test_df d
  = (rs ← mapM (epoch_metrics train_df test_df d) yields;
     mret (history_of rs)).
Proof.
  unfold training_helper.
  by rewrite (record_epochs d train_df test_df yields).
Qed.

(** What one epoch contributes, when it contributes anything. *)
Lemma epoch_metrics_bounds (train_df test_df : DataFrame) (d : Qc) y r :
  epoch_metrics train_df test_df d y = Return r →
  (0 ≤ r.1.1 ∧ r.1.1 ≤ 1
   ∧ length r.1.2 = length PROTECTED_COLUMNS
   ∧ Forall (λ v, -1 - d ≤ v ∧ v ≤ 1 - d) r.1.2)
  ∧ (0 ≤ r.2.1 ∧ r.2.1 ≤ 1
     ∧ length r.2.2 = length PROTECTED_COLUMNS
     ∧ Forall (λ v, -1 - d ≤ v ∧ v ≤ 1 - d) r.2.2).
Proof.
  unfold epoch_metrics.
  destruct (set_predictions train_df y.1) as [tdf|]; [|done].
  cbn [mbind outcome_bind bind].
  destruct (set_predictions test_df y.2) as [sdf|]; [|done].
  cbn [mbind outcome_bind bind].
  destruct (get_error_rate_and_constraints_cases tdf d)
    as [[_ ->]|[_ (e & vs & -> & Hlen & He0 & He1 & Hvs)]]; [done|].
  cbn [mbind outcome_bind bind].
  destruct (get_error_rate_and_constraints_cases sdf d)
    as [[_ ->]|[_ (e' & vs' & -> & Hlen' & He0' & He1' & Hvs')]]; [done|].
  cbn [mbind outcome_bind bind mret outcome_ret]. intros [= <-].
  by cbn.
Qed.

Lemma epoch_metrics_Return (train_df test_df : DataFrame) (d : Qc) y :
  length y.1 = length train_df → length y.2 = length test_df →
  (∀ a, a ∈ PROTECTED_COLUMNS →
        has_positive_member a train_df ∧ has_positive_member a test_df) →
  ∃ r, epoch_metrics train_df test_df d y = Return r.
Proof.
  intros Ht Hs Hpos. unfold epoch_metrics.
  destruct (set_predictions train_df y.1) as [tdf|] eqn:Htdf.
  2:{ unfold set_predictions in Htdf. by rewrite decide_True in Htdf. }
  destruct (set_predictions test_df y.2) as [sdf|] eqn:Hsdf.
  2:{ unfold set_predictions in Hsdf. by rewrite decide_True in Hsdf. }
  cbn [mbind outcome_bind bind].
  destruct (get_error_rate_and_constraints_cases tdf d)
    as [[(a & Ha & Hno) _]|[_ (e & vs & -> & _)]].
  { exfalso. apply Hno.
    apply (set_predictions_positive_member a _ _ _ Htdf).
    by apply Hpos. }
  cbn [mbind outcome_bind bind].
  destruct (get_error_rate_and_constraints_cases sdf d)
    as [[(a & Ha & Hno) _]|[_ (e' & vs' & -> & _)]].
  { exfalso. apply Hno.
    apply (set_predictions_positive_member a _ _ _ Hsdf).
    by apply Hpos. }
  by eexists.
Qed.

Lemma epoch_metrics_Raise (train_df test_df : DataFrame) (d : Qc) y a :
  length y.1 = length train_df → length y.2 = length test_df →
  a ∈ PROTECTED_COLUMNS →
  ¬ has_positive_member a train_df ∨ ¬ has_positive_member a test_df →
  epoch_metrics train_df test_df d y = Raise "ZeroDivisionError".
Proof.
  intros Ht Hs Ha Hno. unfold epoch_metrics.
  destruct (set_predictions train_df y.1) as [tdf|] eqn:Htdf.
  2:{ unfold set_predictions in Htdf. by rewrite decide_True in Htdf. }
  destruct (set_predictions test_df y.2) as [sdf|] eqn:Hsdf.
  2:{ unfold set_predictions in Hsdf. by rewrite decide_True in Hsdf. }
  cbn [mbind outcome_bind bind].
  destruct (get_error_rate_and_constraints_cases tdf d)
    as [[_ ->]|[Hall (e & vs & -> & _)]]; [done|].
  cbn [mbind outcome_bind bind].
  destruct (get_error_rate_and_constraints_cases sdf d)
    as [[_ ->]|[Hall' _]]; [done|].
  exfalso. destruct Hno as [Hno|Hno]; apply Hno.
  - apply (set_predictions_positive_member a _ _ _ Htdf). by apply Hall.
  - apply (set_predictions_positive_member a _ _ _ Hsdf). by apply Hall'.
Qed.

Lemma mapM_Return_inv {A B} (f : A → outcome B) (P : B → Prop)
    (xs : list A) (ys : list B) :
  mapM f xs = Return ys → (∀ x y, f x = Return y → P y) →
  length ys = length xs ∧ Forall P ys.
Proof.
  intros Hys HP. apply mapM_Return_lookup in Hys.
  split; [symmetry; by eapply Forall2_length|].
  induction Hys as [|x y xs ys Hxy _ IH]; constructor; eauto.
Qed.

Lemma training_helper_history (yields : list (list Qc * list Qc))
    (train_df test_df : DataFrame) (d : Qc) (h : history) :
  training_helper yields train_df test_df d = Return h →
  (length (train_error_rate_vector h) = length yields
   ∧ length (train_constraints_matrix h) = length yields
   ∧ length (test_error_rate_vector h) = length yields
   ∧ length (test_constraints_matrix h) = length yields)
  ∧ Forall (λ e, 0 ≤ e ∧ e ≤ 1)
      (train_error_rate_vector h ++ test_error_rate_vector h)
  ∧ Forall (λ vs, length vs = length PROTECTED_COLUMNS
                  ∧ Forall (λ v, -1 - d ≤ v ∧ v ≤ 1 - d) vs)
      (train_constraints_matrix h ++ test_constraints_matrix h).
Proof.
  rewrite training_helper_epochs.
  destruct (mapM (epoch_metrics train_df test_df d) yields) as [rs|] eqn:Hrs;
    [|done].
  cbn [mbind outcome_bind bind mret outcome_ret]. intros [= <-].
  destruct (mapM_Return_inv _ _ _ _ Hrs
              (epoch_metrics_bounds train_df test_df d)) as [Hlen Hall].
  unfold history_of.
  cbn [train_error_rate_vector train_constraints_matrix
       test_error_rate_vector test_constraints_matrix].
  rewrite !length_map. split; [done|]. split.
  - apply Forall_app. split; apply Forall_fmap;
      (eapply Forall_impl; [exact Hall|]); intros r; cbn; tauto.
  - apply Forall_app. split; apply Forall_fmap;
      (eapply Forall_impl; [exact Hall|]); intros r; cbn; tauto.
Qed.

Lemma training_helper_Return (yields : list (list Qc * list Qc))
    (train_df test_df : DataFrame) (d : Qc) :
  Forall (λ y, length y.1 = length train_df ∧ length y.2 = length test_df)
    yields →
  (∀ a, a ∈ PROTECTED_COLUMNS →
        has_positive_member a train_df ∧ has_positive_member a test_df) →
  ∃ h, training_helper yields train_df test_df d = Return h.
Proof.
  intros Hlen Hpos. rewrite training_helper_epochs.
  destruct (mapM_Return_Forall (epoch_metrics train_df test_df d)
              (λ _, True) yields) as (rs & -> & _).
  - eapply Forall_impl; [exact Hlen|]. intros y [Ht Hs].
    destruct (epoch_metrics_Return train_df test_df d y Ht Hs Hpos)
      as [r Hr].
    by exists r.
  - by eexists.
Qed.

End History.

Section Reports.

Import FairnessNotebook Training.

Lemma py_index_in_range {A} (xs : list A) (i : Z) :
  (- Z.of_nat (length xs) ≤ i < Z.of_nat (length xs))%Z →
  ∃ x, py_index xs i = Return x ∧ x ∈ xs.
Proof.
  intros Hi. unfold py_index.
  destruct (decide (0 ≤ i)%Z) as [Hnonneg|Hneg].
  - cbn. destruct (lookup_lt_is_Some_2 xs (Z.to_nat i)) as [x Hx]; [lia|].
    rewrite Hx. exists x. split; [done|]. by eapply list_elem_of_lookup_2.
  - rewrite decide_True by lia. cbn.
    destruct (lookup_lt_is_Some_2 xs (Z.to_nat (Z.of_nat (length xs) + i)))
      as [x Hx]; [lia|].
    rewrite Hx. exists x. split; [done|]. by eapply list_elem_of_lookup_2.
Qed.

Lemma py_max_Return (xs : list Qc) :
  xs ≠ [] → ∃ w, py_max xs = Return w ∧ w ∈ xs.
Proof.
  intros Hne. destruct xs as [|x xs]; [done|].
  eexists. split; [reflexivity|]. by apply py_max_elem.
Qed.

Lemma iterate_report_in_range (errors : list Qc)
    (violations : list (list Qc)) (index : Z) (P : Qc → Prop)
    (Q : Qc → Prop) :
  length violations = length errors →
  Forall P errors → Forall (λ row, row ≠ [] ∧ Forall Q row) violations →
  (- Z.of_nat (length errors) ≤ index < Z.of_nat (length errors))%Z →
  ∃ e v, iterate_report errors violations index = Return (e, v)
         ∧ P e ∧ Q v.
Proof.
  intros Hlen HP HQ Hindex. unfold iterate_report.
  destruct (py_index_in_range errors index Hindex) as (e & -> & He).
  destruct (py_index_in_range violations index) as (row & -> & Hrow);
    [lia|].
  cbn [mbind outcome_bind bind].
  destruct (proj1 (Forall_forall _ _) HQ row Hrow) as [Hne Hall].
  destruct (py_max_Return row Hne) as (v & -> & Hv).
  exists e, v. split; [done|]. split.
  - by apply (proj1 (Forall_forall _ _) HP).
  - by apply (proj1 (Forall_forall _ _) Hall).
Qed.

Lemma nonempty_of_length {A} (xs : list A) (n : nat) :
  length xs = S n → xs ≠ [].
Proof. by destruct xs. Qed.

Lemma history_reports (yields : list (list Qc * list Qc))
    (train_df test_df : DataFrame) (d : Qc) (h : history) (index : Z) :
  training_helper yields train_df test_df d = Return h →
  (- Z.of_nat (length yields) ≤ index < Z.of_nat (length yields))%Z →
  (∃ e v,
     iterate_report (train_error_rate_vector h) (train_constraints_matrix h)
       index = Return (e, v)
     ∧ (0 ≤ e ∧ e ≤ 1) ∧ (-1 - d ≤ v ∧ v ≤ 1 - d))
  ∧ (∃ e v,
       iterate_report (test_error_rate_vector h) (test_constraints_matrix h)
         index = Return (e, v)
       ∧ (0 ≤ e ∧ e ≤ 1) ∧ (-1 - d ≤ v ∧ v ≤ 1 - d)).
Proof.
  intros Hh Hindex.
  destruct (training_helper_history _ _ _ _ _ Hh)
    as ((Hl1 & Hl2 & Hl3 & Hl4) & Herr & Hvio).
  apply Forall_app in Herr as [Herr1 Herr2].
  apply Forall_app in Hvio as [Hvio1 Hvio2].
  split.
  - apply iterate_report_in_range; [congruence|done| |lia].
    eapply Forall_impl; [exact Hvio1|]. intros row [Hlen Hrow].
    split; [|done]. by apply (nonempty_of_length row 3).
  - apply iterate_report_in_range; [congruence|done| |lia].
    eapply Forall_impl; [exact Hvio2|]. intros row [Hlen Hrow].
    split; [|done]. by apply (nonempty_of_length row 3).
Qed.

Lemma history_of_no_epoch (train_df test_df : DataFrame) (d : Qc)
    (h : history) :
  training_helper [] train_df test_df d = Return h →
  iterate_report (train_error_rate_vector h) (train_constraints_matrix h)
    (-1) = Raise "IndexError"
  ∧ iterate_report (test_error_rate_vector h) (test_constraints_matrix h)
      (-1) = Raise "IndexError".
Proof. by intros [= <-]. Qed.


Lemma training_helper_Raise (y : list Qc * list Qc)
    (yields : list (list Qc * list Qc)) (train_df test_df : DataFrame)
    (d : Qc) (a : protected_column) :
  length y.1 = length train_df → length y.2 = length test_df →
  a ∈ PROTECTED_COLUMNS →
  ¬ has_positive_member a train_df ∨ ¬ has_positive_member a test_df →
  training_helper (y :: yields) train_df test_df d
  = Raise "ZeroDivisionError".
Proof.
  intros Ht Hs Ha Hno. rewrite training_helper_epochs. cbn [mapM].
  by rewrite (epoch_metrics_Raise train_df test_df d y a).
Qed.

Lemma two_rows_positive_members (a : protected_column) :
  has_positive_member a two_rows.
Proof.
  exists (make_row 1 1 1 1 1 1). split; [apply list_elem_of_here|].
  split; [done|]. by destruct a.
Qed.

End Reports.

(** X13. [training_helper] overwrites the predictions column of the two
    frames at every epoch. What it records for an epoch, or the exception
    it ends in, is what the metrics give when the predictions of that
    epoch alone are written into the frames as they were passed in: the
    predictions that earlier epochs left in the frames have no influence,
    and the history is the list of these results, one for each epoch in
    order. *)
Theorem training_helper_evaluates_each_epoch_on_its_own
    (yields : list (list Qc * list Qc))
    (train_df test_df : FairnessNotebook.DataFrame) (tpr_max_diff : Qc) :
  Training.training_helper yields train_df test_df tpr_max_diff
  = (rs ← mapM (epoch_metrics train_df test_df tpr_max_diff) yields;
     mret (history_of rs)).
Proof. apply training_helper_epochs. Qed.

(** X14. When the predictions of every epoch have one entry for each row
    of their frame, and every protected group has a positively-labelled
    row in both frames, [training_helper] returns. Each of the four lists
    it returns has one entry for each epoch; every error rate lies between
    0 and 1; every row of violations has one entry for each protected
    column, between [-1 - tpr_max_diff] and [1 - tpr_max_diff]. *)
Theorem training_helper_returns_one_entry_for_each_epoch
    (yields : list (list Qc * list Qc))
    (train_df test_df : FairnessNotebook.DataFrame) (tpr_max_diff : Qc) :
  Forall (λ y, length y.1 = length train_df ∧ length y.2 = length test_df)
    yields →
  (∀ a, a ∈ FairnessNotebook.PROTECTED_COLUMNS →
        has_positive_member a train_df ∧ has_positive_member a test_df) →
  ∃ h,
    Training.training_helper yields train_df test_df tpr_max_diff = Return h
    ∧ (length (Training.train_error_rate_vector h) = length yields
       ∧ length (Training.train_constraints_matrix h) = length yields
       ∧ length (Training.test_error_rate_vector h) = length yields
       ∧ length (Training.test_constraints_matrix h) = length yields)
    ∧ Forall (λ e, 0 ≤ e ∧ e ≤ 1)
        (Training.train_error_rate_vector h
         ++ Training.test_error_rate_vector h)
    ∧ Forall (λ vs, length vs = length FairnessNotebook.PROTECTED_COLUMNS
                    ∧ Forall (λ v, -1 - tpr_max_diff ≤ v
                                   ∧ v ≤ 1 - tpr_max_diff) vs)
        (Training.train_constraints_matrix h
         ++ Training.test_constraints_matrix h).
Proof.
  intros Hlen Hpos.
  destruct (training_helper_Return yields train_df test_df tpr_max_diff
              Hlen Hpos) as [h Hh].
  exists h. split; [done|].
  exact (training_helper_history yields train_df test_df tpr_max_diff h Hh).
Qed.

Lemma training_helper_returns_one_entry_for_each_epoch_witness :
  ∃ h,
    Training.training_helper [([1; -1], [-1; 1]); ([1; 1], [1; 1])]
      two_rows two_rows (dec 0.05) = Return h
    ∧ length (Training.train_error_rate_vector h) = 2%nat.
Proof.
  destruct (training_helper_returns_one_entry_for_each_epoch
              [([1; -1], [-1; 1]); ([1; 1], [1; 1])]
              two_rows two_rows (dec 0.05))
    as (h & Hh & (Hlen & _) & _).
  - by repeat constructor.
  - intros a _. split; apply two_rows_positive_members.
  - exists h. split; [exact Hh | exact Hlen].
Defined.

(** X15. When a protected group has no positively-labelled row in the
    training frame or in the test frame, [training_helper] ends in
    ZeroDivisionError at the first epoch (whose predictions fit the
    frames), whatever the predictions are. *)
Theorem training_helper_fails_on_a_group_without_positives
    (y : list Qc * list Qc) (yields : list (list Qc * list Qc))
    (train_df test_df : FairnessNotebook.DataFrame) (tpr_max_diff : Qc)
    (a : FairnessNotebook.protected_column) :
  length y.1 = length train_df → length y.2 = length test_df →
  a ∈ FairnessNotebook.PROTECTED_COLUMNS →
  ¬ has_positive_member a train_df ∨ ¬ has_positive_member a test_df →
  Training.training_helper (y :: yields) train_df test_df tpr_max_diff
  = Raise "ZeroDivisionError".
Proof. apply training_helper_Raise. Qed.

Lemma training_helper_fails_on_a_group_without_positives_witness :
  Training.training_helper [([1; -1], [1; -1; 1])] two_rows other_rows
    (dec 0.05)
  = Raise "ZeroDivisionError".
Proof.
  apply (training_helper_fails_on_a_group_without_positives
           _ _ _ _ _ FairnessNotebook.gender_Female).
  - reflexivity.
  - reflexivity.
  - by repeat constructor.
  - right. intros (r & Hr & _ & Ha).
    repeat (apply elem_of_cons in Hr as [->|Hr]);
      [| | |by apply elem_of_nil in Hr]; by vm_compute in Ha.
Defined.

(** X16. The cells that print one iterate, on a history that
    [training_helper] has returned: for an index from [-n] to [n - 1], [n]
    being the number of epochs, [errors[index]] and
    [max(violations[index])] are defined for the training and for the test
    history, the error between 0 and 1 and the largest violation between
    [-1 - tpr_max_diff] and [1 - tpr_max_diff]; so the last iterate (index
    -1) is printed whenever there was an epoch. With no epoch at all the
    cell of the last iterate ends in IndexError. *)
Theorem iterate_cells_on_a_returned_history
    (yields : list (list Qc * list Qc))
    (train_df test_df : FairnessNotebook.DataFrame) (tpr_max_diff : Qc)
    (h : Training.history) :
  Training.training_helper yields train_df test_df tpr_max_diff = Return h →
  (∀ index : Z,
     (- Z.of_nat (length yields) ≤ index < Z.of_nat (length yields))%Z →
     (∃ e v,
        Training.iterate_report (Training.train_error_rate_vector h)
          (Training.train_constraints_matrix h) index = Return (e, v)
        ∧ (0 ≤ e ∧ e ≤ 1)
        ∧ (-1 - tpr_max_diff ≤ v ∧ v ≤ 1 - tpr_max_diff))
     ∧ (∃ e v,
          Training.iterate_report (Training.test_error_rate_vector h)
            (Training.test_constraints_matrix h) index = Return (e, v)
          ∧ (0 ≤ e ∧ e ≤ 1)
          ∧ (-1 - tpr_max_diff ≤ v ∧ v ≤ 1 - tpr_max_diff)))
  ∧ (yields = [] →
     Training.iterate_report (Training.train_error_rate_vector h)
       (Training.train_constraints_matrix h) (-1) = Raise "IndexError"
     ∧ Training.iterate_report (Training.test_error_rate_vector h)
         (Training.test_constraints_matrix h) (-1) = Raise "IndexError").
Proof.
  intros Hh. split.
  - intros index.
    exact (history_reports yields train_df test_df tpr_max_diff h index Hh).
  - intros ->. by apply (history_of_no_epoch train_df test_df tpr_max_diff).
Qed.

Lemma iterate_cells_on_a_returned_history_witness :
  ∃ h e v,
    Training.training_helper [([1; -1], [-1; 1]); ([1; 1], [1; 1])]
      two_rows two_rows (dec 0.05) = Return h
    ∧ Training.iterate_report (Training.train_error_rate_vector h)
        (Training.train_constraints_matrix h) (-1) = Return (e, v).
Proof.
  destruct (training_helper_Return
              [([1; -1], [-1; 1]); ([1; 1], [1; 1])]
              two_rows two_rows (dec 0.05)) as [h Hh].
  - by repeat constructor.
  - intros a _. split; apply two_rows_positive_members.
  - destruct (iterate_cells_on_a_returned_history _ _ _ _ h Hh)
      as [Hreports _].
    destruct (Hreports (-1)%Z) as [(e & v & Hreport & _) _].
    + simpl. lia.
    + exists h, e, v. split; [exact Hh | exact Hreport].
Defined.



(** ** The recall-constrained problem *)

Section RecallProblem.

Import RecallNotebook RecallData.

Lemma Qcmult_le_l (l a b : Qc) : 0 ≤ l → a ≤ b → l * a ≤ l * b.
Proof.
  intros Hl Hab. rewrite !(Qcmult_comm l). by apply Qcmult_le_compat_r.
Qed.

Lemma Qcdiv_le_r (a b n : Qc) : 0 < n → a ≤ b → a / n ≤ b / n.
Proof.
  intros Hn Hab. apply Qcdiv_le_cross; [done .. |].
  apply Qcmult_le_compat_r; [done | by apply Qclt_le_weak].
Qed.

Lemma bound_minus_le (b x y : Qc) :
  x ≤ y → b - y ≤ b - x ∧ (b - x ≤ 0 → b - y ≤ 0).
Proof. intros Hle. split; [|intros H]; to_rationals; lra. Qed.

(** The hinge approximation of an indicator never exceeds it. *)
Lemma minimum_le_indicator (p : Qc) :
  minimum 1 p ≤ to_float (bool_decide (0 < p)).
Proof.
  unfold minimum. destruct (decide (1 ≤ p)) as [H1|H1].
  - rewrite bool_decide_eq_true_2; [apply Qcle_refl|].
    apply Qclt_le_trans with 1; [done|done].
  - apply Qcnot_le_lt in H1.
    destruct (decide (0 < p)) as [H0|H0].
    + rewrite bool_decide_eq_true_2 by done. by apply Qclt_le_weak.
    + rewrite bool_decide_eq_false_2 by done. by apply Qcnot_lt_le.
Qed.

Lemma np_sum_le {A B} (f g : A → B → Qc) (xs : list A) (ys : list B) :
  (∀ x y, x ∈ xs → f x y ≤ g x y) →
  np_sum (zip_with f xs ys) ≤ np_sum (zip_with g xs ys).
Proof.
  revert ys. induction xs as [|x xs IH]; intros [|y ys] Hfg;
    try apply Qcle_refl.
  cbn [zip_with]. rewrite !np_sum_cons.
  apply Qcplus_le_compat.
  - apply Hfg, list_elem_of_here.
  - apply IH. intros x' y' Hx'. by apply Hfg, list_elem_of_further.
Qed.

Lemma constraints_values (self : ExampleProblem) :
  length (_labels self) = length (_predictions self) →
  _positive_count self ≠ 0 →
  ExampleProblem_constraints self
  = Return [Finite (_recall_lower_bound self
                    - np_sum (zip_with
                                (λ l p, l * to_float (bool_decide (0 < p)))
                                (_labels self) (_predictions self))
                      / _positive_count self)]
  ∧ ExampleProblem_proxy_constraints self
    = Return [Finite (_recall_lower_bound self
                      - np_sum (zip_with (λ l p, l * minimum 1 p)
                                  (_labels self) (_predictions self))
                        / _positive_count self)].
Proof.
  intros Hlen Hpos.
  unfold ExampleProblem_constraints, ExampleProblem_proxy_constraints.
  rewrite !broadcast_same_length by done.
  cbn [mbind outcome_bind bind mret outcome_ret].
  unfold np_divide. by rewrite !decide_False by done.
Qed.

Lemma proxy_bounds_constraint (self : ExampleProblem) :
  length (_labels self) = length (_predictions self) →
  Forall (λ l, 0 ≤ l) (_labels self) →
  0 < _positive_count self →
  ∃ c c',
    ExampleProblem_constraints self = Return [Finite c]
    ∧ ExampleProblem_proxy_constraints self = Return [Finite c']
    ∧ c ≤ c' ∧ (c' ≤ 0 → c ≤ 0).
Proof.
  intros Hlen Hlabels Hpos.
  destruct (constraints_values self Hlen) as [-> ->].
  { by apply not_eq_sym, Qclt_not_eq. }
  eexists _, _. split; [done|]. split; [done|].
  assert (np_sum (zip_with (λ l p, l * minimum 1 p)
                    (_labels self) (_predictions self))
            / _positive_count self
          ≤ np_sum (zip_with (λ l p, l * to_float (bool_decide (0 < p)))
                      (_labels self) (_predictions self))
            / _positive_count self) as Hle.
  { apply Qcdiv_le_r; [done|]. apply np_sum_le. intros l p Hl.
    apply Qcmult_le_l; [|apply minimum_le_indicator].
    by apply (proj1 (Forall_forall _ _) Hlabels). }
  by apply bound_minus_le.
Qed.

(** The two ways the notebook writes the hinge loss. *)
Lemma hinge_losses (ls ps : list Qc) :
  zip_with (λ l p, maximum 0 (1 - (2 * l - 1) * p)) ls ps
  = map (λ m, maximum 0 (1 - m))
        (zip_with Qcmult (map (λ l, l * 2 - 1) ls) ps).
Proof.
  revert ps. induction ls as [|l ls IH]; intros [|p ps]; try done.
  cbn [map zip_with]. rewrite IH. do 3 f_equal. ring.
Qed.

Lemma objective_average_hinge_loss (self : ExampleProblem) :
  length (_labels self) = length (_predictions self) →
  _labels self ≠ [] →
  ExampleProblem_objective self
  = (loss ← average_hinge_loss (_labels self) (_predictions self);
     mret [loss]).
Proof.
  intros Hlen Hne. unfold ExampleProblem_objective, hinge_loss.
  unfold average_hinge_loss.
  rewrite decide_True by done.
  rewrite broadcast_same_length by (by rewrite length_map).
  cbn [mbind outcome_bind bind mret outcome_ret].
  rewrite <- hinge_losses.
  destruct (_labels self) as [|l ls]; [done|].
  destruct (_predictions self) as [|p ps]; [done|].
  done.
Qed.

(** Sums of binary labels are counts. *)
Lemma binary_sum_count (ls : list Qc) :
  Forall (λ l, l = 0 ∨ l = 1) ls →
  np_sum ls = of_nat (count_true (λ l, bool_decide (l = 1)) ls).
Proof.
  induction 1 as [|l ls Hl _ IH]; [symmetry; apply of_nat_0|].
  rewrite np_sum_cons, count_true_cons, IH.
  destruct Hl as [-> | ->].
  - rewrite bool_decide_eq_false_2 by done. cbn [Nat.add]. ring.
  - rewrite bool_decide_eq_true_2 by done. cbn [Nat.add].
    by rewrite of_nat_S.
Qed.

Lemma true_positives_count (ls ps : list Qc) :
  length ls = length ps →
  Forall (λ l, l = 0 ∨ l = 1) ls →
  np_sum (zip_with (λ l p, l * to_float (bool_decide (0 < p))) ls ps)
  = of_nat (count_true
              (λ x, bool_decide (x.1 = 1) && bool_decide (0 < x.2))
              (zip ls ps)).
Proof.
  intros Hlen Hls. revert ps Hlen.
  induction Hls as [|l ls Hl _ IH]; intros [|p ps] Hlen; try done.
  cbn [zip zip_with]. rewrite np_sum_cons, count_true_cons.
  rewrite IH by (simpl in Hlen; lia). cbn [fst snd].
  destruct Hl as [-> | ->].
  - rewrite (bool_decide_eq_false_2 (0 = 1)) by done.
    cbn [andb Nat.add]. ring.
  - rewrite (bool_decide_eq_true_2 (1 = 1)) by done. cbn [andb].
    destruct (bool_decide (0 < p)); cbn [to_float].
    + cbn [Nat.add]. rewrite of_nat_S. ring.
    + cbn [Nat.add]. ring.
Qed.

Lemma recall_fraction (ls ps : list Qc) :
  length ls = length ps →
  Forall (λ l, l = 0 ∨ l = 1) ls →
  (∃ l, l ∈ ls ∧ l = 1) →
  let positives := count_true (λ l, bool_decide (l = 1)) ls in
  let true_positives :=
    count_true (λ x, bool_decide (x.1 = 1) && bool_decide (0 < x.2))
      (zip ls ps) in
  (0 < positives)%nat ∧ (true_positives ≤ positives)%nat
  ∧ recall ls ps
    = Return (Finite (of_nat true_positives / of_nat positives)).
Proof.
  intros Hlen Hls (l & Hl & H1) positives true_positives.
  assert (0 < positives)%nat as Hpos.
  { apply count_true_exists. exists l. split; [done|].
    by apply bool_decide_eq_true_2. }
  assert (true_positives ≤ positives)%nat as Hle.
  { subst positives true_positives.
    rewrite <- (count_true_zip_fst ls ps (λ l, bool_decide (l = 1))) by done.
    apply count_true_mono. intros x. rewrite andb_true_iff. tauto. }
  split; [done|]. split; [done|].
  unfold recall. rewrite broadcast_same_length by done.
  cbn [mbind outcome_bind bind mret outcome_ret].
  rewrite (binary_sum_count ls), true_positives_count by done.
  unfold np_divide. rewrite decide_False; [done|].
  by apply not_eq_sym, Qclt_not_eq, of_nat_pos.
Qed.

End RecallProblem.

(** X18. For labels that are not negative, with a positive sum, and one
    prediction for each label, the proxy constraint of [ExampleProblem] is
    an upper bound of its constraint: the hinge approximation
    [minimum(1, prediction)] never exceeds the indicator [prediction > 0],
    so the recall it gives is at most the recall. A model that satisfies
    the proxy constraint satisfies the constraint. *)
Theorem proxy_constraint_is_an_upper_bound
    (self : RecallNotebook.ExampleProblem) :
  length (RecallNotebook._labels self)
  = length (RecallNotebook._predictions self) →
  Forall (λ l, 0 ≤ l) (RecallNotebook._labels self) →
  0 < RecallNotebook._positive_count self →
  ∃ c c',
    RecallNotebook.ExampleProblem_constraints self = Return [Finite c]
    ∧ RecallNotebook.ExampleProblem_proxy_constraints self
      = Return [Finite c']
    ∧ c ≤ c' ∧ (c' ≤ 0 → c ≤ 0).
Proof. apply proxy_bounds_constraint. Qed.

Lemma proxy_constraint_is_an_upper_bound_witness :
  ∃ c c',
    RecallNotebook.ExampleProblem_constraints three_examples
    = Return [Finite c]
    ∧ RecallNotebook.ExampleProblem_proxy_constraints three_examples
      = Return [Finite c']
    ∧ c ≤ c'.
Proof.
  destruct (proxy_constraint_is_an_upper_bound three_examples)
    as (c & c' & Hc & Hc' & Hle & _).
  - reflexivity.
  - by repeat constructor.
  - by vm_compute.
  - by exists c, c'.
Defined.

(** X19. The objective of [ExampleProblem] is the average hinge loss of
    the evaluation cell: for one prediction for each label, and at least
    one label, [ExampleProblem.objective] is the one-entry tensor holding
    what [average_hinge_loss] returns for the same labels and
    predictions. *)
Theorem objective_is_the_average_hinge_loss
    (self : RecallNotebook.ExampleProblem) :
  length (RecallNotebook._labels self)
  = length (RecallNotebook._predictions self) →
  RecallNotebook._labels self ≠ [] →
  RecallNotebook.ExampleProblem_objective self
  = (loss ← RecallNotebook.average_hinge_loss
              (RecallNotebook._labels self)
              (RecallNotebook._predictions self);
     mret [loss]).
Proof. apply objective_average_hinge_loss. Qed.

Lemma objective_is_the_average_hinge_loss_witness :
  RecallNotebook.ExampleProblem_objective three_examples
  = (loss ← RecallNotebook.average_hinge_loss [1; 0; 1] [dec 0.5; 1; -1];
     mret [loss]).
Proof.
  apply (objective_is_the_average_hinge_loss three_examples).
  - reflexivity.
  - discriminate.
Defined.

(** X20. For binary labels with at least one positive, and one prediction
    for each label, [recall] returns the number of positively-labelled
    examples with a positive prediction divided by the number of
    positively-labelled examples, a number between 0 and 1. *)
Theorem recall_is_a_fraction_of_the_positives (labels predictions : list Qc) :
  length labels = length predictions →
  Forall (λ l, l = 0 ∨ l = 1) labels →
  (∃ l, l ∈ labels ∧ l = 1) →
  ∃ q,
    RecallNotebook.recall labels predictions = Return (Finite q)
    ∧ q = of_nat (count_true
                    (λ x, bool_decide (x.1 = 1) && bool_decide (0 < x.2))
                    (zip labels predictions))
          / of_nat (count_true (λ l, bool_decide (l = 1)) labels)
    ∧ 0 ≤ q ∧ q ≤ 1.
Proof.
  intros Hlen Hbinary Hpositive.
  destruct (recall_fraction labels predictions Hlen Hbinary Hpositive)
    as (Hpos & Hle & Hrecall).
  eexists. split; [exact Hrecall|]. split; [done|].
  by apply fraction_in_unit.
Qed.

Lemma recall_is_a_fraction_of_the_positives_witness :
  ∃ q, RecallNotebook.recall [1; 0; 1] [dec 0.5; 1; -1] = Return (Finite q)
       ∧ 0 ≤ q ∧ q ≤ 1.
Proof.
  destruct (recall_is_a_fraction_of_the_positives
              [1; 0; 1] [dec 0.5; 1; -1]) as (q & Hq & _ & Hbounds).
  - reflexivity.
  - repeat constructor; by (left + right).
  - exists 1. split; [apply list_elem_of_here | done].
  - by exists q.
Defined.

(** ** The simulated data and the linear model *)

Section SimulatedData.

Import RecallNotebook RecallData.

Lemma np_position_valid (n : nat) (i : Z) :
  (0 ≤ i < Z.of_nat n)%Z → np_position n i = Return (Z.to_nat i).
Proof. intros Hi. unfold np_position. by rewrite decide_True. Qed.

Lemma np_position_out_of_range (n : nat) (i : Z) :
  ¬ (- Z.of_nat n ≤ i < Z.of_nat n)%Z →
  np_position n i = Raise "IndexError".
Proof.
  intros Hi. unfold np_position. by rewrite !decide_False by lia.
Qed.

Lemma np_position_cases (n : nat) (i : Z) :
  (∃ p, np_position n i = Return p) ∨ np_position n i = Raise "IndexError".
Proof.
  unfold np_position. repeat case_decide; [left | left | right]; eauto.
Qed.

Lemma np_put_cons (acc : list Qc) p ps v vs :
  np_put acc (p :: ps) (v :: vs) = np_put (<[p := v]> acc) ps vs.
Proof. done. Qed.

Lemma length_np_put (acc : list Qc) ps vs :
  length (np_put acc ps vs) = length acc.
Proof.
  revert acc vs. induction ps as [|p ps IH]; intros acc [|v vs]; try done.
  by rewrite np_put_cons, IH, length_insert.
Qed.

(** Writing [flip p] at every position [p] of a list of positions. *)
Lemma np_put_lookup (flip : nat → Qc) (ps : list nat) (acc : list Qc)
    (j : nat) (l : Qc) :
  acc !! j = Some l →
  np_put acc ps (map flip ps) !! j
  = Some (if decide (j ∈ ps) then flip j else l).
Proof.
  revert acc l. induction ps as [|p ps IH]; intros acc l Hj.
  - rewrite decide_False by apply not_elem_of_nil. done.
  - cbn [map]. rewrite np_put_cons.
    destruct (decide (j = p)) as [->|Hne].
    + rewrite (IH _ (flip p)).
      * rewrite (decide_True (P := p ∈ p :: ps))
          by apply list_elem_of_here.
        by destruct (decide (p ∈ ps)).
      * apply list_lookup_insert_eq. by eapply lookup_lt_Some.
    + rewrite (IH _ l) by (by rewrite list_lookup_insert_ne).
      destruct (decide (j ∈ ps)) as [Hin|Hnot].
      * by rewrite decide_True by (by apply list_elem_of_further).
      * rewrite decide_False; [done|].
        intros [->|Hin]%elem_of_cons; done.
Qed.

Lemma positions_of_valid (n : nat) (indices : list Z) :
  Forall (λ i, (0 ≤ i < Z.of_nat n)%Z) indices →
  mapM (np_position n) indices = Return (map Z.to_nat indices).
Proof.
  induction 1 as [|i indices Hi _ IH]; [done|].
  cbn [mapM map]. by rewrite np_position_valid, IH.
Qed.

Lemma add_label_noise_valid (labels : list Qc) (indices : list Z) :
  Forall (λ i, (0 ≤ i < Z.of_nat (length labels))%Z) indices →
  ∃ noisy,
    add_label_noise labels indices = Return noisy
    ∧ length noisy = length labels
    ∧ ∀ j l, labels !! j = Some l →
        noisy !! j
        = Some (if decide (Z.of_nat j ∈ indices) then 1 - l else l).
Proof.
  intros Hvalid. unfold add_label_noise.
  rewrite positions_of_valid by done.
  cbn [mbind outcome_bind bind mret outcome_ret].
  eexists. split; [reflexivity|]. split; [apply length_np_put|].
  intros j l Hj. unfold np_take. rewrite map_map.
  rewrite (np_put_lookup (λ p, 1 - default 0 (labels !! p)) _ _ j l Hj).
  rewrite Hj. cbn [default]. f_equal.
  destruct (decide (j ∈ map Z.to_nat indices)) as [Hin|Hnot].
  - rewrite decide_True; [done|].
    apply list_elem_of_In, in_map_iff in Hin as (i & <- & Hi).
    apply list_elem_of_In in Hi.
    pose proof (proj1 (Forall_forall _ _) Hvalid i Hi) as Hrange.
    cbn beta in Hrange. by rewrite Z2Nat.id by lia.
  - rewrite decide_False; [done|]. intros Hin. apply Hnot.
    apply list_elem_of_In, in_map_iff. exists (Z.of_nat j).
    split; [apply Nat2Z.id | by apply list_elem_of_In].
Qed.

Lemma add_label_noise_out_of_range (labels : list Qc) (indices : list Z) :
  Exists (λ i, ¬ (- Z.of_nat (length labels) ≤ i
                  < Z.of_nat (length labels))%Z) indices →
  add_label_noise labels indices = Raise "IndexError".
Proof.
  intros Hex. unfold add_label_noise.
  rewrite (mapM_Raise _ "IndexError"); [done| |].
  - apply Forall_forall. intros i _.
    destruct (np_position_cases (length labels) i) as [[p ->]| ->];
      [left; by eexists | by right].
  - eapply Exists_impl; [exact Hex|]. intros i Hi.
    by apply np_position_out_of_range.
Qed.

(** A flipped binary label differs from the label. *)
Lemma flipped_differs (l : Qc) : l = 0 ∨ l = 1 → 1 - l ≠ l.
Proof. by intros [-> | ->]. Qed.

Lemma count_changed (ps : list nat) (ls : list Qc) (a : nat) :
  Forall (λ l, l = 0 ∨ l = 1) ls →
  count_true (λ x : Qc * Qc, negb (bool_decide (x.1 = x.2)))
    (zip ls (zip_with (λ j l, if decide (j ∈ ps) then 1 - l else l)
               (seq a (length ls)) ls))
  = count_true (λ j, bool_decide (j ∈ ps)) (seq a (length ls)).
Proof.
  intros Hls. revert a. induction Hls as [|l ls Hl _ IH]; intros a; [done|].
  cbn [length seq zip zip_with]. rewrite !count_true_cons, IH.
  f_equal. cbn [fst snd]. destruct (decide (a ∈ ps)) as [Hin|Hnot].
  - rewrite (bool_decide_eq_true_2 (a ∈ ps)) by done.
    rewrite bool_decide_eq_false_2; [done|].
    intros Heq. by apply (flipped_differs l).
  - rewrite (bool_decide_eq_false_2 (a ∈ ps)) by done.
    by rewrite bool_decide_eq_true_2.
Qed.

Lemma count_members (ps : list nat) (n : nat) :
  NoDup ps → Forall (λ p, (p < n)%nat) ps →
  count_true (λ j, bool_decide (j ∈ ps)) (seq 0 n) = length ps.
Proof.
  intros Hnodup Hlt. unfold count_true. apply Permutation_length.
  apply NoDup_Permutation; [|done|].
  - apply NoDup_filter, NoDup_seq.
  - intros j. rewrite list_elem_of_filter, bool_decide_eq_true.
    split; [tauto|]. intros Hj. split; [done|].
    apply elem_of_seq.
    pose proof (proj1 (Forall_forall _ _) Hlt j Hj). cbn beta in *. lia.
Qed.

Lemma noisy_by_position (labels noisy : list Qc) (ps : list nat) :
  length noisy = length labels →
  (∀ j l, labels !! j = Some l →
     noisy !! j = Some (if decide (j ∈ ps) then 1 - l else l)) →
  noisy = zip_with (λ j l, if decide (j ∈ ps) then 1 - l else l)
            (seq 0 (length labels)) labels.
Proof.
  intros Hlen Hpoint. apply list_eq. intros j.
  rewrite lookup_zip_with.
  destruct (labels !! j) as [l|] eqn:Hl.
  - rewrite (Hpoint j l Hl).
    rewrite lookup_seq_lt by (by eapply lookup_lt_Some). done.
  - rewrite (proj2 (lookup_ge_None noisy j))
      by (rewrite Hlen; by apply lookup_ge_None).
    by destruct (seq 0 (length labels) !! j).
Qed.

Lemma add_label_noise_count (labels : list Qc) (indices : list Z) :
  Forall (λ l, l = 0 ∨ l = 1) labels →
  Forall (λ i, (0 ≤ i < Z.of_nat (length labels))%Z) indices →
  NoDup indices →
  ∃ noisy,
    add_label_noise labels indices = Return noisy
    ∧ Forall (λ l, l = 0 ∨ l = 1) noisy
    ∧ count_true (λ x : Qc * Qc, negb (bool_decide (x.1 = x.2)))
        (zip labels noisy)
      = length indices.
Proof.
  intros Hbinary Hvalid Hnodup.
  destruct (add_label_noise_valid labels indices Hvalid)
    as (noisy & Hnoisy & Hlen & Hpoint).
  exists noisy. split; [done|].
  assert (∀ j l, labels !! j = Some l →
            noisy !! j
            = Some (if decide (j ∈ map Z.to_nat indices)
                    then 1 - l else l)) as Hpoint'.
  { intros j l Hl. rewrite (Hpoint j l Hl). f_equal.
    destruct (decide (Z.of_nat j ∈ indices)) as [Hin|Hnot].
    - rewrite decide_True; [done|].
      apply list_elem_of_In, in_map_iff. exists (Z.of_nat j).
      split; [apply Nat2Z.id | by apply list_elem_of_In].
    - rewrite decide_False; [done|]. intros Hin. apply Hnot.
      apply list_elem_of_In, in_map_iff in Hin as (i & <- & Hi).
      apply list_elem_of_In in Hi.
      pose proof (proj1 (Forall_forall _ _) Hvalid i Hi) as Hrange.
      cbn beta in Hrange. by rewrite Z2Nat.id by lia. }
  split.
  - apply Forall_forall. intros l' Hl'.
    apply list_elem_of_lookup in Hl' as [j Hj].
    destruct (lookup_lt_is_Some_2 labels j) as [l Hl].
    { rewrite <- Hlen. by eapply lookup_lt_Some. }
    rewrite (Hpoint' j l Hl) in Hj. injection Hj as <-.
    pose proof (proj1 (Forall_forall _ _) Hbinary l
                  (list_elem_of_lookup_2 _ _ _ Hl)) as [-> | ->];
      destruct (decide (j ∈ map Z.to_nat indices));
      first [by left | by right | right; qc_refl | left; qc_refl].
  - rewrite (noisy_by_position labels noisy (map Z.to_nat indices))
      by done.
    rewrite count_changed by done.
    rewrite count_members.
    + apply length_map.
    + apply NoDup_fmap_2_strong; [|done].
      intros x y Hx Hy Heq.
      pose proof (proj1 (Forall_forall _ _) Hvalid x Hx).
      pose proof (proj1 (Forall_forall _ _) Hvalid y Hy).
      cbn beta in *. lia.
    + apply Forall_fmap. eapply Forall_impl; [exact Hvalid|].
      intros i Hi. cbn beta in Hi. unfold compose. lia.
Qed.

(** *** The linear model *)

Lemma np_sum_zero_weights (x : list Qc) :
  np_sum (zip_with Qcmult x (replicate (length x) 0)) = 0.
Proof.
  induction x as [|a x IH]; [done|].
  cbn [length replicate zip_with]. rewrite np_sum_cons, IH. ring.
Qed.

Lemma matvec_zero_weights (features : list (list Qc)) (d : nat) :
  Forall (λ x, length x = d) features →
  matvec features (replicate d 0) = Return (replicate (length features) 0).
Proof.
  intros Hrows. unfold matvec.
  induction Hrows as [|x features Hx _ IH]; [done|].
  cbn [mapM]. rewrite IH. unfold FairnessNotebook.np_dot.
  rewrite decide_True by (by rewrite length_replicate).
  rewrite <- Hx, np_sum_zero_weights. done.
Qed.

Lemma matvec_length (features : list (list Qc)) (w scores : list Qc) :
  matvec features w = Return scores → length scores = length features.
Proof.
  unfold matvec. intros H. apply mapM_Return_lookup in H.
  symmetry. by eapply Forall2_length.
Qed.

Lemma recall_of_zero_predictions (labels : list Qc) (n : nat) :
  length labels = n → np_sum labels ≠ 0 →
  recall labels (replicate n 0) = Return (Finite 0).
Proof.
  intros Hlen Hsum. unfold recall.
  rewrite broadcast_same_length by (by rewrite length_replicate).
  cbn [mbind outcome_bind bind mret outcome_ret].
  rewrite np_sum_zeros.
  - unfold np_divide. rewrite decide_False by done.
    do 2 f_equal. apply Qcmult_0_l.
  - apply Forall_forall. intros x Hx.
    apply list_elem_of_lookup in Hx as [j Hj].
    apply lookup_zip_with_Some in Hj as (l & p & -> & _ & Hp).
    apply lookup_replicate in Hp as [-> _].
    rewrite bool_decide_eq_false_2 by done. apply Qcmult_0_r.
Qed.

Lemma hinge_of_zero_predictions (labels : list Qc) (n : nat) :
  length labels = n → labels ≠ [] →
  average_hinge_loss labels (replicate n 0) = Return (Finite 1).
Proof.
  intros Hlen Hne. unfold average_hinge_loss.
  rewrite broadcast_same_length
    by (by rewrite length_map, length_replicate).
  cbn [mbind outcome_bind bind mret outcome_ret].
  assert (map (λ m, maximum 0 (1 - m))
            (zip_with Qcmult (map (λ l, l * 2 - 1) labels) (replicate n 0))
          = replicate n 1) as ->.
  { subst n. clear Hne. induction labels as [|l labels IH]; [done|].
    cbn [map length replicate zip_with]. rewrite IH. f_equal.
    replace (1 - (l * 2 - 1) * 0) with 1 by ring. done. }
  unfold np_mean, np_divide. rewrite length_replicate, np_sum_replicate.
  assert (of_nat n ≠ 0) as Hn.
  { intros H0. apply of_nat_eq_0 in H0. subst n.
    by destruct labels. }
  rewrite decide_False by done. do 2 f_equal. by field.
Qed.

Lemma ground_truth_labels_binary (features : list (list Qc))
    (w labels : list Qc) :
  ground_truth_labels features w = Return labels →
  length labels = length features ∧ Forall (λ l, l = 0 ∨ l = 1) labels.
Proof.
  unfold ground_truth_labels.
  destruct (matvec features w) as [scores|] eqn:Hscores; [|done].
  cbn [mbind outcome_bind bind mret outcome_ret]. intros [= <-].
  split.
  - rewrite length_map. by apply (matvec_length features w).
  - apply Forall_fmap, Forall_forall. intros s _. cbn.
    destruct (bool_decide (ground_truth_threshold < s)); by (left + right).
Qed.

Lemma untrained_model (features : list (list Qc)) (labels : list Qc) :
  Forall (λ x, length x = Z.to_nat dimension) features →
  length labels = length features → np_sum labels ≠ 0 →
  ∃ predictions,
    trained_predictions features initial_weights initial_threshold
    = Return predictions
    ∧ predictions = replicate (length features) 0
    ∧ recall labels predictions = Return (Finite 0)
    ∧ average_hinge_loss labels predictions = Return (Finite 1)
    ∧ ExampleProblem_constraints
        {| _labels := labels;
           _predictions := predictions;
           _recall_lower_bound := recall_lower_bound |}
      = Return [Finite recall_lower_bound].
Proof.
  intros Hrows Hlen Hsum.
  exists (replicate (length features) 0).
  assert (recall labels (replicate (length features) 0)
          = Return (Finite 0)) as Hrecall
    by (by apply recall_of_zero_predictions).
  split.
  { unfold trained_predictions, initial_weights, initial_threshold.
    rewrite (matvec_zero_weights features (Z.to_nat dimension) Hrows).
    cbn [mbind outcome_bind bind mret outcome_ret]. f_equal.
    generalize (length features). intros n.
    induction n as [|n IH]; [done|]. cbn [replicate map]. rewrite IH.
    apply (f_equal (λ x, x :: replicate n 0)). ring. }
  split; [done|]. split; [done|]. split.
  - apply hinge_of_zero_predictions; [done|].
    intros ->. by apply Hsum.
  - rewrite ExampleProblem_constraints_recall.
    cbn [_labels _predictions _recall_lower_bound]. rewrite Hrecall.
    cbn [mbind outcome_bind bind mret outcome_ret float_sub].
    apply (f_equal (λ x, Return [Finite x])). ring.
Qed.

Lemma indicator_antitone (s t1 t2 : Qc) :
  t1 ≤ t2 →
  to_float (bool_decide (0 < s - t2)) ≤ to_float (bool_decide (0 < s - t1)).
Proof.
  intros Ht. destruct (decide (0 < s - t2)) as [H2|H2].
  - rewrite (bool_decide_eq_true_2 (0 < s - t2)) by done.
    rewrite (bool_decide_eq_true_2 (0 < s - t1)); [apply Qcle_refl|].
    to_rationals. lra.
  - rewrite (bool_decide_eq_false_2 (0 < s - t2)) by done.
    destruct (bool_decide (0 < s - t1)); cbn [to_float];
      [done | apply Qcle_refl].
Qed.

Lemma recall_threshold (features : list (list Qc))
    (w labels : list Qc) (t1 t2 : Qc) (p1 : list Qc) :
  t1 ≤ t2 →
  Forall (λ l, 0 ≤ l) labels → 0 < np_sum labels →
  length labels = length features →
  trained_predictions features w t1 = Return p1 →
  ∃ p2 r1 r2,
    trained_predictions features w t2 = Return p2
    ∧ recall labels p1 = Return (Finite r1)
    ∧ recall labels p2 = Return (Finite r2)
    ∧ r2 ≤ r1.
Proof.
  intros Ht Hlabels Hsum Hlen. unfold trained_predictions.
  destruct (matvec features w) as [scores|] eqn:Hscores; [|done].
  cbn [mbind outcome_bind bind mret outcome_ret]. intros [= <-].
  pose proof (matvec_length features w scores Hscores) as Hls.
  eexists _, _, _. split; [reflexivity|].
  unfold recall.
  rewrite !broadcast_same_length by (rewrite length_map; congruence).
  cbn [mbind outcome_bind bind mret outcome_ret].
  unfold np_divide.
  rewrite !decide_False by (by apply not_eq_sym, Qclt_not_eq).
  split; [reflexivity|]. split; [reflexivity|].
  apply Qcdiv_le_r; [done|].
  rewrite !zip_with_fmap_r. apply np_sum_le. intros l s Hl.
  apply Qcmult_le_l; [|by apply indicator_antitone].
  by apply (proj1 (Forall_forall _ _) Hlabels).
Qed.

End SimulatedData.

(** X21. Adding label noise with indices inside the array,
    [labels[mislabeled_indices] = 1 - labels[mislabeled_indices]],
    returns an array of the same length in which the label at every chosen
    position is replaced by one minus the label, also when a position is
    chosen more than once, and every other label is kept. *)
Theorem label_noise_flips_the_chosen_labels
    (labels : list Qc) (mislabeled_indices : list Z) :
  Forall (λ i, (0 ≤ i < Z.of_nat (length labels))%Z) mislabeled_indices →
  ∃ noisy,
    RecallData.add_label_noise labels mislabeled_indices = Return noisy
    ∧ length noisy = length labels
    ∧ ∀ j l, labels !! j = Some l →
        noisy !! j
        = Some (if decide (Z.of_nat j ∈ mislabeled_indices)
                then 1 - l else l).
Proof. apply add_label_noise_valid. Qed.

Lemma label_noise_flips_the_chosen_labels_witness :
  ∃ noisy,
    RecallData.add_label_noise [1; 0; 1; 0] [3; 0; 3]%Z = Return noisy
    ∧ noisy !! 3%nat = Some (1 - 0)
    ∧ noisy !! 2%nat = Some 1.
Proof.
  destruct (label_noise_flips_the_chosen_labels [1; 0; 1; 0] [3; 0; 3]%Z)
    as (noisy & Hnoisy & _ & Hpoint).
  - repeat constructor; simpl; lia.
  - exists noisy. split; [exact Hnoisy|]. split.
    + exact (Hpoint 3%nat 0 eq_refl).
    + exact (Hpoint 2%nat 1 eq_refl).
Defined.

(** X22. The labels of the ground-truth model are binary, one for each
    example. Adding label noise to binary labels, with distinct indices
    inside the array, gives binary labels again, and the number of labels
    that differ from the labels before is the number of indices: with 200
    indices out of 1000 examples, 200 examples are mislabeled and 800 keep
    their label. *)
Theorem label_noise_mislabels_as_many_examples_as_indices :
  (∀ (features : list (list Qc)) (ground_truth_weights labels : list Qc),
     RecallData.ground_truth_labels features ground_truth_weights
     = Return labels →
     length labels = length features
     ∧ Forall (λ l, l = 0 ∨ l = 1) labels)
  ∧ (∀ (labels : list Qc) (mislabeled_indices : list Z),
       Forall (λ l, l = 0 ∨ l = 1) labels →
       Forall (λ i, (0 ≤ i < Z.of_nat (length labels))%Z)
         mislabeled_indices →
       NoDup mislabeled_indices →
       ∃ noisy,
         RecallData.add_label_noise labels mislabeled_indices
         = Return noisy
         ∧ Forall (λ l, l = 0 ∨ l = 1) noisy
         ∧ count_true (λ x : Qc * Qc, negb (bool_decide (x.1 = x.2)))
             (zip labels noisy)
           = length mislabeled_indices).
Proof.
  split.
  - apply ground_truth_labels_binary.
  - apply add_label_noise_count.
Qed.

Lemma label_noise_mislabels_as_many_examples_as_indices_witness :
  ∃ labels noisy,
    RecallData.ground_truth_labels [[1]; [-1]; [2]; [-2]] [1]
    = Return labels
    ∧ RecallData.add_label_noise labels [3; 0]%Z = Return noisy
    ∧ count_true (λ x : Qc * Qc, negb (bool_decide (x.1 = x.2)))
        (zip labels noisy)
      = 2%nat.
Proof.
  destruct label_noise_mislabels_as_many_examples_as_indices
    as [Hlabels Hnoise].
  destruct (Hlabels [[1]; [-1]; [2]; [-2]] [1] [1; 0; 1; 0] eq_refl)
    as [_ Hbinary].
  destruct (Hnoise [1; 0; 1; 0] [3; 0]%Z Hbinary)
    as (noisy & Hnoisy & _ & Hcount).
  - repeat constructor; simpl; lia.
  - repeat constructor; [|apply not_elem_of_nil].
    intros H. apply list_elem_of_singleton in H. discriminate.
  - exists [1; 0; 1; 0], noisy. split; [reflexivity|].
    split; [exact Hnoisy | exact Hcount].
Defined.

(** X23. An index that is outside the array, below [-n] or from [n] on
    for [n] labels, makes the assignment of the label noise end in
    IndexError. *)
Theorem label_noise_index_out_of_range
    (labels : list Qc) (mislabeled_indices : list Z) :
  Exists (λ i, ¬ (- Z.of_nat (length labels) ≤ i
                  < Z.of_nat (length labels))%Z) mislabeled_indices →
  RecallData.add_label_noise labels mislabeled_indices
  = Raise "IndexError".
Proof. apply add_label_noise_out_of_range. Qed.

Lemma label_noise_index_out_of_range_witness :
  RecallData.add_label_noise [1; 0; 1] [0; 3]%Z = Raise "IndexError".
Proof.
  apply label_noise_index_out_of_range.
  apply Exists_cons_tl, Exists_cons_hd. simpl. lia.
Defined.

(** X24. Before training the weights and the threshold are zero, so the
    model predicts 0 on every example, whatever the features (of the
    model's dimension): no example is predicted positive. For labels with
    a nonzero sum, the recall is then 0, the average hinge loss is 1, and
    the constraint of [ExampleProblem] has the value of the recall lower
    bound. *)
Theorem untrained_model_has_recall_zero
    (features : list (list Qc)) (labels : list Qc) :
  Forall (λ x, length x = Z.to_nat RecallNotebook.dimension) features →
  length labels = length features → np_sum labels ≠ 0 →
  ∃ predictions,
    RecallData.trained_predictions features RecallData.initial_weights
      RecallData.initial_threshold = Return predictions
    ∧ predictions = replicate (length features) 0
    ∧ RecallNotebook.recall labels predictions = Return (Finite 0)
    ∧ RecallNotebook.average_hinge_loss labels predictions
      = Return (Finite 1)
    ∧ RecallNotebook.ExampleProblem_constraints
        {| RecallNotebook._labels := labels;
           RecallNotebook._predictions := predictions;
           RecallNotebook._recall_lower_bound :=
             RecallNotebook.recall_lower_bound |}
      = Return [Finite RecallNotebook.recall_lower_bound].
Proof. apply untrained_model. Qed.

Lemma untrained_model_has_recall_zero_witness :
  RecallNotebook.recall [1; 0] [0; 0] = Return (Finite 0).
Proof.
  destruct (untrained_model_has_recall_zero
              [replicate 10 1; replicate 10 (-1)] [1; 0])
    as (predictions & _ & -> & Hrecall & _).
  - by repeat constructor.
  - reflexivity.
  - by vm_compute.
  - exact Hrecall.
Defined.

(** X25. Raising the threshold of the linear model does not raise its
    recall: for labels that are not negative, with a positive sum, one
    for each example, the predictions [matmul(features, weights) -
    threshold] for a larger threshold are defined whenever those for a
    smaller one are, and their recall is at most the recall of those for
    the smaller threshold. *)
Theorem recall_does_not_increase_with_the_threshold
    (features : list (list Qc)) (weights labels : list Qc)
    (threshold threshold' : Qc) (predictions : list Qc) :
  threshold ≤ threshold' →
  Forall (λ l, 0 ≤ l) labels → 0 < np_sum labels →
  length labels = length features →
  RecallData.trained_predictions features weights threshold
  = Return predictions →
  ∃ predictions' r r',
    RecallData.trained_predictions features weights threshold'
    = Return predictions'
    ∧ RecallNotebook.recall labels predictions = Return (Finite r)
    ∧ RecallNotebook.recall labels predictions' = Return (Finite r')
    ∧ r' ≤ r.
Proof. apply recall_threshold. Qed.

Lemma recall_does_not_increase_with_the_threshold_witness :
  ∃ predictions' r r',
    RecallData.trained_predictions [[1]; [2]] [1] (dec 1.5)
    = Return predictions'
    ∧ RecallNotebook.recall [1; 1] [1 - 0; 2 - 0] = Return (Finite r)
    ∧ RecallNotebook.recall [1; 1] predictions' = Return (Finite r')
    ∧ r' ≤ r.
Proof.
  apply (recall_does_not_increase_with_the_threshold
           [[1]; [2]] [1] [1; 1] 0 (dec 1.5)).
  - by vm_compute.
  - by repeat constructor.
  - by vm_compute.
  - reflexivity.
  - unfold RecallData.trained_predictions, RecallData.matvec,
      FairnessNotebook.np_dot.
    cbn [mapM length decide]. rewrite !decide_True by done.
    cbn [mbind outcome_bind bind mret outcome_ret map zip_with].
    apply (f_equal Return), list_by_evaluation. by repeat constructor.
Defined.

(** ** Aligning the columns of the two frames *)

Section AlignedColumns.

Import Preprocessing.

Variable iterate : gset string → list string.
Hypothesis iterate_elements : ∀ s, iterate s ≡ₚ elements s.

Lemma iterate_empty (s : gset string) : s = ∅ → iterate s = [].
Proof.
  intros ->. apply Permutation_nil_r. by rewrite iterate_elements, elements_empty.
Qed.

Lemma elem_of_iterate (s : gset string) (c : string) :
  c ∈ iterate s ↔ c ∈ s.
Proof. by rewrite iterate_elements, elem_of_elements. Qed.

Lemma NoDup_iterate (s : gset string) : NoDup (iterate s).
Proof. rewrite iterate_elements. apply NoDup_elements. Qed.

Lemma labels_assign_cases (df : frame) (c : string) (v : Z) :
  (c ∈ labels_of df ∧ labels_of (assign_constant df c v) = labels_of df)
  ∨ ((c ∉ labels_of df)
     ∧ labels_of (assign_constant df c v) = labels_of df ++ [c]).
Proof.
  unfold assign_constant. destruct (decide (c ∈ labels_of df)) as [Hc|Hc].
  - left. split; [done|]. unfold labels_of. cbn [columns]. rewrite map_map.
    apply map_ext. intros nc. by destruct (decide (nc.1 = c)) as [<-|].
  - right. split; [done|]. unfold labels_of. cbn [columns].
    by rewrite map_app.
Qed.

Lemma elem_of_labels_assign (df : frame) (c x : string) (v : Z) :
  x ∈ labels_of (assign_constant df c v) ↔ x = c ∨ x ∈ labels_of df.
Proof.
  destruct (labels_assign_cases df c v) as [[Hc ->]|[Hc ->]].
  - split; [by right|]. by intros [->|].
  - rewrite elem_of_app, list_elem_of_singleton. tauto.
Qed.

Lemma index_size_assign (df : frame) (c : string) (v : Z) :
  index_size (assign_constant df c v) = index_size df.
Proof. unfold assign_constant. by destruct (decide (c ∈ labels_of df)). Qed.

Lemma elem_of_labels_filled (df : frame) (cs : list string) (x : string) :
  x ∈ labels_of (filled df cs) ↔ x ∈ cs ∨ x ∈ labels_of df.
Proof.
  unfold filled. revert df. induction cs as [|c cs IH]; intros df.
  - cbn. rewrite elem_of_nil. tauto.
  - cbn [foldl]. rewrite IH, elem_of_labels_assign, elem_of_cons. tauto.
Qed.

Lemma index_size_filled (df : frame) (cs : list string) :
  index_size (filled df cs) = index_size df.
Proof.
  unfold filled. revert df. induction cs as [|c cs IH]; intros df; [done|].
  cbn [foldl]. by rewrite IH, index_size_assign.
Qed.

Lemma labels_filled_prefix (df : frame) (cs : list string) :
  labels_of df `prefix_of` labels_of (filled df cs).
Proof.
  unfold filled. revert df. induction cs as [|c cs IH]; intros df; [done|].
  cbn [foldl]. etrans; [|apply IH].
  destruct (labels_assign_cases df c 0) as [[_ ->]|[_ ->]];
    [done | by apply prefix_app_r].
Qed.

Lemma first_loop_foldl (train : frame) (cs : list string) (test : frame)
    (bound : option (gset string)) :
  foldl (λ (st : frame * option (gset string)) c,
           let input_test_df := assign_constant st.1 c 0 in
           (input_test_df,
            Some (list_to_set (labels_of input_test_df)
                  ∖ list_to_set (labels_of train))))
        (test, bound) cs
  = (filled test cs,
     match cs with
     | [] => bound
     | _ => Some (list_to_set (labels_of (filled test cs))
                  ∖ list_to_set (labels_of train))
     end).
Proof.
  revert test bound. induction cs as [|c cs IH]; intros test bound; [done|].
  cbn [foldl]. rewrite IH. cbn [fst]. unfold filled. cbn [foldl].
  by destruct cs.
Qed.

Lemma first_loop_spec (train test : frame) :
  let cs := iterate (list_to_set (labels_of train)
                     ∖ list_to_set (labels_of test)) in
  first_loop iterate train test
  = (filled test cs,
     match cs with
     | [] => None
     | _ => Some (list_to_set (labels_of (filled test cs))
                  ∖ list_to_set (labels_of train))
     end).
Proof. intros cs. unfold first_loop. apply first_loop_foldl. Qed.

Lemma fix_columns_unbound (train test : frame) :
  (∀ c, c ∈ labels_of train → c ∈ labels_of test) →
  fix_columns iterate train test = Raise "UnboundLocalError".
Proof.
  intros Hsub. unfold fix_columns. rewrite first_loop_spec.
  rewrite iterate_empty; [done|].
  apply set_eq. intros c.
  rewrite elem_of_difference, !elem_of_list_to_set.
  split; [|by intros ?%elem_of_empty]. intros [Hc Hnot]. destruct Hnot. auto.
Qed.

(** The labels the test frame has and the training frame lacks, once the
    first loop has run. *)
Lemma missing_in_train (train test : frame) (c : string) :
  let cs := iterate (list_to_set (labels_of train)
                     ∖ list_to_set (labels_of test)) in
  c ∈ (list_to_set (labels_of (filled test cs))
       ∖ list_to_set (labels_of train) : gset string)
  ↔ c ∈ labels_of test ∧ c ∉ labels_of train.
Proof.
  intros cs. rewrite elem_of_difference, !elem_of_list_to_set.
  rewrite elem_of_labels_filled. subst cs.
  rewrite elem_of_iterate, elem_of_difference, !elem_of_list_to_set.
  tauto.
Qed.

Lemma columns_labelled_cases (df : frame) (c : string) :
  (c ∈ labels_of df
   ∧ ∃ found, columns_labelled df c = Return found
              ∧ found ≠ [] ∧ Forall (λ nc, nc.1 = c) found)
  ∨ ((c ∉ labels_of df) ∧ columns_labelled df c = Raise "KeyError").
Proof.
  unfold columns_labelled.
  destruct (filter (λ nc, nc.1 = c) (columns df)) as [|nc found] eqn:Hfound.
  - right. split; [|done]. intros Hc. unfold labels_of in Hc.
    apply list_elem_of_In, in_map_iff in Hc as (nc & Hnc & Hin).
    apply list_elem_of_In in Hin.
    apply (not_elem_of_nil nc). rewrite <- Hfound.
    by apply list_elem_of_filter.
  - left.
    assert (Forall (λ nc, nc.1 = c) (nc :: found)) as Hall.
    { rewrite <- Hfound. apply Forall_forall. intros x Hx.
      by apply list_elem_of_filter in Hx as [Hx _]. }
    split.
    + assert (nc ∈ filter (λ nc, nc.1 = c) (columns df)) as Hnc
        by (rewrite Hfound; apply list_elem_of_here).
      apply list_elem_of_filter in Hnc as [Hlabel Hin].
      unfold labels_of. apply list_elem_of_In, in_map_iff. exists nc.
      split; [done | by apply list_elem_of_In].
    + by exists (nc :: found).
Qed.

(** With distinct labels, a label selects one column. *)
Lemma columns_labelled_unique (df : frame) (c : string) :
  NoDup (labels_of df) → c ∈ labels_of df →
  ∃ nc, columns_labelled df c = Return [nc] ∧ nc.1 = c.
Proof.
  unfold columns_labelled, labels_of.
  induction (columns df) as [|x l IH]; intros Hnodup Hc.
  { by apply elem_of_nil in Hc. }
  cbn [map] in Hnodup, Hc. apply NoDup_cons in Hnodup as [Hx Hnodup].
  rewrite filter_cons. destruct (decide (x.1 = c)) as [Heq|Hne].
  - exists x. split; [|done].
    assert (filter (λ nc : string * list Z, nc.1 = c) l = []) as ->; [|done].
    destruct (filter (λ nc : string * list Z, nc.1 = c) l) as [|y ys] eqn:Hf;
      [done|].
    exfalso. apply Hx.
    assert (y ∈ filter (λ nc : string * list Z, nc.1 = c) l) as Hy
      by (rewrite Hf; apply list_elem_of_here).
    apply list_elem_of_filter in Hy as [Hyc Hy].
    rewrite Heq, <- Hyc. apply list_elem_of_In, in_map.
    by apply list_elem_of_In.
  - apply IH; [done|]. apply elem_of_cons in Hc as [Hc|Hc]; [|done].
    by destruct Hne.
Qed.

Lemma select_Return (df : frame) (cs : list string) :
  (∀ c, c ∈ cs → c ∈ labels_of df) →
  ∃ df', select df cs = Return df'
         ∧ (∀ x, x ∈ labels_of df' ↔ x ∈ cs)
         ∧ index_size df' = index_size df
         ∧ (NoDup (labels_of df) → labels_of df' = cs).
Proof.
  intros Hall. unfold select.
  destruct (mapM_Return_Forall (columns_labelled df) (λ _, True) cs)
    as (selected & Hsel & _).
  { apply Forall_forall. intros c Hc.
    destruct (columns_labelled_cases df c)
      as [[_ (found & -> & _)]|[Hnot _]].
    - by exists found.
    - destruct Hnot. by apply Hall. }
  rewrite Hsel. cbn [mbind outcome_bind bind mret outcome_ret].
  eexists. split; [done|].
  unfold labels_of at 1 3. cbn [columns index_size].
  apply mapM_Return_lookup in Hsel.
  split; [|split; [done|]].
  - induction Hsel as [|c found cs selected Hc _ IH].
    { intros x. cbn. by rewrite !elem_of_nil. }
    intros x. cbn [concat]. rewrite map_app, elem_of_app, elem_of_cons.
    rewrite IH by (intros c' Hc'; by apply Hall, list_elem_of_further).
    assert (x ∈ map fst found ↔ x = c) as ->; [|done].
    destruct (columns_labelled_cases df c)
      as [[_ (found' & Hfound' & Hne & Hlabels)]|[_ Hraise]];
      [|congruence].
    assert (found' = found) as -> by congruence.
    split.
    + intros Hx. apply list_elem_of_In, in_map_iff in Hx as (nc & <- & Hin).
      apply list_elem_of_In in Hin.
      by apply (proj1 (Forall_forall _ _) Hlabels).
    + intros ->. destruct found as [|nc found]; [done|].
      apply Forall_cons in Hlabels as [<- _]. apply list_elem_of_here.
  - intros Hnodup.
    induction Hsel as [|c found cs selected Hc _ IH]; [done|].
    cbn [concat]. rewrite map_app.
    rewrite IH by (intros c' Hc'; by apply Hall, list_elem_of_further).
    destruct (columns_labelled_unique df c Hnodup) as (nc & Hnc & <-).
    { apply Hall, list_elem_of_here. }
    assert (found = [nc]) as -> by congruence. done.
Qed.

Lemma select_KeyError (df : frame) (cs : list string) (c : string) :
  c ∈ cs → c ∉ labels_of df → select df cs = Raise "KeyError".
Proof.
  intros Hc Hnot. unfold select.
  rewrite (mapM_Raise _ "KeyError"); [done| |].
  - apply Forall_forall. intros c' _.
    destruct (columns_labelled_cases df c')
      as [[_ (found & -> & _)]|[_ ->]];
      [left; by eexists | by right].
  - apply Exists_exists. exists c. split; [done|].
    by destruct (columns_labelled_cases df c) as [[Hin _]|[_ ->]].
Qed.

Lemma fix_columns_outcome (train test : frame) :
  let test_df_missing_cols : gset string :=
    list_to_set (labels_of train) ∖ list_to_set (labels_of test) in
  let test' := filled test (iterate test_df_missing_cols) in
  let train_df_missing_cols : gset string :=
    list_to_set (labels_of test) ∖ list_to_set (labels_of train) in
  test_df_missing_cols ≠ ∅ →
  fix_columns iterate train test
  = (train' ← for_each (λ input_train_df c,
                          select (assign_constant input_train_df c 0)
                                 (labels_of test'))
                (iterate train_df_missing_cols) train;
     mret (train', test')).
Proof.
  intros missing test' missing' Hne. unfold fix_columns.
  rewrite first_loop_spec. fold missing. fold test'.
  destruct (iterate missing) as [|c cs] eqn:Hcs.
  { destruct Hne. apply set_eq. intros c.
    rewrite <- elem_of_iterate, Hcs. set_solver. }
  assert (list_to_set (labels_of test') ∖ list_to_set (labels_of train)
          = missing') as ->; [|done].
  apply set_eq. intros x. subst test' missing.
  rewrite <- Hcs, missing_in_train. subst missing'.
  rewrite elem_of_difference, !elem_of_list_to_set. tauto.
Qed.

Lemma fix_columns_KeyError (train test : frame) (c c1 c2 : string) :
  c ∈ labels_of train → c ∉ labels_of test →
  c1 ∈ labels_of test → c1 ∉ labels_of train →
  c2 ∈ labels_of test → c2 ∉ labels_of train →
  c1 ≠ c2 →
  fix_columns iterate train test = Raise "KeyError".
Proof.
  intros Hc Hc' H1 H1' H2 H2' Hne.
  rewrite fix_columns_outcome.
  2:{ intros Hempty. apply (not_elem_of_empty (C := gset string) c).
      rewrite <- Hempty, elem_of_difference, !elem_of_list_to_set. done. }
  set (missing' := list_to_set (labels_of test)
                   ∖ list_to_set (labels_of train) : gset string).
  assert (∀ x, x ∈ iterate missing'
               ↔ x ∈ labels_of test ∧ x ∉ labels_of train) as Hiter.
  { intros x. subst missing'.
    by rewrite elem_of_iterate, elem_of_difference, !elem_of_list_to_set. }
  destruct (iterate missing') as [|x xs] eqn:Hxs.
  { exfalso. apply (not_elem_of_nil c1). by apply Hiter. }
  cbn [for_each].
  assert (∃ y, y ≠ x ∧ y ∈ labels_of test ∧ y ∉ labels_of train)
    as (y & Hyx & Hy & Hy').
  { destruct (decide (c1 = x)) as [<-|]; [exists c2 | exists c1]; done. }
  rewrite (select_KeyError _ _ y); [done| |].
  - apply elem_of_labels_filled. by right.
  - rewrite elem_of_labels_assign. intros [?|?]; done.
Qed.

Lemma fix_columns_Return (train test : frame) (c : string) :
  c ∈ labels_of train → c ∉ labels_of test →
  (∀ c1 c2, c1 ∈ labels_of test → c1 ∉ labels_of train →
            c2 ∈ labels_of test → c2 ∉ labels_of train → c1 = c2) →
  ∃ train' test',
    fix_columns iterate train test = Return (train', test')
    ∧ (∀ x, x ∈ labels_of train' ↔ x ∈ labels_of test')
    ∧ (∀ x, x ∈ labels_of test'
            ↔ x ∈ labels_of train ∨ x ∈ labels_of test)
    ∧ index_size train' = index_size train
    ∧ index_size test' = index_size test
    ∧ (NoDup (labels_of train) →
       (∃ x, x ∈ labels_of test ∧ x ∉ labels_of train) →
       labels_of train' = labels_of test')
    ∧ ((∀ x, x ∈ labels_of test → x ∈ labels_of train) → train' = train)
    ∧ labels_of test `prefix_of` labels_of test'.
Proof.
  intros Hc Hc' Hone.
  rewrite fix_columns_outcome.
  2:{ intros Hempty. apply (not_elem_of_empty (C := gset string) c).
      rewrite <- Hempty, elem_of_difference, !elem_of_list_to_set. done. }
  set (missing := list_to_set (labels_of train)
                  ∖ list_to_set (labels_of test) : gset string).
  set (missing' := list_to_set (labels_of test)
                   ∖ list_to_set (labels_of train) : gset string).
  set (test' := filled test (iterate missing)).
  assert (∀ x, x ∈ labels_of test'
               ↔ x ∈ labels_of train ∨ x ∈ labels_of test) as Htest'.
  { intros x. subst test' missing.
    rewrite elem_of_labels_filled, elem_of_iterate, elem_of_difference,
      !elem_of_list_to_set.
    destruct (decide (x ∈ labels_of test)); tauto. }
  assert (index_size test' = index_size test) as Hsize.
  { apply index_size_filled. }
  assert (∀ x, x ∈ iterate missing'
               ↔ x ∈ labels_of test ∧ x ∉ labels_of train) as Hiter.
  { intros x. subst missing'.
    by rewrite elem_of_iterate, elem_of_difference, !elem_of_list_to_set. }
  pose proof (NoDup_iterate missing') as Hnodup.
  destruct (iterate missing') as [|x xs] eqn:Hxs.
  - (* the training frame lacks no label *)
    cbn [for_each mbind outcome_bind bind mret outcome_ret].
    exists train, test'. split; [done|]. split.
    { intros y. rewrite Htest'. split; [tauto|]. intros [?|Hy]; [done|].
      destruct (decide (y ∈ labels_of train)) as [|Hnot]; [done|].
      exfalso. apply (not_elem_of_nil y). by apply Hiter. }
    split; [done|]. split; [done|]. split; [done|].
    split; [|split; [done | apply labels_filled_prefix]].
    intros _ (y & Hy & Hy'). exfalso.
    apply (not_elem_of_nil y). by apply Hiter.
  - (* it lacks one label *)
    assert (xs = []) as ->.
    { destruct xs as [|y xs]; [done|]. exfalso.
      assert (x = y) as ->.
      { destruct (proj1 (Hiter x)) as [Hx1 Hx2]; [apply list_elem_of_here|].
        destruct (proj1 (Hiter y)) as [Hy1 Hy2];
          [apply list_elem_of_further, list_elem_of_here|].
        by apply Hone. }
      apply NoDup_cons in Hnodup as [Hnot _].
      apply Hnot, list_elem_of_here. }
    cbn [for_each].
    assert (x ∈ labels_of test ∧ x ∉ labels_of train) as [Hx Hx']
      by (apply Hiter, list_elem_of_here).
    destruct (select_Return (assign_constant train x 0) (labels_of test'))
      as (train' & -> & Hlabels & Hsize' & Hlist).
    { intros y Hy. rewrite elem_of_labels_assign.
      apply Htest' in Hy as [?|Hy]; [by right|].
      destruct (decide (y ∈ labels_of train)) as [|Hnot]; [by right|].
      left. apply Hone; done. }
    cbn [mbind outcome_bind bind mret outcome_ret].
    exists train', test'. split; [done|].
    split; [done|]. split; [done|].
    split; [by rewrite Hsize', index_size_assign|]. split; [done|].
    split.
    { intros Hdistinct _. apply Hlist.
      destruct (labels_assign_cases train x 0) as [[Hin _]|[_ ->]]; [done|].
      apply NoDup_app. split; [done|]. split; [|apply NoDup_singleton].
      intros y Hy Hy'%list_elem_of_singleton. by subst y. }
    split; [|apply labels_filled_prefix].
    intros Hall. destruct Hx'. by apply Hall.
Qed.

End AlignedColumns.

(** Membership of the labels of a frame that is written out. *)
Ltac is_label :=
  unfold frame_of, Preprocessing.labels_of; cbn;
  repeat first [apply list_elem_of_here | apply list_elem_of_further].
Ltac is_no_label :=
  unfold frame_of, Preprocessing.labels_of; cbn;
  let H := fresh in
  intros H;
  repeat (apply elem_of_cons in H as [H|H]; [discriminate H|]);
  by apply elem_of_nil in H.

(** X26. [fix_columns] needs a column that the test frame lacks: when
    every column label of the training frame is a label of the test frame
    (for instance when the two frames have the same columns already), the
    first loop does not run, [train_df_missing_cols] is never bound, and
    the call ends in UnboundLocalError. *)
Theorem fix_columns_fails_when_the_test_frame_lacks_no_column
    (iterate : gset string → list string)
    (input_train_df input_test_df : Preprocessing.frame) :
  (∀ s, iterate s ≡ₚ elements s) →
  (∀ c, c ∈ Preprocessing.labels_of input_train_df →
        c ∈ Preprocessing.labels_of input_test_df) →
  Preprocessing.fix_columns iterate input_train_df input_test_df
  = Raise "UnboundLocalError".
Proof. intros Hiterate. by apply fix_columns_unbound. Qed.

Lemma fix_columns_fails_when_the_test_frame_lacks_no_column_witness :
  Preprocessing.fix_columns elements
    (frame_of 2 ["age"; "label"]) (frame_of 1 ["age"; "label"])
  = Raise "UnboundLocalError".
Proof.
  apply fix_columns_fails_when_the_test_frame_lacks_no_column.
  - reflexivity.
  - intros c Hc. exact Hc.
Defined.

(** X27. When the test frame lacks a column of the training frame and
    the training frame lacks two or more columns of the test frame,
    [fix_columns] ends in KeyError: after the first of them is added, the
    training frame is indexed by all the labels of the test frame, among
    them one it does not have yet. *)
Theorem fix_columns_fails_when_the_training_frame_lacks_two_columns
    (iterate : gset string → list string)
    (input_train_df input_test_df : Preprocessing.frame)
    (c c1 c2 : string) :
  (∀ s, iterate s ≡ₚ elements s) →
  c ∈ Preprocessing.labels_of input_train_df →
  c ∉ Preprocessing.labels_of input_test_df →
  c1 ∈ Preprocessing.labels_of input_test_df →
  c1 ∉ Preprocessing.labels_of input_train_df →
  c2 ∈ Preprocessing.labels_of input_test_df →
  c2 ∉ Preprocessing.labels_of input_train_df →
  c1 ≠ c2 →
  Preprocessing.fix_columns iterate input_train_df input_test_df
  = Raise "KeyError".
Proof. intros Hiterate. by apply fix_columns_KeyError. Qed.

Lemma fix_columns_fails_when_the_training_frame_lacks_two_columns_witness :
  Preprocessing.fix_columns elements
    (frame_of 2 ["a"; "label"]) (frame_of 1 ["label"; "b"; "c"])
  = Raise "KeyError".
Proof.
  apply (fix_columns_fails_when_the_training_frame_lacks_two_columns
           elements _ _ "a" "b" "c").
  - reflexivity.
  - is_label.
  - is_no_label.
  - is_label.
  - is_no_label.
  - is_label.
  - is_no_label.
  - discriminate.
Defined.

(** X28. When the test frame lacks a column of the training frame and
    the training frame lacks at most one column of the test frame,
    [fix_columns] returns two frames with the same set of column labels,
    the labels of either input, and with the row counts of the inputs.
    When the training frame lacked a column and its labels are distinct,
    its columns are also put in the order of the test frame (a label that
    several of its columns carry selects them all); when it lacked none,
    it is returned as it was. The columns added to the test frame come
    last. *)
Theorem fix_columns_aligns_the_columns
    (iterate : gset string → list string)
    (input_train_df input_test_df : Preprocessing.frame) (c : string) :
  (∀ s, iterate s ≡ₚ elements s) →
  c ∈ Preprocessing.labels_of input_train_df →
  c ∉ Preprocessing.labels_of input_test_df →
  (∀ c1 c2,
     c1 ∈ Preprocessing.labels_of input_test_df →
     c1 ∉ Preprocessing.labels_of input_train_df →
     c2 ∈ Preprocessing.labels_of input_test_df →
     c2 ∉ Preprocessing.labels_of input_train_df → c1 = c2) →
  ∃ train_df test_df,
    Preprocessing.fix_columns iterate input_train_df input_test_df
    = Return (train_df, test_df)
    ∧ (∀ x, x ∈ Preprocessing.labels_of train_df
            ↔ x ∈ Preprocessing.labels_of test_df)
    ∧ (∀ x, x ∈ Preprocessing.labels_of test_df
            ↔ x ∈ Preprocessing.labels_of input_train_df
              ∨ x ∈ Preprocessing.labels_of input_test_df)
    ∧ Preprocessing.index_size train_df
      = Preprocessing.index_size input_train_df
    ∧ Preprocessing.index_size test_df
      = Preprocessing.index_size input_test_df
    ∧ (NoDup (Preprocessing.labels_of input_train_df) →
       (∃ x, x ∈ Preprocessing.labels_of input_test_df
             ∧ x ∉ Preprocessing.labels_of input_train_df) →
       Preprocessing.labels_of train_df = Preprocessing.labels_of test_df)
    ∧ ((∀ x, x ∈ Preprocessing.labels_of input_test_df →
             x ∈ Preprocessing.labels_of input_train_df) →
       train_df = input_train_df)
    ∧ Preprocessing.labels_of input_test_df
      `prefix_of` Preprocessing.labels_of test_df.
Proof. intros Hiterate. by apply fix_columns_Return. Qed.

Lemma fix_columns_aligns_the_columns_witness :
  ∃ train_df test_df,
    Preprocessing.fix_columns elements
      (frame_of 2 ["a"; "label"]) (frame_of 1 ["label"; "b"])
    = Return (train_df, test_df)
    ∧ Preprocessing.labels_of train_df = Preprocessing.labels_of test_df.
Proof.
  destruct (fix_columns_aligns_the_columns elements
              (frame_of 2 ["a"; "label"]) (frame_of 1 ["label"; "b"]) "a")
    as (train_df & test_df & Hrun & _ & _ & _ & _ & Hsame & _).
  - reflexivity.
  - is_label.
  - is_no_label.
  - intros c1 c2 H1 H1' H2 H2'.
    apply elem_of_cons in H1 as [->|H1]; [destruct H1'; is_label|].
    apply elem_of_cons in H2 as [->|H2]; [destruct H2'; is_label|].
    apply list_elem_of_singleton in H1, H2. congruence.
  - exists train_df, test_df. split; [exact Hrun|].
    apply Hsame.
    + unfold frame_of, Preprocessing.labels_of. cbn.
      repeat constructor; [|apply not_elem_of_nil].
      intros H. apply list_elem_of_singleton in H. discriminate.
    + exists "b". split; [is_label | is_no_label].
Defined.

(** X29. A minibatch size that the clamp leaves at zero or below, as it
    does for an empty training frame, gives empty minibatches: the [while]
    loop is not entered, whatever the start index, and every iteration
    feeds the training step no row. *)
Theorem empty_frame_gives_empty_minibatches
    (num_rows requested start : Z) (iterations fuel : nat) :
  (FairnessNotebook.clamp requested num_rows ≤ 0)%Z →
  FairnessNotebook.training_batches fuel num_rows
    (FairnessNotebook.clamp requested num_rows) iterations start
  = Some (replicate iterations []).
Proof.
  intros Hsize. induction iterations as [|n IH]; [done|].
  cbn [FairnessNotebook.training_batches replicate].
  unfold FairnessNotebook.collect_minibatch.
  rewrite while_loop_done by (unfold FairnessNotebook.len; simpl; lia).
  cbn [FairnessNotebook.minibatch_start_index
       FairnessNotebook.minibatch_indices].
  by rewrite IH.
Qed.

Lemma empty_frame_gives_empty_minibatches_witness :
  FairnessNotebook.training_batches 0 0 (FairnessNotebook.clamp 100 0) 3 0
  = Some [[]; []; []].
Proof.
  apply (empty_frame_gives_empty_minibatches 0 100 0 3 0).
  vm_compute. discriminate.
Defined.
